(** * blog-tags-sync: the tag merger, the front-matter synchroniser,
      the generation loop and the tag-index run, embedded from
      [src/taxonomy.ts], [src/frontmatter.ts], [src/llm.ts], [src/index.ts],
      [src/writer.ts] and [src/utils.ts].

    Strings are Rocq [string]s and hold the UTF-8 form of the JavaScript
    string, byte by byte.  Cutting at an ASCII character, comparing for
    equality and searching for a substring are the same on the bytes as on
    the characters.  White space is not: [\s] and [trim] know characters
    of two and three bytes (the no-break space, the ideographic space, the
    byte-order mark, ...), so a text is scanned for them from left to
    right before it is collapsed or trimmed.  Lower-casing is not either:
    [toLowerCase] follows the Unicode tables and looks at the letters
    around a capital sigma, so it is a field of the class [Host], with the
    properties of it the development uses; on ASCII text it is computed.
    What else the JavaScript host supplies and the repository does not
    define (ICU collation, the regular-expression engine, [JSON.parse],
    the network, the file system) is a field of [Host] too, or an oracle
    argument. *)

From Stdlib Require Import String Ascii List Bool Arith ZArith Lia.
From Stdlib Require Import Permutation Sorted OrdersEx DecimalString RelationClasses.
Import ListNotations.
Local Open Scope string_scope.
Local Open Scope list_scope.

(* ================================================================== *)
(** ** String built-ins *)

Module JsString.

(** White space: [\s] of a regular expression and what
    [String.prototype.trim] strips (WhiteSpace and LineTerminator of
    ECMAScript).  In one byte: TAB, LF, VT, FF, CR and SPACE. *)
Definition isAsciiWhiteSpace (c : ascii) : bool :=
  let n := nat_of_ascii c in
  (((9 <=? n) && (n <=? 13)) || (n =? 32))%nat.

(** In two bytes: the no-break space U+00A0, [C2 A0]. *)
Definition isWhiteSpace2 (a b : ascii) : bool :=
  ((nat_of_ascii a =? 194) && (nat_of_ascii b =? 160))%nat.

(** In three bytes: U+1680 [E1 9A 80]; U+2000 to U+200A, the line and
    paragraph separators U+2028 and U+2029 and U+202F, [E2 80 80] to
    [E2 80 8A], [E2 80 A8], [E2 80 A9] and [E2 80 AF]; U+205F [E2 81 9F];
    the ideographic space U+3000 [E3 80 80]; and the byte-order mark
    U+FEFF [EF BB BF]. *)
Definition isWhiteSpace3 (a b c : ascii) : bool :=
  let x := nat_of_ascii a in
  let y := nat_of_ascii b in
  let z := nat_of_ascii c in
  (((x =? 225) && (y =? 154) && (z =? 128))
   || ((x =? 226) && (y =? 128)
       && (((128 <=? z) && (z <=? 138))
           || (z =? 168) || (z =? 169) || (z =? 175)))
   || ((x =? 226) && (y =? 129) && (z =? 159))
   || ((x =? 227) && (y =? 128) && (z =? 128))
   || ((x =? 239) && (y =? 187) && (z =? 191)))%nat.

(** The number of bytes of the white-space character the text starts
    with, 0 when it starts with none. *)
Definition whiteLength (l : list ascii) : nat :=
  match l with
  | [] => 0
  | a :: r =>
      if isAsciiWhiteSpace a then 1
      else
        match r with
        | [] => 0
        | b :: r' =>
            if isWhiteSpace2 a b then 2
            else
              match r' with
              | [] => 0
              | c :: _ => if isWhiteSpace3 a b c then 3 else 0
              end
        end
  end.

(** A text read from left to right: every byte with the mark of the
    white-space characters.  [pending] is the number of bytes the
    white-space character under the cursor still has to come. *)
Fixpoint scanFrom (pending : nat) (l : list ascii) : list (ascii * bool) :=
  match l with
  | [] => []
  | c :: r =>
      match pending with
      | S n => (c, true) :: scanFrom n r
      | O =>
          match whiteLength l with
          | S n => (c, true) :: scanFrom n r
          | O => (c, false) :: scanFrom 0 r
          end
      end
  end.

Definition scan (l : list ascii) : list (ascii * bool) := scanFrom 0 l.

(** The class [\s], on a marked byte. *)
Definition isWhiteSpace (u : ascii * bool) : bool := snd u.

Definition space : ascii := " "%char.

(** [toLowerCase] on a string of ASCII characters: the letters A to Z
    become a to z, every other character stays. *)
Definition isAsciiChar (c : ascii) : bool := (nat_of_ascii c <? 128)%nat.

Definition isAscii (s : string) : bool :=
  forallb isAsciiChar (list_ascii_of_string s).

Definition lowerAsciiChar (c : ascii) : ascii :=
  let n := nat_of_ascii c in
  if ((65 <=? n) && (n <=? 90))%nat then ascii_of_nat (n + 32) else c.

Definition lowerAscii (s : string) : string :=
  string_of_list_ascii (map lowerAsciiChar (list_ascii_of_string s)).

(** SPACE and HYPHEN-MINUS: characters without case that the lower-casing
    of their neighbours does not look across. *)
Definition isDelimiter (c : ascii) : bool :=
  Ascii.eqb c " "%char || Ascii.eqb c "-"%char.

(** [s.replace(/[p]+/g, ' ')] for a class [p] of characters: every
    maximal run of bytes of characters in [p] becomes one space.  [inRun]
    says that the byte before the cursor matched, so the run's space is
    already written. *)
Fixpoint collapseRuns (p : ascii * bool -> bool) (inRun : bool)
         (l : list (ascii * bool)) : list ascii :=
  match l with
  | [] => []
  | u :: r =>
      if p u then
        if inRun then collapseRuns p true r
        else space :: collapseRuns p true r
      else fst u :: collapseRuns p false r
  end.

Fixpoint trimStartUnits (l : list (ascii * bool)) : list (ascii * bool) :=
  match l with
  | [] => []
  | u :: r => if isWhiteSpace u then trimStartUnits r else l
  end.

Fixpoint trimEndUnits (l : list (ascii * bool)) : list (ascii * bool) :=
  match l with
  | [] => []
  | u :: r =>
      match trimEndUnits r with
      | [] => if isWhiteSpace u then [] else [u]
      | r' => u :: r'
      end
  end.

Definition trimChars (l : list ascii) : list ascii :=
  map fst (trimStartUnits (trimEndUnits (scan l))).

Definition onChars (f : list ascii -> list ascii) (s : string) : string :=
  string_of_list_ascii (f (list_ascii_of_string s)).

Definition trim : string -> string := onChars trimChars.
Definition replaceRuns (p : ascii * bool -> bool) : string -> string :=
  onChars (fun l => collapseRuns p false (scan l)).

(** Truthiness of a string: [Boolean(s)], [!s] negated. *)
Definition truthy (s : string) : bool := negb (s =? "").

(** [s.split(sep)] for a one-unit separator: cut at every [sep]. *)
Fixpoint splitChars (sep : ascii) (l : list ascii) : list (list ascii) :=
  match l with
  | [] => [[]]
  | c :: r =>
      if Ascii.eqb c sep then [] :: splitChars sep r
      else match splitChars sep r with
           | w :: ws => (c :: w) :: ws
           | [] => [[c]]
           end
  end.

Definition split (sep : ascii) (s : string) : list string :=
  map string_of_list_ascii (splitChars sep (list_ascii_of_string s)).

(** [a.join(sep)]. *)
Definition join (sep : string) (l : list string) : string :=
  String.concat sep l.

(** Membership in a [Set<string>] or an array of strings. *)
Definition mem (k : string) (l : list string) : bool :=
  existsb (String.eqb k) l.

End JsString.

(* ================================================================== *)
(** ** [Map<string, V>] and plain objects *)

(** A [Map] keeps its entries in insertion order; [set] on a present key
    replaces the value where it stands. *)
Module JsMap.

Definition t (V : Type) : Type := list (string * V).

Definition empty {V} : t V := [].

Fixpoint get {V} (k : string) (m : t V) : option V :=
  match m with
  | [] => None
  | (k', v) :: r => if k' =? k then Some v else get k r
  end.

Definition has {V} (k : string) (m : t V) : bool :=
  match get k m with Some _ => true | None => false end.

Fixpoint set {V} (k : string) (v : V) (m : t V) : t V :=
  match m with
  | [] => [(k, v)]
  | (k', v') :: r => if k' =? k then (k, v) :: r else (k', v') :: set k v r
  end.

Definition values {V} (m : t V) : list V := map snd m.
Definition keys {V} (m : t V) : list string := map fst m.

(** [new Map(pairs)]. *)
Definition ofEntries {V} (es : list (string * V)) : t V :=
  fold_left (fun m e => set (fst e) (snd e) m) es empty.

End JsMap.

(** A plain object with string keys.  The list is the object's own-property
    order, the order of [Object.keys], [Object.entries], [for-in] and
    [JSON.stringify]: keys that are array indices (canonical decimal
    numerals up to 2^32 - 2) first, ascending, then every other key in the
    order it was created.  Only own properties are held.  The objects
    keyed by tags are written and never read by key, and a write makes an
    own property whatever [Object.prototype] holds (no normalised tag is
    [__proto__], which has underscores); the index is read by the paths of
    markdown files, which end in [.md], and no member of
    [Object.prototype] does; the diff of [writer.ts], which looks up the
    keys of the file as they come, has the inherited members in module
    [Writer]. *)
Module JsObject.

Definition t (V : Type) : Type := list (string * V).

Definition empty {V} : t V := [].

Definition isDigit (c : ascii) : bool :=
  let n := nat_of_ascii c in ((48 <=? n) && (n <=? 57))%nat.

Definition digitValue (c : ascii) : N := N.of_nat (nat_of_ascii c - 48).

Definition decimalValue (l : list ascii) : N :=
  fold_left (fun acc c => (10 * acc + digitValue c)%N) l 0%N.

(** [Some n] when [k] is the canonical numeral of an array index [n]. *)
Definition arrayIndex (k : string) : option N :=
  match list_ascii_of_string k with
  | [] => None
  | c :: r =>
      if forallb isDigit (c :: r)
         && (negb (Ascii.eqb c "0"%char) || match r with [] => true | _ => false end)
         && (List.length (c :: r) <=? 10)%nat
         && (decimalValue (c :: r) <=? 4294967294)%N
      then Some (decimalValue (c :: r))
      else None
  end.

Fixpoint get {V} (k : string) (o : t V) : option V :=
  match o with
  | [] => None
  | (k', v) :: r => if k' =? k then Some v else get k r
  end.

Definition has {V} (k : string) (o : t V) : bool :=
  match get k o with Some _ => true | None => false end.

Fixpoint replace {V} (k : string) (v : V) (o : t V) : t V :=
  match o with
  | [] => []
  | (k', v') :: r => if k' =? k then (k, v) :: r else (k', v') :: replace k v r
  end.

(** Where a new array-index key goes: before the first key that is no
    array index or a greater one. *)
Fixpoint insertIndex {V} (n : N) (k : string) (v : V) (o : t V) : t V :=
  match o with
  | [] => [(k, v)]
  | (k', v') :: r =>
      match arrayIndex k' with
      | Some n' =>
          if (n <? n')%N then (k, v) :: o
          else (k', v') :: insertIndex n k v r
      | None => (k, v) :: o
      end
  end.

(** [o[k] = v]. *)
Definition set {V} (k : string) (v : V) (o : t V) : t V :=
  if has k o then replace k v o
  else match arrayIndex k with
       | Some n => insertIndex n k v o
       | None => o ++ [(k, v)]
       end.

(** [delete o[k]]. *)
Definition delete {V} (k : string) (o : t V) : t V :=
  filter (fun e => negb (fst e =? k)) o.

Definition keys {V} (o : t V) : list string := map fst o.
Definition entries {V} (o : t V) : list (string * V) := o.

(** [Object.fromEntries(es)], also the spread copy of an object. *)
Definition fromEntries {V} (es : list (string * V)) : t V :=
  fold_left (fun o e => set (fst e) (snd e) o) es empty.

End JsObject.

(* ================================================================== *)
(** ** The host: what the JavaScript runtime supplies *)

(** [Array.prototype.sort(cmp)]: the stable sort of the array. *)
Fixpoint insertSorted {A} (cmp : A -> A -> Z) (x : A) (l : list A) : list A :=
  match l with
  | [] => [x]
  | y :: r => if (cmp x y <=? 0)%Z then x :: l else y :: insertSorted cmp x r
  end.

Definition arraySort {A} (cmp : A -> A -> Z) (l : list A) : list A :=
  fold_right (insertSorted cmp) [] l.

Class Host : Type := {
    (** [s.toLowerCase()]: the lower-casing of the Unicode standard, with
        its final-sigma rule.  It makes no string empty and none not
        empty; on ASCII it folds the letters A to Z and nothing else; it
        works on either side of a space or a hyphen on its own
        and leaves that character where it is; and it writes no space and
        no hyphen that was not there. *)
    toLowerCase : string -> string;
    toLowerCase_ascii :
      forall s, JsString.isAscii s = true ->
                toLowerCase s = JsString.lowerAscii s;
    toLowerCase_empty : forall s, toLowerCase s = "" <-> s = "";
    toLowerCase_delimiter :
      forall (a b : string) (c : ascii),
        JsString.isDelimiter c = true ->
        toLowerCase (a ++ String c b)
        = (toLowerCase a ++ String c (toLowerCase b))%string;
    toLowerCase_keeps_delimiters :
      forall (s : string) (c : ascii),
        JsString.isDelimiter c = true ->
        In c (list_ascii_of_string (toLowerCase s)) ->
        In c (list_ascii_of_string s);
    (** [a.localeCompare(b, locale)], called as [localeCompare locale a b]. *)
    localeCompare : string -> string -> string -> Z;
    (** A collation is a consistent comparator. *)
    localeCompare_total :
      forall locale a b,
        (0 < localeCompare locale a b)%Z -> (localeCompare locale b a <= 0)%Z;
    localeCompare_trans :
      forall locale a b c,
        (localeCompare locale a b <= 0)%Z -> (localeCompare locale b c <= 0)%Z ->
        (localeCompare locale a c <= 0)%Z;
    (** [new RegExp(pattern, flags).test(input)]: [None] when the constructor
        throws a [SyntaxError]. *)
    regExpTest : string -> string -> string -> option bool;
    (** [JSON.parse(text)] followed by [Array.isArray] and [String(item)] on
        every item: [None] when the parse throws or the value is no array. *)
    jsonParseArray : string -> option (list string);
    (** [path.sep] and [path.resolve(root, relative)]. *)
    pathSep : ascii;
    pathResolve : string -> string -> string
}.

(* ================================================================== *)
(** ** [types.ts] *)

Record TaxonomyRule : Type := {
    includes : option (list string);
    pattern : option string
}.

(** [TaxonomyRules] as [Object.entries] lists it: category name and rule, in
    the object's own-property order. *)
Definition TaxonomyRules : Type := JsObject.t TaxonomyRule.

Definition TagsMap : Type := JsObject.t (list string).

Record MergeResult : Type := {
    tags : list string;
    added : list string;
    classification : JsObject.t string
}.

(** The fields of [TagSyncConfig] the embedded functions read. *)
Record TagSyncConfig : Type := {
    apiKey : string;
    model : string;
    language : string;
    dryRun : bool;
    filter : string;
    maxConcurrency : nat;
    sortTags : bool;
    taxonomyRules : option TaxonomyRules
}.

(** [frontMatter.tags] as the YAML parser leaves it, seen through the tests
    [ensureArray] makes. *)
Inductive FrontMatterValue : Type :=
  | FmFalsy                          (* undefined, null, false, 0, '' *)
  | FmArray (items : list string)    (* an array; each item as String(item) *)
  | FmString (s : string)            (* a non-empty string *)
  | FmOther (s : string).            (* any other truthy value, as String(value) *)

(** The fields of [LoadedPost] the embedded functions read.
    [relativePath] is the path of a markdown file as [loadPosts] computes
    it; [frontMatterTagsValue] stands for [frontMatter.tags]. *)
Record LoadedPost : Type := {
    relativePath : string;
    title : string;
    frontMatterTags : list string;
    frontMatterTagsValue : FrontMatterValue;
    content : string
}.

Record LlmResponse : Type := {
    resp_tags : list string;
    resp_raw : option string;
    resp_error : option string;      (* the Error's message *)
    resp_model : option string
}.

(* ================================================================== *)
(** ** [taxonomy.ts] *)

Module Taxonomy.
Section WithHost.
Context {host : Host}.

(** The class [[\s_/]]. *)
Definition isTagSeparator (u : ascii * bool) : bool :=
  JsString.isWhiteSpace u
  || Ascii.eqb (fst u) "_"%char || Ascii.eqb (fst u) "/"%char.

Definition normalizeTag (tag : string) : string :=
  if negb (JsString.truthy tag) then ""
  else
    JsString.trim
      (JsString.replaceRuns JsString.isWhiteSpace
         (JsString.replaceRuns isTagSeparator tag)).

(** The body of the [for] loop of [dedupe], over the [Map] [seen]. *)
Fixpoint dedupeLoop (seen : JsMap.t string) (tags : list string)
  : JsMap.t string :=
  match tags with
  | [] => seen
  | tag :: rest =>
      let normalized := normalizeTag tag in
      if negb (JsString.truthy normalized) then dedupeLoop seen rest
      else
        let key := toLowerCase normalized in
        if negb (JsMap.has key seen)
        then dedupeLoop (JsMap.set key normalized seen) rest
        else dedupeLoop seen rest
  end.

Definition dedupe (tags : list string) (sort : bool) : list string :=
  let seen := dedupeLoop JsMap.empty tags in
  let values := JsMap.values seen in
  if sort then arraySort (localeCompare "zh-CN") values
  else values.

(** [includes.some(candidate => ...)] of [classifyTags]. *)
Definition includesTag (rule : TaxonomyRule) (tag : string) : bool :=
  let includes := match includes rule with Some l => l | None => [] end in
  existsb
    (fun candidate =>
       toLowerCase (normalizeTag candidate)
       =? toLowerCase (normalizeTag tag))
    includes.

(** The [if (pattern) { try { ... } catch {} }] block: [true] when the
  pattern is truthy, compiles and matches. *)
Definition patternTest (rule : TaxonomyRule) (tag : string) : bool :=
  match pattern rule with
  | Some p =>
      if JsString.truthy p then
        match regExpTest p "i" tag with
        | Some b => b
        | None => false              (* ignore invalid regex *)
        end
      else false
  | None => false
  end.

(** The inner [for] loop over [Object.entries(taxonomyRules)]: the
  category assigned before the [break], or [None] when the loop ends
  with [assigned] still false. *)
Fixpoint assignCategory (tag : string) (entries : list (string * TaxonomyRule))
  : option string :=
  match entries with
  | [] => None
  | (category, rule) :: rest =>
      if includesTag rule tag then Some category
      else if patternTest rule tag then Some category
      else assignCategory tag rest
  end.

Definition classifyTags (tags : list string) (taxonomyRules : option TaxonomyRules)
  : JsObject.t string :=
  match taxonomyRules with
  | None =>
      JsObject.fromEntries (map (fun tag => (tag, "uncategorized")) tags)
  | Some rules =>
      fold_left
        (fun classification tag =>
           match assignCategory tag (JsObject.entries rules) with
           | Some category => JsObject.set tag category classification
           | None => JsObject.set tag "uncategorized" classification
           end)
        tags JsObject.empty
  end.

Definition mergeTags (fromSource recommended : list string)
           (historical : option (list string)) (config : TagSyncConfig)
  : MergeResult :=
  let historyPart :=
    match historical with Some h => dedupe h false | None => [] end in
  let sourcePart := dedupe fromSource false in
  let ordered := historyPart ++ sourcePart ++ recommended in
  let unique := dedupe ordered (sortTags config) in
  let existingSet :=
    map (fun tag => toLowerCase (normalizeTag tag))
        (historyPart ++ sourcePart) in
  let added :=
    List.filter
      (fun tag =>
         negb (JsString.mem (toLowerCase (normalizeTag tag)) existingSet))
      unique in
  let classification := classifyTags unique (taxonomyRules config) in
  {| tags := unique; added := added; classification := classification |}.

End WithHost.
End Taxonomy.

(* ================================================================== *)
(** ** [utils.ts] *)

Module Utils.
Section WithHost.
Context {host : Host}.

Definition toPosix (filePath : string) : string :=
  JsString.join "/" (JsString.split pathSep filePath).

Definition ensureArray (value : FrontMatterValue) : list string :=
  match value with
  | FmFalsy => []
  | FmArray items =>
      List.filter JsString.truthy (map JsString.trim items)
  | FmString s =>
      List.filter JsString.truthy
        (map JsString.trim (JsString.split ","%char s))
  | FmOther s => List.filter JsString.truthy [JsString.trim s]
  end.

End WithHost.
End Utils.

(* ================================================================== *)
(** ** [frontmatter.ts] *)

Module Frontmatter.

Record FrontmatterSyncOptions : Type := {
    dryRun : bool;
    filter : string;
    includeDrafts : bool;
    sortTags : bool
}.

Record FrontmatterSyncResult : Type := {
    updated : list string;
    unchanged : list string;
    missing : list string;
    filteredOut : list string;
    totalEntries : nat;
    (** Not a field of the source's result: the posts [fs.writeFile] was
        called for, with the tags written, in call order. *)
    written : list (string * list string)
}.

Section WithHost.
Context {host : Host}.

Fixpoint dedupeTagsLoop (seen : JsMap.t string) (tags : list string)
  : JsMap.t string :=
  match tags with
  | [] => seen
  | raw :: rest =>
      let trimmed := JsString.trim raw in
      if negb (JsString.truthy trimmed) then dedupeTagsLoop seen rest
      else
        let key := toLowerCase trimmed in
        if negb (JsMap.has key seen)
        then dedupeTagsLoop (JsMap.set key trimmed seen) rest
        else dedupeTagsLoop seen rest
  end.

Definition dedupeTags (tags : list string) (sort : bool) : list string :=
  let seen := dedupeTagsLoop JsMap.empty tags in
  let normalized := JsMap.values seen in
  if sort then arraySort (localeCompare "zh-CN") normalized
  else normalized.

(** The [for] loop of [arraysEqual], entered with equal lengths: stops
  with [false] at the first index where the items differ. *)
Fixpoint itemsEqual (a b : list string) : bool :=
  match a, b with
  | x :: a', y :: b' => if negb (x =? y) then false else itemsEqual a' b'
  | _, _ => true
  end.

Definition arraysEqual (a b : list string) : bool :=
  if negb (List.length a =? List.length b)%nat then false
  else itemsEqual a b.

(** One turn of the [for (const [rawPath, tagList] of entries)] loop.
  The serialisation of the rewritten file (gray-matter, the date
  literals, [stripTimestampQuotes]) is left out: it decides no list of
  the result. *)
Definition syncEntry (options : FrontmatterSyncOptions)
           (postMap : JsMap.t LoadedPost) (filterApplied : bool)
           (workspaceRoot : string) (fileExists : string -> bool)
           (acc : FrontmatterSyncResult) (entry : string * list string)
  : FrontmatterSyncResult :=
  let '(rawPath, tagList) := entry in
  let relativePath := Utils.toPosix rawPath in
  match JsMap.get relativePath postMap with
  | None =>
      let absoluteCandidate := pathResolve workspaceRoot relativePath in
      if filterApplied then
        {| updated := updated acc; unchanged := unchanged acc;
           missing := missing acc;
           filteredOut := filteredOut acc ++ [relativePath];
           totalEntries := totalEntries acc; written := written acc |}
      else if fileExists absoluteCandidate then
        {| updated := updated acc; unchanged := unchanged acc;
           missing := missing acc;
           filteredOut := filteredOut acc ++ [relativePath];
           totalEntries := totalEntries acc; written := written acc |}
      else
        {| updated := updated acc; unchanged := unchanged acc;
           missing := missing acc ++ [relativePath];
           filteredOut := filteredOut acc;
           totalEntries := totalEntries acc; written := written acc |}
  | Some post =>
      let expectedTags := dedupeTags tagList (sortTags options) in
      let currentTags :=
        dedupeTags (Utils.ensureArray (frontMatterTagsValue post))
                   (sortTags options) in
      if arraysEqual expectedTags currentTags then
        {| updated := updated acc;
           unchanged := unchanged acc ++ [relativePath];
           missing := missing acc; filteredOut := filteredOut acc;
           totalEntries := totalEntries acc; written := written acc |}
      else
        {| updated := updated acc ++ [relativePath];
           unchanged := unchanged acc;
           missing := missing acc; filteredOut := filteredOut acc;
           totalEntries := totalEntries acc;
           written :=
             if dryRun options then written acc
             else written acc ++ [(relativePath, expectedTags)] |}
  end.

(** [syncFrontmatterFromTags]: [tagsMap] is what [readTagsFile] returned,
  [posts] what [loadPosts] returned under the options' filter and draft
  setting, [fileExists] the state of the disk. *)
Definition syncFrontmatterFromTags (tagsMap : TagsMap) (posts : list LoadedPost)
           (workspaceRoot : string) (fileExists : string -> bool)
           (options : FrontmatterSyncOptions) : FrontmatterSyncResult :=
  let entries := JsObject.entries tagsMap in
  let totalEntries := List.length entries in
  if (totalEntries =? 0)%nat then
    {| updated := []; unchanged := []; missing := []; filteredOut := [];
       totalEntries := 0; written := [] |}
  else
    let postMap :=
      JsMap.ofEntries
        (map (fun post => (Utils.toPosix (relativePath post), post)) posts) in
    let filterApplied :=
      (0 <? String.length (JsString.trim (filter options)))%nat in
    fold_left
      (syncEntry options postMap filterApplied workspaceRoot fileExists)
      entries
      {| updated := []; unchanged := []; missing := []; filteredOut := [];
         totalEntries := totalEntries; written := [] |}.

End WithHost.
End Frontmatter.

(* ================================================================== *)
(** ** [llm.ts] *)

Module Llm.

(** What one [fetch] round trip of [callChatCompletion] comes to. *)
Inductive FetchOutcome : Type :=
  | FetchRejects (message : string)
      (* fetch, the proxy agent or response.json() throws: connection
         error, abort at the timeout, malformed body *)
  | FetchNotOk (status : nat) (text : string)
      (* response.ok is false *)
  | FetchOk (content : option string).
      (* json.choices?.[0]?.message?.content *)

(** The callback [onPostProcessed] over the caller's state [St]: the state
    it leaves, and the error it throws when it does. *)
Definition Callback (St : Type) : Type :=
  LoadedPost -> MergeResult -> St -> St * option string.

Record GenerateTagOptions (St : Type) : Type := {
    retries : option Z;
    historicalTags : option TagsMap;
    onPostProcessed : option (Callback St)
}.
Arguments retries {St}.
Arguments historicalTags {St}.
Arguments onPostProcessed {St}.

(** The variables [generateTags] and its tasks share, with two logs the
    source does not keep: the delays passed to [sleep] and the number of
    calls of [callChatCompletion]. *)
Record GenState (St : Type) : Type := {
    results : JsMap.t LlmResponse;
    merges : JsMap.t MergeResult;
    historicalTagsMap : TagsMap;
    sleeps : list Z;
    calls : nat;
    caller : St
}.
Arguments results {St}.
Arguments merges {St}.
Arguments historicalTagsMap {St}.
Arguments sleeps {St}.
Arguments calls {St}.
Arguments caller {St}.

Section WithHost.
Context {host : Host}.

Fixpoint fromFirstOpen (l : list ascii) : option (list ascii) :=
  match l with
  | [] => None
  | c :: r => if Ascii.eqb c "["%char then Some l else fromFirstOpen r
  end.

Fixpoint throughLastClose (l : list ascii) : option (list ascii) :=
  match l with
  | [] => None
  | c :: r =>
      match throughLastClose r with
      | Some r' => Some (c :: r')
      | None => if Ascii.eqb c "]"%char then Some [c] else None
      end
  end.

(** [content.match(/\[[\s\S]*\]/)]: from the first opening bracket to
  the last closing one. *)
Definition matchArrayLiteral (content : string) : option string :=
  match fromFirstOpen (list_ascii_of_string content) with
  | Some l => option_map string_of_list_ascii (throughLastClose l)
  | None => None
  end.

Definition parseTagsFromContent (content : string) : list string :=
  match matchArrayLiteral content with
  | None => []
  | Some jsonMatch =>
      match jsonParseArray jsonMatch with
      | Some parsed =>
          List.filter JsString.truthy (map JsString.trim parsed)
      | None => []
      end
  end.

Definition decimal (n : nat) : string :=
  NilEmpty.string_of_uint (Nat.to_uint n).

Definition failure (message : string) : LlmResponse :=
  {| resp_tags := []; resp_raw := None; resp_error := Some message;
     resp_model := None |}.

(** [callChatCompletion] against the outcome of its one request. *)
Definition callChatCompletion (config : TagSyncConfig) (outcome : FetchOutcome)
  : LlmResponse :=
  if negb (JsString.truthy (apiKey config)) then
    failure "Missing TAG_SYNC_API_KEY"
  else
    match outcome with
    | FetchRejects message => failure message
    | FetchNotOk status text =>
        failure ("HTTP " ++ decimal status ++ ": " ++ text)
    | FetchOk c =>
        let content := match c with Some s => s | None => "" end in
        {| resp_tags := parseTagsFromContent content;
           resp_raw := Some content;
           resp_error := None;
           resp_model := Some (model config) |}
    end.

Section Task.
Context {St : Type}.
Variable config : TagSyncConfig.
Variable options : GenerateTagOptions St.
(** The network: the outcome of the request made for a post in the
  turn of its loop where [attempt] has the given value. *)
Variable fetch : string -> Z -> FetchOutcome.

(** [await options.onPostProcessed?.(post, merged)]. *)
Definition notify (post : LoadedPost) (merged : MergeResult) (s : St)
  : St * option string :=
  match onPostProcessed options with
  | Some callback => callback post merged s
  | None => (s, None)
  end.

(** Everything from [results.set] to the callback, for a response. *)
Definition record (post : LoadedPost) (historyTags : list string)
           (response : LlmResponse) (proposed : list string)
           (st : GenState St) : GenState St * option string :=
  let merged :=
    Taxonomy.mergeTags (frontMatterTags post) proposed (Some historyTags)
                       config in
  let '(s', thrown) := notify post merged (caller st) in
  ({| results := JsMap.set (relativePath post) response (results st);
      merges := JsMap.set (relativePath post) merged (merges st);
      historicalTagsMap :=
        JsObject.set (relativePath post) (tags merged) (historicalTagsMap st);
      sleeps := sleeps st;
      calls := calls st;
      caller := s' |},
   thrown).

Definition logSleep (ms : Z) (st : GenState St) : GenState St :=
  {| results := results st; merges := merges st;
     historicalTagsMap := historicalTagsMap st;
     sleeps := sleeps st ++ [ms]; calls := calls st;
     caller := caller st |}.

Definition countCall (st : GenState St) : GenState St :=
  {| results := results st; merges := merges st;
     historicalTagsMap := historicalTagsMap st;
     sleeps := sleeps st; calls := S (calls st);
     caller := caller st |}.

(** The [while (attempt <= retries)] loop of one task; [turns] is the
  number of turns left, [retries + 1 - attempt].  [inl] is the
  [return] inside the [try]; [inr] is the loop running out, with
  [lastError] as the [catch] left it. *)
Fixpoint attemptLoop (post : LoadedPost) (historyTags : list string)
         (turns : nat) (attempt : Z) (lastError : option string)
         (st : GenState St)
  : GenState St + (GenState St * option string) :=
  match turns with
  | O => inr (st, lastError)
  | S turns' =>
      let st1 :=
        if (0 <? attempt)%Z
        then logSleep (Z.min (2000 * attempt) 5000) st
        else st in
      let response :=
        callChatCompletion config (fetch (relativePath post) attempt) in
      let '(st2, thrown) :=
        record post historyTags response (resp_tags response)
               (countCall st1) in
      match thrown with
      | None => inl st2
      | Some message =>
          attemptLoop post historyTags turns' (attempt + 1)%Z
                      (Some message) st2
      end
  end.

(** The task [limit(async () => { ... })] of one post: the state it
  leaves and the error it rejects with, when it does. *)
Definition processPost (retries : Z) (post : LoadedPost) (st : GenState St)
  : GenState St * option string :=
  let historyTags :=
    match JsObject.get (relativePath post) (historicalTagsMap st) with
    | Some l => l
    | None => []
    end in
  match attemptLoop post historyTags (Z.to_nat (retries + 1)) 0%Z None st with
  | inl st' => (st', None)
  | inr (st', None) => (st', None)
  | inr (st', Some lastError) =>
      record post historyTags (failure lastError) [] st'
  end.

(** The tasks one after the other in the order of [posts], the schedule
  of [pLimit(1)]; each task reads and writes only its own post's
  slots.  A task that rejects settles [Promise.all] with its error,
  and the tasks queued behind it run all the same: the state is the
  one the last task leaves, the error the first one thrown. *)
Fixpoint runTasks (retries : Z) (posts : list LoadedPost) (st : GenState St)
  : GenState St * option string :=
  match posts with
  | [] => (st, None)
  | post :: rest =>
      let '(st', thrown) := processPost retries post st in
      let '(st'', later) := runTasks retries rest st' in
      (st'',
       match thrown with
       | Some message => Some message
       | None => later
       end)
  end.

Definition generateTags (posts : list LoadedPost) (s0 : St)
  : GenState St * option string :=
  let st0 :=
    {| results := JsMap.empty; merges := JsMap.empty;
       historicalTagsMap :=
         JsObject.fromEntries
           (JsObject.entries
              (match historicalTags options with
               | Some h => h
               | None => JsObject.empty
               end));
       sleeps := []; calls := 0; caller := s0 |} in
  if negb (JsString.truthy (apiKey config)) then
    (st0, Some "TAG_SYNC_API_KEY is not set. 请在 .env 中配置有效的接口密钥。")
  else
    let retries := match retries options with Some n => n | None => 2%Z end in
    runTasks retries posts st0.

End Task.
End WithHost.
End Llm.

(* ================================================================== *)
(** ** [index.ts] and [writer.ts] *)

Module Index.

Record CliOptions : Type := {
    full : option bool
}.

Record SyncStatistics : Type := {
    totalPosts : nat;
    processedPosts : nat;
    skippedPosts : nat;
    llmCalls : nat;
    llmFailures : nat;
    totalTags : nat;
    totalNewTags : nat
}.

(** The variables of [runGenerate] its closures share, and the file:
    [fileWrites] lists the values [JSON.stringify] was given for
    [tags.json], in the order they were written ([JSON.stringify] prints
    the keys in the object's own-property order); [writeChain] is the
    rejection of the promise chain, once a write has failed;
    [writeCalls] counts the writes tried. *)
Record RunState : Type := {
    tagsMap : TagsMap;
    fileWrites : list TagsMap;
    writeChain : option string;
    writeCalls : nat
}.

Inductive RunOutcome : Type :=
  | NoPosts                            (* 'No posts found': early return *)
  | Finished (stats : SyncStatistics)
  | Rejected (message : string).

Section WithHost.
Context {host : Host}.

Definition sortTagsMap (map : TagsMap) : TagsMap :=
  JsObject.fromEntries
    (arraySort (fun a b => localeCompare "en-US" (fst a) (fst b))
               (JsObject.entries map)).

Definition buildStatistics (postsCount : nat) (merges : JsMap.t MergeResult)
           (responses : JsMap.t LlmResponse) : SyncStatistics :=
  let step (acc : SyncStatistics) (e : string * MergeResult) :=
    let '(path, merge) := e in
    let response := JsMap.get path responses in
    {| totalPosts := postsCount;
       processedPosts := processedPosts acc + 1;
       skippedPosts := 0;
       llmCalls :=
         match response with Some _ => llmCalls acc + 1 | None => llmCalls acc end;
       llmFailures :=
         match response with
         | Some r =>
             match resp_error r with
             | Some _ => llmFailures acc + 1
             | None => llmFailures acc
             end
         | None => llmFailures acc
         end;
       totalTags := totalTags acc + List.length (tags merge);
       totalNewTags := totalNewTags acc + List.length (added merge) |} in
  let sums :=
    fold_left step merges
      {| totalPosts := postsCount; processedPosts := 0; skippedPosts := 0;
         llmCalls := 0; llmFailures := 0; totalTags := 0; totalNewTags := 0 |} in
  {| totalPosts := postsCount;
     processedPosts := processedPosts sums;
     skippedPosts := postsCount - processedPosts sums;
     llmCalls := llmCalls sums;
     llmFailures := llmFailures sums;
     totalTags := totalTags sums;
     totalNewTags := totalNewTags sums |}.

Section Run.
Variable config : TagSyncConfig.
(** The disk: the error the n-th write of [tags.json] rejects with. *)
Variable writeFails : nat -> option string.

(** [fs.mkdir] and [fs.writeFile] of [writeTagsSnapshot] and
  [writeTagsFile]. *)
Definition writeJson (value : TagsMap) (st : RunState)
  : RunState * option string :=
  match writeFails (writeCalls st) with
  | Some message =>
      ({| tagsMap := tagsMap st; fileWrites := fileWrites st;
          writeChain := writeChain st; writeCalls := S (writeCalls st) |},
       Some message)
  | None =>
      ({| tagsMap := tagsMap st; fileWrites := fileWrites st ++ [value];
          writeChain := writeChain st; writeCalls := S (writeCalls st) |},
       None)
  end.

(** [await scheduleWrite(reason)]: the write is chained on [writeChain]
  and takes its snapshot when it runs; on a chain that has rejected
  it does not run. *)
Definition scheduleWrite (st : RunState) : RunState * option string :=
  match writeChain st with
  | Some message => (st, Some message)
  | None =>
      let snapshot := sortTagsMap (tagsMap st) in
      match writeJson snapshot st with
      | (st', Some message) =>
          ({| tagsMap := tagsMap st'; fileWrites := fileWrites st';
              writeChain := Some message; writeCalls := writeCalls st' |},
           Some message)
      | (st', None) => (st', None)
      end
  end.

(** The [onPostProcessed] closure of [runGenerate]. *)
Definition onPostProcessed : Llm.Callback RunState :=
  fun post merge st =>
    let st1 :=
      {| tagsMap := JsObject.set (relativePath post) (tags merge) (tagsMap st);
         fileWrites := fileWrites st; writeChain := writeChain st;
         writeCalls := writeCalls st |} in
    if negb (dryRun config) then scheduleWrite st1 else (st1, None).

Definition filterApplied : bool :=
  JsString.truthy (filter config)
  && JsString.truthy (JsString.trim (filter config)).

(** The pruning block of [runGenerate]: [processedPaths] is a [Set]. *)
Definition pruneAbsent (posts : list LoadedPost) (tagsMap : TagsMap)
  : TagsMap :=
  let processedPaths := map relativePath posts in
  if negb filterApplied then
    fold_left
      (fun o key =>
         if negb (JsString.mem key processedPaths) then JsObject.delete key o
         else o)
      (JsObject.keys tagsMap) tagsMap
  else tagsMap.

(** [writeTagsFile]: the diff against the file is only logged; under
  [dryRun] nothing is written. *)
Definition writeTagsFile (value : TagsMap) (st : RunState)
  : RunState * option string :=
  if dryRun config then (st, None) else writeJson value st.

Definition withTagsMap (m : TagsMap) (st : RunState) : RunState :=
  {| tagsMap := m; fileWrites := fileWrites st;
     writeChain := writeChain st; writeCalls := writeCalls st |}.

(** [runGenerate]: [posts] is what [loadPosts] returned, [historicalTags]
  what [readTagsFile] returned. *)
Definition runGenerate (args : CliOptions) (posts : list LoadedPost)
           (historicalTags : TagsMap) (fetch : string -> Z -> Llm.FetchOutcome)
  : RunState * RunOutcome :=
  let st0 :=
    {| tagsMap := JsObject.fromEntries (JsObject.entries historicalTags);
       fileWrites := []; writeChain := None; writeCalls := 0 |} in
  match posts with
  | [] => (st0, NoPosts)
  | _ :: _ =>
      let forceFull := match full args with Some b => b | None => false end in
      let postsToProcess :=
        if forceFull then posts
        else List.filter
               (fun post =>
                  negb (JsObject.has (relativePath post) historicalTags))
               posts in
      let '(gen, thrown) :=
        match postsToProcess with
        | _ :: _ =>
            Llm.generateTags config
              {| Llm.retries := None;
                 Llm.historicalTags := Some historicalTags;
                 Llm.onPostProcessed := Some onPostProcessed |}
              fetch postsToProcess st0
        | [] =>
            ({| Llm.results := JsMap.empty; Llm.merges := JsMap.empty;
                Llm.historicalTagsMap := JsObject.empty;
                Llm.sleeps := []; Llm.calls := 0; Llm.caller := st0 |},
             None)
        end in
      let st1 := Llm.caller gen in
      match thrown with
      | Some message => (st1, Rejected message)
      | None =>
          match writeChain st1 with
          | Some message => (st1, Rejected message)
          | None =>
              let st2 := withTagsMap (pruneAbsent posts (tagsMap st1)) st1 in
              let sortedTagsMap := sortTagsMap (tagsMap st2) in
              let '(st3, failed) :=
                match postsToProcess with
                | [] => writeTagsFile sortedTagsMap st2
                | _ :: _ =>
                    if dryRun config then writeTagsFile sortedTagsMap st2
                    else scheduleWrite st2
                end in
              match failed with
              | Some message => (st3, Rejected message)
              | None =>
                  (st3,
                   Finished
                     (buildStatistics (List.length postsToProcess)
                                      (Llm.merges gen) (Llm.results gen)))
              end
          end
      end
  end.

End Run.
End WithHost.
End Index.

(* ================================================================== *)
(** ** The specification's words, as definitions of their own *)

Module Spec.

(** Cut a scanned text at every byte of a separator: the first piece
    and the pieces after it (empty pieces between adjacent separator
    bytes). *)
Fixpoint cut (l : list (ascii * bool)) : list ascii * list (list ascii) :=
  match l with
  | [] => ([], [])
  | u :: r =>
      let '(w, ws) := cut r in
      if Taxonomy.isTagSeparator u then ([], w :: ws) else (fst u :: w, ws)
  end.

Definition nonEmpty (w : list ascii) : bool :=
  match w with [] => false | _ => true end.

(** The words of a tag: its maximal runs of bytes that belong to no
    white space, underscore or slash. *)
Definition words (l : list (ascii * bool)) : list (list ascii) :=
  let '(w, ws) := cut l in List.filter nonEmpty (w :: ws).

Definition tagWords (l : list ascii) : list (list ascii) :=
  words (JsString.scan l).

(** The words joined by single spaces. *)
Fixpoint unwords (ws : list (list ascii)) : list ascii :=
  match ws with
  | [] => []
  | w :: rest =>
      w ++ match rest with
           | [] => []
           | _ => JsString.space :: unwords rest
           end
  end.

(** "Collapse internal whitespace/underscore/slash runs to single spaces,
    trim". *)
Definition normalized (tag : string) : string :=
  string_of_list_ascii (unwords (tagWords (list_ascii_of_string tag))).

(** The words of a tag with case folded: what two tags that differ only
    by case or separator style have in common. *)
Definition foldedWords {host : Host} (tag : string) : list string :=
  map (fun word => toLowerCase (string_of_list_ascii word))
      (tagWords (list_ascii_of_string tag)).

(** The case-insensitive key of a tag. *)
Definition tagKey {host : Host} (tag : string) : string :=
  toLowerCase (Taxonomy.normalizeTag tag).

(** "Ordered union, first case-insensitive occurrence wins for casing and
    position": walk the tags in order and keep the normalised form of
    each one whose key has not been seen; empty tags are no tags.
    [norm] is the normalisation in use. *)
Fixpoint orderedUnionFrom {host : Host} (norm : string -> string)
         (seenKeys : list string)
         (tags : list string) : list string :=
  match tags with
  | [] => []
  | tag :: rest =>
      let n := norm tag in
      let key := toLowerCase n in
      if (n =? "") || JsString.mem key seenKeys
      then orderedUnionFrom norm seenKeys rest
      else n :: orderedUnionFrom norm (key :: seenKeys) rest
  end.

Definition orderedUnion {host : Host} (tags : list string) : list string :=
  orderedUnionFrom Taxonomy.normalizeTag [] tags.

(** The order a collation puts strings in. *)
Definition localeLe {host : Host} (locale : string) (a b : string) : Prop :=
  (localeCompare locale a b <= 0)%Z.

(** A taxonomy rule matches a tag: its [includes] holds an entry with the
    tag's key, or its non-empty pattern compiles and matches the tag as
    it stands. *)
Definition includesKey {host : Host} (rule : TaxonomyRule) (tag : string)
  : Prop :=
  exists candidate,
    In candidate (match includes rule with Some l => l | None => [] end)
    /\ tagKey candidate = tagKey tag.

Definition patternMatches {host : Host} (rule : TaxonomyRule) (tag : string)
  : Prop :=
  exists p,
    pattern rule = Some p /\ JsString.truthy p = true
    /\ regExpTest p "i" tag = Some true.

Definition ruleMatches {host : Host} (rule : TaxonomyRule) (tag : string)
  : Prop :=
  includesKey rule tag \/ patternMatches rule tag.

(** "Contains the tag, case-insensitive exact match". *)
Definition includesIgnoringCase {host : Host} (rule : TaxonomyRule)
           (tag : string) : bool :=
  existsb
    (fun candidate =>
       toLowerCase candidate =? toLowerCase tag)
    (match includes rule with Some l => l | None => [] end).

End Spec.

(* ================================================================== *)
(** ** A host to run the examples on

    Lower-casing of the letters A to Z and of no other; collation by
    bytes (on strings of digits, and on strings of upper-case letters, the
    order ICU gives too); regular expressions that
    are plain words, searched for without regard to case, anything else
    refused as a syntax error (as [new RegExp] refuses an unbalanced
    parenthesis); JSON arrays of string literals without escapes; POSIX
    paths. *)

Module ExampleHost.

Definition compareUnits (locale a b : string) : Z :=
  match String_as_OT.compare a b with
  | Lt => (-1)%Z
  | Eq => 0%Z
  | Gt => 1%Z
  end.

Fixpoint startsWith (p l : list ascii) : bool :=
  match p, l with
  | [], _ => true
  | _ :: _, [] => false
  | a :: p', b :: l' => Ascii.eqb a b && startsWith p' l'
  end.

Fixpoint contains (p l : list ascii) : bool :=
  startsWith p l
  || match l with
     | [] => false
     | _ :: r => contains p r
     end.

Definition isWordUnit (c : ascii) : bool :=
  let n := nat_of_ascii c in
  (((48 <=? n) && (n <=? 57)) || ((65 <=? n) && (n <=? 90))
   || ((97 <=? n) && (n <=? 122)) || (n =? 32))%nat.

(** Lower case for the letters A to Z and no others. *)
Definition lowerChar : ascii -> ascii := JsString.lowerAsciiChar.

Definition lowerUnits : string -> string := JsString.lowerAscii.

Definition wordRegExp (pattern flags input : string) : option bool :=
  let p := list_ascii_of_string pattern in
  if forallb isWordUnit p then
    Some (contains (map lowerChar p)
                   (map lowerChar (list_ascii_of_string input)))
  else None.

Inductive ParseState : Type :=
  | PStart | POpen | PString (cur : list ascii) | PItem | PComma | PDone.

Definition quote : ascii := ascii_of_nat 34.
Definition backslash : ascii := ascii_of_nat 92.

Definition isJsonSpace (c : ascii) : bool :=
  let n := nat_of_ascii c in
  ((n =? 32) || (n =? 9) || (n =? 10) || (n =? 13))%nat.

Fixpoint parseArray (st : ParseState) (items : list string) (l : list ascii)
  : option (list string) :=
  match l with
  | [] => match st with PDone => Some (rev items) | _ => None end
  | c :: r =>
      match st with
      | PStart =>
          if isJsonSpace c then parseArray PStart items r
          else if Ascii.eqb c "["%char then parseArray POpen items r
          else None
      | POpen =>
          if isJsonSpace c then parseArray POpen items r
          else if Ascii.eqb c "]"%char then parseArray PDone items r
          else if Ascii.eqb c quote then parseArray (PString []) items r
          else None
      | PString cur =>
          if Ascii.eqb c quote
          then parseArray PItem (string_of_list_ascii (rev cur) :: items) r
          else if Ascii.eqb c backslash then None
          else parseArray (PString (c :: cur)) items r
      | PItem =>
          if isJsonSpace c then parseArray PItem items r
          else if Ascii.eqb c ","%char then parseArray PComma items r
          else if Ascii.eqb c "]"%char then parseArray PDone items r
          else None
      | PComma =>
          if isJsonSpace c then parseArray PComma items r
          else if Ascii.eqb c quote then parseArray (PString []) items r
          else None
      | PDone =>
          if isJsonSpace c then parseArray PDone items r else None
      end
  end.

Definition parseStringArray (text : string) : option (list string) :=
  parseArray PStart [] (list_ascii_of_string text).

Definition resolve (root relative : string) : string :=
  root ++ "/" ++ relative.

Lemma compare_lt (a b : string) :
  String_as_OT.lt a b -> String_as_OT.compare a b = Lt.
Proof. intro H. exact H. Qed.

Lemma compare_refl (a : string) : String_as_OT.compare a a = Eq.
Proof.
  destruct (String_as_OT.compare_spec a a) as [_ | H | H]; try reflexivity;
    exfalso; exact (StrictOrder_Irreflexive a H).
Qed.

Lemma compareUnits_total :
  forall locale a b,
    (0 < compareUnits locale a b)%Z -> (compareUnits locale b a <= 0)%Z.
Proof.
  intros locale a b. unfold compareUnits.
  destruct (String_as_OT.compare_spec a b) as [E | L | G]; try lia.
  intros _. rewrite (compare_lt _ _ G). lia.
Qed.

Lemma compareUnits_trans :
  forall locale a b c,
    (compareUnits locale a b <= 0)%Z -> (compareUnits locale b c <= 0)%Z ->
    (compareUnits locale a c <= 0)%Z.
Proof.
  intros locale a b c. unfold compareUnits.
  destruct (String_as_OT.compare_spec a b) as [E1 | L1 | G1]; try lia;
    destruct (String_as_OT.compare_spec b c) as [E2 | L2 | G2]; try lia;
    intros _ _; unfold String_as_OT.eq in *.
  - subst. rewrite compare_refl. lia.
  - subst. rewrite (compare_lt _ _ L2). lia.
  - subst. rewrite (compare_lt _ _ L1). lia.
  - rewrite (compare_lt a c); [lia |].
    exact (StrictOrder_Transitive a b c L1 L2).
Qed.

Lemma lowerChar_delimiter (c d : ascii) :
  JsString.isDelimiter d = true -> lowerChar c = d -> c = d.
Proof.
  unfold JsString.isDelimiter, lowerChar. intros Hd E.
  apply orb_true_iff in Hd. destruct Hd as [Hd|Hd];
    apply Ascii.eqb_eq in Hd; subst d;
    destruct c as [[] [] [] [] [] [] [] []]; try reflexivity;
    discriminate E.
Qed.

Lemma lowerUnits_empty : forall s, lowerUnits s = "" <-> s = "".
Proof.
  intros s. unfold lowerUnits, JsString.lowerAscii.
  destruct s; simpl; split; intros H; try reflexivity; discriminate H.
Qed.

Lemma chars_append (a b : string) :
  list_ascii_of_string (a ++ b)
  = (list_ascii_of_string a ++ list_ascii_of_string b)%list.
Proof. induction a as [|c a IH]; simpl; [|rewrite IH]; reflexivity. Qed.

Lemma string_app_nil (s : string) : (s ++ "")%string = s.
Proof. induction s as [|c s IH]; simpl; [|rewrite IH]; reflexivity. Qed.

Lemma string_of_app (l m : list ascii) :
  string_of_list_ascii (l ++ m)
  = (string_of_list_ascii l ++ string_of_list_ascii m)%string.
Proof. induction l as [|c l IH]; simpl; [|rewrite IH]; reflexivity. Qed.

Lemma lowerUnits_delimiter :
  forall (a b : string) (c : ascii),
    JsString.isDelimiter c = true ->
    lowerUnits (a ++ String c b)
    = (lowerUnits a ++ String c (lowerUnits b))%string.
Proof.
  intros a b c Hc. unfold lowerUnits, JsString.lowerAscii.
  rewrite chars_append, map_app, string_of_app. f_equal.
  simpl. f_equal.
  unfold JsString.isDelimiter in Hc.
  apply orb_true_iff in Hc. destruct Hc as [Hc|Hc];
    apply Ascii.eqb_eq in Hc; subst c; reflexivity.
Qed.

Lemma lowerUnits_keeps_delimiters :
  forall (s : string) (c : ascii),
    JsString.isDelimiter c = true ->
    In c (list_ascii_of_string (lowerUnits s)) ->
    In c (list_ascii_of_string s).
Proof.
  intros s c Hc. unfold lowerUnits, JsString.lowerAscii.
  rewrite list_ascii_of_string_of_list_ascii, in_map_iff.
  intros [x [Hx Hin]].
  rewrite <- (lowerChar_delimiter x c Hc Hx). exact Hin.
Qed.

#[export] Instance host : Host := {|
    toLowerCase := lowerUnits;
    toLowerCase_ascii := fun s _ => eq_refl;
    toLowerCase_empty := lowerUnits_empty;
    toLowerCase_delimiter := lowerUnits_delimiter;
    toLowerCase_keeps_delimiters := lowerUnits_keeps_delimiters;
    localeCompare := compareUnits;
    localeCompare_total := compareUnits_total;
    localeCompare_trans := compareUnits_trans;
    regExpTest := wordRegExp;
    jsonParseArray := parseStringArray;
    pathSep := "/"%char;
    pathResolve := resolve
  |}.

End ExampleHost.

(* ================================================================== *)
(** ** Facts about the string built-ins *)

Module StringFacts.
Import JsString.

Arguments whiteLength : simpl never.

(** *** The scan *)

(** The bytes that continue a character of several bytes. *)
Definition isCont (c : ascii) : bool :=
  let n := nat_of_ascii c in ((128 <=? n) && (n <? 192))%nat.

(** The continuation bytes a text starts with, [k] at most. *)
Fixpoint takeCont (k : nat) (l : list ascii) : list ascii :=
  match k, l with
  | S k', c :: r => if isCont c then c :: takeCont k' r else []
  | _, _ => []
  end.

(** A text that is empty or starts with a byte that starts a character. *)
Definition boundary (l : list ascii) : Prop :=
  match l with
  | [] => True
  | c :: _ => isCont c = false
  end.

(** A byte read on its own. *)
Definition alone (c : ascii) : ascii * bool := (c, isAsciiWhiteSpace c).

(** No byte of ASCII white space goes unmarked. *)
Definition okUnit (u : ascii * bool) : Prop :=
  isWhiteSpace u = false -> isAsciiWhiteSpace (fst u) = false.

(** The mark [scanFrom] gives the first byte, and the bytes pending after
    it. *)
Definition markAt (n : nat) (l : list ascii) : bool :=
  match n with
  | S _ => true
  | O => match whiteLength l with S _ => true | O => false end
  end.

Definition nextPending (n : nat) (l : list ascii) : nat :=
  match n with
  | S n' => n'
  | O => pred (whiteLength l)
  end.

Lemma asciiWhite_start (c : ascii) :
  isAsciiWhiteSpace c = true -> isCont c = false.
Proof.
  intros H. destruct c as [[] [] [] [] [] [] [] []];
    try reflexivity; discriminate H.
Qed.

Lemma white2_start (a b : ascii) :
  isWhiteSpace2 a b = true -> isCont a = false /\ isCont b = true.
Proof.
  unfold isWhiteSpace2, isCont. cbv zeta. intros H.
  apply andb_true_iff in H. destruct H as [Ha Hb].
  apply Nat.eqb_eq in Ha, Hb. rewrite Ha, Hb. split; reflexivity.
Qed.

Lemma white3_start (a b c : ascii) :
  isWhiteSpace3 a b c = true ->
  isCont a = false /\ isCont b = true /\ isCont c = true.
Proof.
  unfold isWhiteSpace3, isCont. cbv zeta.
  generalize (nat_of_ascii a) (nat_of_ascii b) (nat_of_ascii c).
  intros x y z H.
  repeat rewrite ?orb_true_iff, ?andb_true_iff in H.
  rewrite !Nat.eqb_eq, !Nat.leb_le in H.
  rewrite andb_false_iff, !andb_true_iff, Nat.leb_gt, Nat.ltb_ge,
    !Nat.leb_le, !Nat.ltb_lt.
  lia.
Qed.

Lemma whiteLength_cons (a : ascii) (r : list ascii) :
  whiteLength (a :: r)
  = if isAsciiWhiteSpace a then 1
    else match r with
         | [] => 0
         | b :: r' =>
             if isWhiteSpace2 a b then 2
             else match r' with
                  | [] => 0
                  | c :: _ => if isWhiteSpace3 a b c then 3 else 0
                  end
         end.
Proof. reflexivity. Qed.

(** A white-space character is recognised by its first byte and the
    continuation bytes behind it. *)
Lemma whiteLength_window (a : ascii) (r : list ascii) :
  whiteLength (a :: r) = whiteLength (a :: takeCont 2 r).
Proof.
  rewrite !whiteLength_cons.
  destruct (isAsciiWhiteSpace a); [reflexivity|].
  destruct r as [|b r']; [reflexivity|]. cbn [takeCont].
  destruct (isCont b) eqn:Hb.
  - destruct (isWhiteSpace2 a b); [reflexivity|].
    destruct r' as [|c r'']; [reflexivity|]. cbn [takeCont].
    destruct (isCont c) eqn:Hc; [reflexivity|].
    destruct (isWhiteSpace3 a b c) eqn:H3; [|reflexivity].
    apply white3_start in H3. destruct H3 as [_ [_ H3]]. congruence.
  - destruct (isWhiteSpace2 a b) eqn:H2.
    + apply white2_start in H2. destruct H2 as [_ H2]. congruence.
    + destruct r' as [|c r'']; [reflexivity|].
      destruct (isWhiteSpace3 a b c) eqn:H3; [|reflexivity].
      apply white3_start in H3. destruct H3 as [_ [H3 _]]. congruence.
Qed.

Lemma whiteLength_start (a : ascii) (r : list ascii) :
  whiteLength (a :: r) <> 0 -> isCont a = false.
Proof.
  rewrite whiteLength_cons.
  destruct (isAsciiWhiteSpace a) eqn:H1; [intros _; apply asciiWhite_start, H1|].
  destruct r as [|b r']; [congruence|].
  destruct (isWhiteSpace2 a b) eqn:H2;
    [intros _; apply (white2_start a b H2)|].
  destruct r' as [|c r'']; [congruence|].
  destruct (isWhiteSpace3 a b c) eqn:H3; [|congruence].
  intros _. apply (white3_start a b c H3).
Qed.

Lemma whiteLength_none (a : ascii) (r : list ascii) :
  whiteLength (a :: r) = 0 -> isAsciiWhiteSpace a = false.
Proof.
  rewrite whiteLength_cons.
  destruct (isAsciiWhiteSpace a); [discriminate | reflexivity].
Qed.

Lemma whiteLength_alone (a : ascii) :
  isAsciiWhiteSpace a = false -> whiteLength [a] = 0.
Proof. intros H. rewrite whiteLength_cons, H. reflexivity. Qed.

Lemma takeCont_app (x y : list ascii) (k : nat) :
  boundary y -> takeCont k (x ++ y) = takeCont k x.
Proof.
  intros Hy. revert k. induction x as [|c x IH]; intros k.
  - destruct k, y as [|t y]; try reflexivity.
    simpl in *. rewrite Hy. reflexivity.
  - destruct k; [reflexivity|]. simpl.
    rewrite IH. reflexivity.
Qed.

Lemma whiteLength_app (a : ascii) (x y : list ascii) :
  boundary y -> whiteLength (a :: x ++ y) = whiteLength (a :: x).
Proof.
  intros Hy.
  rewrite whiteLength_window, (takeCont_app x y 2 Hy), <- whiteLength_window.
  reflexivity.
Qed.

Lemma scanFrom_cons (n : nat) (c : ascii) (r : list ascii) :
  scanFrom n (c :: r)
  = (c, markAt n (c :: r)) :: scanFrom (nextPending n (c :: r)) r.
Proof.
  destruct n; [|reflexivity].
  cbn [scanFrom markAt nextPending].
  destruct (whiteLength (c :: r)); reflexivity.
Qed.

Lemma unmarked (n : nat) (l : list ascii) :
  markAt n l = false ->
  n = 0 /\ whiteLength l = 0 /\ nextPending n l = 0.
Proof.
  destruct n; [|discriminate]. unfold markAt, nextPending.
  destruct (whiteLength l); [|discriminate].
  intros _. repeat split.
Qed.

Lemma marked_start (c : ascii) (r : list ascii) :
  markAt 0 (c :: r) = true -> isCont c = false.
Proof.
  unfold markAt. intros H. apply (whiteLength_start c r).
  destruct (whiteLength (c :: r)); [discriminate | discriminate].
Qed.

Lemma scanFrom_bytes (l : list ascii) (n : nat) :
  map fst (scanFrom n l) = l.
Proof.
  revert n. induction l as [|c r IH]; intros n; [reflexivity|].
  rewrite scanFrom_cons. simpl. rewrite IH. reflexivity.
Qed.

Lemma scanFrom_ok (l : list ascii) (n : nat) : Forall okUnit (scanFrom n l).
Proof.
  revert n. induction l as [|c r IH]; intros n; [constructor|].
  rewrite scanFrom_cons. constructor; [|apply IH].
  intros Hm. simpl in Hm. apply unmarked in Hm.
  destruct Hm as [_ [Hm _]]. exact (whiteLength_none c r Hm).
Qed.

Lemma alone_bytes (l : list ascii) : map fst (map alone l) = l.
Proof. rewrite map_map. apply map_id. Qed.

Lemma scan_space (l : list ascii) : scan (space :: l) = alone space :: scan l.
Proof. reflexivity. Qed.

Lemma whitespace_separator (u : ascii * bool) :
  isWhiteSpace u = true -> Taxonomy.isTagSeparator u = true.
Proof.
  intro H. unfold Taxonomy.isTagSeparator. rewrite H. reflexivity.
Qed.

Lemma not_separator_not_whitespace (u : ascii * bool) :
  Taxonomy.isTagSeparator u = false -> isWhiteSpace u = false.
Proof.
  intro H. destruct (isWhiteSpace u) eqn:E; [|reflexivity].
  apply whitespace_separator in E. congruence.
Qed.

(** A byte of a character that is no separator is none on its own. *)
Lemma not_separator_alone (u : ascii * bool) :
  okUnit u -> Taxonomy.isTagSeparator u = false ->
  Taxonomy.isTagSeparator (alone (fst u)) = false.
Proof.
  intros Hok H. pose proof (not_separator_not_whitespace u H) as Hw.
  unfold Taxonomy.isTagSeparator in *. rewrite Hw in H.
  cbn [alone fst isWhiteSpace snd]. rewrite (Hok Hw). exact H.
Qed.

Lemma separator_start (c : ascii) (r : list ascii) :
  Taxonomy.isTagSeparator (c, markAt 0 (c :: r)) = true -> isCont c = false.
Proof.
  unfold Taxonomy.isTagSeparator. cbn [isWhiteSpace fst snd]. intros H.
  destruct (markAt 0 (c :: r)) eqn:Hm; [exact (marked_start c r Hm)|].
  apply orb_true_iff in H.
  destruct H as [H|H]; apply Ascii.eqb_eq in H; subst c; reflexivity.
Qed.

(** The text a replacement writes keeps the continuation bytes the text
    it reads starts with. *)
Lemma takeCont_collapse (r : list ascii) (k : nat) :
  takeCont k (collapseRuns Taxonomy.isTagSeparator false (scanFrom 0 r))
  = takeCont k r.
Proof.
  revert k. induction r as [|x r IH]; intros k; [reflexivity|].
  rewrite scanFrom_cons. cbn [collapseRuns].
  destruct (Taxonomy.isTagSeparator (x, markAt 0 (x :: r))) eqn:Hs.
  - pose proof (separator_start x r Hs) as Hx.
    destruct k; [reflexivity|]. cbn [takeCont]. rewrite Hx. reflexivity.
  - pose proof (not_separator_not_whitespace _ Hs) as Hm.
    cbn [isWhiteSpace snd] in Hm. apply unmarked in Hm.
    destruct Hm as [_ [_ Hn]]. rewrite Hn. cbn [fst].
    destruct k; [reflexivity|]. cbn [takeCont]. rewrite IH. reflexivity.
Qed.

(** In the text the first replacement of [normalizeTag] writes, the white
    space is its spaces. *)
Lemma scan_collapsed (l : list ascii) (n : nat) (b : bool) :
  scan (collapseRuns Taxonomy.isTagSeparator b (scanFrom n l))
  = map alone (collapseRuns Taxonomy.isTagSeparator b (scanFrom n l)).
Proof.
  revert n b. induction l as [|c r IH]; intros n b; [reflexivity|].
  rewrite scanFrom_cons. cbn [collapseRuns].
  destruct (Taxonomy.isTagSeparator (c, markAt n (c :: r))) eqn:Hs.
  - destruct b; [apply IH|].
    rewrite scan_space. cbn [map]. f_equal. apply IH.
  - pose proof (not_separator_not_whitespace _ Hs) as Hm.
    cbn [isWhiteSpace snd] in Hm. apply unmarked in Hm.
    destruct Hm as [-> [Hw Hn]]. rewrite Hn. cbn [fst map].
    unfold scan. rewrite scanFrom_cons.
    assert (Hw' : whiteLength
                    (c :: collapseRuns Taxonomy.isTagSeparator false
                            (scanFrom 0 r)) = 0).
    { rewrite whiteLength_window, takeCont_collapse, <- whiteLength_window.
      exact Hw. }
    unfold markAt, nextPending. rewrite Hw'. cbn [pred].
    unfold alone at 1. rewrite (whiteLength_none c r Hw).
    f_equal. apply IH.
Qed.

(** [trimEnd] and [trimStart] keep a scanned text a scanned text. *)
Lemma trimEnd_nil (m : list (ascii * bool)) :
  trimEndUnits m = [] -> Forall (fun u => isWhiteSpace u = true) m.
Proof.
  induction m as [|u r IH]; intros H; [constructor|].
  cbn [trimEndUnits] in H.
  destruct (trimEndUnits r) eqn:E; [|discriminate H].
  destruct (isWhiteSpace u) eqn:Hu; [|discriminate H].
  constructor; [exact Hu | apply IH; reflexivity].
Qed.

Lemma markAt_window (n : nat) (l1 l2 : list ascii) :
  whiteLength l1 = whiteLength l2 ->
  markAt n l1 = markAt n l2 /\ nextPending n l1 = nextPending n l2.
Proof. intros H. unfold markAt, nextPending. rewrite H. split; reflexivity. Qed.

Lemma trimEnd_scan (l : list ascii) (n : nat) :
  exists x y,
    l = x ++ y /\ trimEndUnits (scanFrom n l) = scanFrom n x
    /\ (x = [] \/ boundary y).
Proof.
  revert n. induction l as [|c r IH]; intros n.
  - exists [], []. repeat split. left. reflexivity.
  - rewrite scanFrom_cons. cbn [trimEndUnits].
    destruct (IH (nextPending n (c :: r))) as [x [y [Hr [Ht Hb]]]].
    rewrite Ht. destruct x as [|d x].
    + cbn [scanFrom isWhiteSpace snd].
      destruct (markAt n (c :: r)) eqn:Hm.
      * exists [], (c :: r). repeat split. left. reflexivity.
      * apply unmarked in Hm. destruct Hm as [-> [Hw Hn]].
        exists [c], r. split; [reflexivity|]. split.
        -- rewrite scanFrom_cons. unfold markAt.
           rewrite (whiteLength_alone c (whiteLength_none c r Hw)).
           reflexivity.
        -- right. rewrite Hn in Ht. cbn [scanFrom] in Ht.
           apply trimEnd_nil in Ht. destruct r as [|t r']; [exact I|].
           rewrite scanFrom_cons in Ht. inversion Ht as [|? ? Ht1 _]; subst.
           exact (marked_start t r' Ht1).
    + exists (c :: d :: x), y. split; [rewrite Hr; reflexivity|].
      destruct Hb as [Hb|Hb]; [discriminate Hb|].
      split; [|right; exact Hb].
      rewrite (scanFrom_cons n c (d :: x)).
      assert (Hw : whiteLength (c :: r) = whiteLength (c :: d :: x)).
      { rewrite Hr. apply (whiteLength_app c (d :: x) y Hb). }
      destruct (markAt_window n _ _ Hw) as [-> ->].
      destruct (scanFrom (nextPending n (c :: d :: x)) (d :: x)) eqn:E;
        [|reflexivity].
      rewrite scanFrom_cons in E. discriminate E.
Qed.

Lemma trimStart_scan (l : list ascii) (n : nat) :
  exists x, trimStartUnits (scanFrom n l) = scanFrom 0 x.
Proof.
  revert n. induction l as [|c r IH]; intros n; [exists []; reflexivity|].
  rewrite scanFrom_cons. cbn [trimStartUnits isWhiteSpace snd].
  destruct (markAt n (c :: r)) eqn:Hm; [apply IH|].
  exists (c :: r). rewrite scanFrom_cons.
  destruct (unmarked _ _ Hm) as [-> _]. rewrite Hm. reflexivity.
Qed.

(** Scanning what [trim] returns finds the marks [trim] left. *)
Lemma trimmed_scan (l : list ascii) :
  scan (trimChars l) = trimStartUnits (trimEndUnits (scan l)).
Proof.
  unfold trimChars, scan.
  destruct (trimEnd_scan l 0) as [x [_ [_ [-> _]]]].
  destruct (trimStart_scan x 0) as [x' ->].
  rewrite scanFrom_bytes. reflexivity.
Qed.

(** *** [trim] on a text whose white space is ASCII *)

Fixpoint trimStartChars (l : list ascii) : list ascii :=
  match l with
  | [] => []
  | c :: r => if isAsciiWhiteSpace c then trimStartChars r else l
  end.

Fixpoint trimEndChars (l : list ascii) : list ascii :=
  match l with
  | [] => []
  | c :: r =>
      match trimEndChars r with
      | [] => if isAsciiWhiteSpace c then [] else [c]
      | r' => c :: r'
      end
  end.

Lemma trimStart_alone (l : list ascii) :
  trimStartUnits (map alone l) = map alone (trimStartChars l).
Proof.
  induction l as [|c r IH]; [reflexivity|].
  cbn [map trimStartUnits trimStartChars alone isWhiteSpace snd].
  destruct (isAsciiWhiteSpace c); [exact IH | reflexivity].
Qed.

Lemma trimEnd_alone (l : list ascii) :
  trimEndUnits (map alone l) = map alone (trimEndChars l).
Proof.
  induction l as [|c r IH]; [reflexivity|].
  cbn [map trimEndUnits trimEndChars]. rewrite IH.
  destruct (trimEndChars r); cbn [map alone isWhiteSpace snd];
    [destruct (isAsciiWhiteSpace c)|]; reflexivity.
Qed.

Lemma trimChars_alone (l : list ascii) :
  scan l = map alone l -> trimChars l = trimStartChars (trimEndChars l).
Proof.
  intros H. unfold trimChars.
  rewrite H, trimEnd_alone, trimStart_alone. apply alone_bytes.
Qed.

Lemma onChars_chars (f : list ascii -> list ascii) (s : string) :
  list_ascii_of_string (onChars f s) = f (list_ascii_of_string s).
Proof. unfold onChars. apply list_ascii_of_string_of_list_ascii. Qed.

Lemma string_of_chars_inj (l1 l2 : list ascii) :
  string_of_list_ascii l1 = string_of_list_ascii l2 -> l1 = l2.
Proof.
  intro H.
  rewrite <- (list_ascii_of_string_of_list_ascii l1),
          <- (list_ascii_of_string_of_list_ascii l2), H.
  reflexivity.
Qed.

Lemma chars_inj (s1 s2 : string) :
  list_ascii_of_string s1 = list_ascii_of_string s2 -> s1 = s2.
Proof.
  intro H.
  rewrite <- (string_of_list_ascii_of_string s1),
          <- (string_of_list_ascii_of_string s2), H.
  reflexivity.
Qed.

Lemma truthy_chars (s : string) :
  truthy s = Spec.nonEmpty (list_ascii_of_string s).
Proof. destruct s; reflexivity. Qed.

Lemma truthy_of_chars (l : list ascii) :
  truthy (string_of_list_ascii l) = Spec.nonEmpty l.
Proof. destruct l; reflexivity. Qed.

Lemma truthy_false (s : string) : truthy s = false <-> s = "".
Proof.
  unfold truthy. rewrite negb_false_iff. apply String.eqb_eq.
Qed.

Lemma truthy_true (s : string) : truthy s = true <-> s <> "".
Proof.
  unfold truthy. rewrite negb_true_iff. apply String.eqb_neq.
Qed.

Lemma toLowerCase_truthy {host : Host} (s : string) :
  truthy (toLowerCase s) = truthy s.
Proof.
  destruct (truthy s) eqn:E.
  - apply truthy_true. apply truthy_true in E.
    intros H. apply E. apply toLowerCase_empty. exact H.
  - apply truthy_false. apply truthy_false in E.
    apply toLowerCase_empty. exact E.
Qed.

Lemma mem_In (k : string) (l : list string) : mem k l = true <-> In k l.
Proof.
  unfold mem. rewrite existsb_exists. split.
  - intros [x [Hin Heq]]. apply String.eqb_eq in Heq. subst. exact Hin.
  - intro Hin. exists k. split; [exact Hin | apply String.eqb_refl].
Qed.

Lemma mem_app (k : string) (l1 l2 : list string) :
  mem k (l1 ++ l2) = mem k l1 || mem k l2.
Proof. unfold mem. apply existsb_app. Qed.

(** The second replacement of [normalizeTag] finds nothing to do. *)
Lemma collapse_whitespace_after_separators (m : list (ascii * bool)) :
  Forall okUnit m ->
  (forall b,
      collapseRuns isWhiteSpace false
        (map alone (collapseRuns Taxonomy.isTagSeparator b m))
      = collapseRuns Taxonomy.isTagSeparator b m)
  /\ collapseRuns isWhiteSpace true
       (map alone (collapseRuns Taxonomy.isTagSeparator true m))
     = collapseRuns Taxonomy.isTagSeparator true m.
Proof.
  induction 1 as [|u r Hu _ [IH1 IH2]]; [split; [intros []|]; reflexivity|].
  assert (Hplain :
            Taxonomy.isTagSeparator u = false ->
            isWhiteSpace (alone (fst u)) = false).
  { intros Hc. apply Hu. exact (not_separator_not_whitespace u Hc). }
  split.
  - intros b. cbn [collapseRuns].
    destruct (Taxonomy.isTagSeparator u) eqn:Hc.
    + destruct b; [apply IH1|].
      cbn [map collapseRuns]. change (isWhiteSpace (alone space)) with true.
      cbv iota. rewrite IH2. reflexivity.
    + cbn [map collapseRuns]. rewrite (Hplain eq_refl), IH1. reflexivity.
  - cbn [collapseRuns]. destruct (Taxonomy.isTagSeparator u) eqn:Hc.
    + apply IH2.
    + cbn [map collapseRuns]. rewrite (Hplain eq_refl), IH1. reflexivity.
Qed.

(** [normalizeTag] on the bytes of a tag. *)
Definition normChars (l : list ascii) : list ascii :=
  trimStartChars
    (trimEndChars (collapseRuns Taxonomy.isTagSeparator false (scan l))).

Lemma normalizeTag_chars (tag : string) :
  Taxonomy.normalizeTag tag
  = string_of_list_ascii (normChars (list_ascii_of_string tag)).
Proof.
  unfold Taxonomy.normalizeTag.
  destruct tag as [|c s]; [reflexivity|].
  simpl negb. cbv iota.
  unfold trim, replaceRuns, normChars.
  unfold onChars at 1. rewrite !onChars_chars.
  unfold scan at 2. rewrite scan_collapsed.
  rewrite (proj1 (collapse_whitespace_after_separators _
                    (scanFrom_ok _ 0))).
  rewrite trimChars_alone by apply scan_collapsed.
  reflexivity.
Qed.

(** In a normalised tag the white space is its spaces. *)
Lemma normChars_scan (l : list ascii) :
  scan (normChars l) = map alone (normChars l).
Proof.
  unfold normChars. change (scan l) with (scanFrom 0 l).
  set (o := collapseRuns Taxonomy.isTagSeparator false (scanFrom 0 l)).
  assert (Ho : scan o = map alone o) by apply scan_collapsed.
  rewrite <- (trimChars_alone o Ho), trimmed_scan, Ho.
  rewrite trimEnd_alone, trimStart_alone.
  rewrite (trimChars_alone o Ho). reflexivity.
Qed.

End StringFacts.

(* ================================================================== *)
(** ** [normalizeTag] against the words of a tag *)

Module NormalizeFacts.
Import JsString StringFacts.

(** A byte that is no separator on its own. *)
Definition isSeparatorByte (c : ascii) : bool :=
  Taxonomy.isTagSeparator (alone c).

Definition sepFree (w : list ascii) : Prop :=
  Forall (fun c => isSeparatorByte c = false) w.

Definition goodWord (w : list ascii) : Prop := w <> [] /\ sepFree w.

Definition spaced (ws : list (list ascii)) : list ascii :=
  match ws with
  | [] => []
  | _ => space :: Spec.unwords ws
  end.

(** What [trimEnd] leaves of the collapsed text, in front of the words:
    a space when the text starts inside a separator run. *)
Definition lead (l : list (ascii * bool)) (words : list ascii)
  : list ascii :=
  match l with
  | u :: _ =>
      if Taxonomy.isTagSeparator u
      then match words with [] => [] | _ => space :: words end
      else words
  | [] => words
  end.

Lemma separator_byte_whitespace (c : ascii) :
  isSeparatorByte c = false -> isAsciiWhiteSpace c = false.
Proof. apply (not_separator_not_whitespace (alone c)). Qed.

Lemma unwords_cons (w : list ascii) (rest : list (list ascii)) :
  Spec.unwords (w :: rest) = w ++ spaced rest.
Proof. reflexivity. Qed.

Lemma cut_sepFree (l : list (ascii * bool)) :
  Forall okUnit l ->
  sepFree (fst (Spec.cut l)) /\ Forall sepFree (snd (Spec.cut l)).
Proof.
  induction 1 as [|u r Hu _ [IHw IHws]]; simpl.
  - split; constructor.
  - destruct (Spec.cut r) as [w ws]. simpl in *.
    destruct (Taxonomy.isTagSeparator u) eqn:Hc; simpl.
    + split; [constructor | constructor; assumption].
    + split; [constructor; [|assumption] | assumption].
      exact (not_separator_alone u Hu Hc).
Qed.

Lemma words_good (l : list (ascii * bool)) :
  Forall okUnit l -> Forall goodWord (Spec.words l).
Proof.
  intros Hok. unfold Spec.words.
  destruct (cut_sepFree l Hok) as [Hw Hws].
  destruct (Spec.cut l) as [w ws]. simpl in Hw, Hws.
  apply Forall_forall. intros x Hx.
  apply filter_In in Hx. destruct Hx as [Hin Hne].
  split.
  - destruct x; [discriminate | discriminate].
  - assert (Hall : Forall sepFree (w :: ws)) by (constructor; assumption).
    rewrite Forall_forall in Hall. apply Hall. exact Hin.
Qed.

Lemma tagWords_good (l : list ascii) : Forall goodWord (Spec.tagWords l).
Proof. apply words_good, scanFrom_ok. Qed.

Lemma unwords_nil_iff (ws : list (list ascii)) :
  Forall goodWord ws -> (Spec.unwords ws = [] <-> ws = []).
Proof.
  intros H. split; [|intros ->; reflexivity].
  destruct ws as [|w rest]; [reflexivity|].
  inversion H as [|? ? [Hne _] _]; subst.
  rewrite unwords_cons. destruct w; [congruence | discriminate].
Qed.

Lemma spaced_match (ws : list (list ascii)) :
  Forall goodWord ws ->
  spaced ws
  = match Spec.unwords ws with [] => [] | _ => space :: Spec.unwords ws end.
Proof.
  intros H. destruct ws as [|w rest]; [reflexivity|].
  inversion H as [|? ? [Hne _] _]; subst.
  unfold spaced. rewrite unwords_cons.
  destruct w; [congruence | reflexivity].
Qed.

Lemma words_cons_separator (u : ascii * bool) (r : list (ascii * bool)) :
  Taxonomy.isTagSeparator u = true ->
  Spec.words (u :: r) = Spec.words r.
Proof.
  intros Hc. unfold Spec.words. simpl.
  destruct (Spec.cut r) as [w ws]. rewrite Hc. reflexivity.
Qed.

Lemma joined_cons_unit (u : ascii * bool) (r : list (ascii * bool)) :
  Forall okUnit r ->
  Taxonomy.isTagSeparator u = false ->
  Spec.unwords (Spec.words (u :: r))
  = fst u :: lead r (Spec.unwords (Spec.words r)).
Proof.
  intros Hok Hc.
  pose proof (words_good r Hok) as Hgood.
  unfold Spec.words in *. simpl.
  destruct r as [|d r'].
  - simpl. rewrite Hc. reflexivity.
  - simpl in *. destruct (Spec.cut r') as [w' ws'].
    destruct (Taxonomy.isTagSeparator d) eqn:Hd; rewrite Hc.
    + simpl in *. f_equal. exact (spaced_match _ Hgood).
    + reflexivity.
Qed.

Lemma trimEnd_unit (c : ascii) (y : list ascii) :
  isAsciiWhiteSpace c = false -> trimEndChars (c :: y) = c :: trimEndChars y.
Proof.
  intros Hc. simpl. rewrite Hc. destruct (trimEndChars y); reflexivity.
Qed.

Lemma trimEnd_collapse (l : list (ascii * bool)) :
  Forall okUnit l ->
  trimEndChars (collapseRuns Taxonomy.isTagSeparator true l)
  = Spec.unwords (Spec.words l)
  /\ trimEndChars (collapseRuns Taxonomy.isTagSeparator false l)
     = lead l (Spec.unwords (Spec.words l)).
Proof.
  induction 1 as [|u r Hu Hr [IHt IHf]]; [split; reflexivity|].
  destruct (Taxonomy.isTagSeparator u) eqn:Hc.
  - split.
    + simpl. rewrite Hc. rewrite IHt, words_cons_separator by exact Hc.
      reflexivity.
    + simpl. rewrite Hc. simpl. rewrite IHt.
      rewrite words_cons_separator by exact Hc.
      destruct (Spec.unwords (Spec.words r)); reflexivity.
  - pose proof (Hu (not_separator_not_whitespace u Hc)) as Hw.
    split; simpl collapseRuns; rewrite Hc.
    + rewrite trimEnd_unit by exact Hw.
      rewrite IHf, joined_cons_unit by assumption. reflexivity.
    + rewrite trimEnd_unit by exact Hw.
      rewrite IHf, joined_cons_unit by assumption.
      simpl. rewrite Hc. reflexivity.
Qed.

Lemma joined_head (ws : list (list ascii)) :
  Forall goodWord ws -> trimStartChars (Spec.unwords ws) = Spec.unwords ws.
Proof.
  intros H. destruct ws as [|w rest]; [reflexivity|].
  inversion H as [|? ? [Hne Hfree] _]; subst.
  rewrite unwords_cons. destruct w as [|c w]; [congruence|].
  inversion Hfree; subst. simpl.
  rewrite (separator_byte_whitespace c) by assumption. reflexivity.
Qed.

(** The code's normalisation is "the words joined by single spaces". *)
Lemma normChars_words (l : list ascii) :
  normChars l = Spec.unwords (Spec.tagWords l).
Proof.
  unfold normChars, Spec.tagWords.
  pose proof (scanFrom_ok l 0) as Hok. fold (scan l) in Hok.
  rewrite (proj2 (trimEnd_collapse (scan l) Hok)).
  pose proof (joined_head _ (words_good _ Hok)) as Hhead.
  unfold lead. destruct (scan l) as [|u r]; [exact Hhead|].
  destruct (Taxonomy.isTagSeparator u); [|exact Hhead].
  destruct (Spec.unwords (Spec.words (u :: r))) eqn:E; [reflexivity|].
  change (trimStartChars (space :: a :: l0)) with (trimStartChars (a :: l0)).
  exact Hhead.
Qed.

Lemma normalizeTag_normalized (tag : string) :
  Taxonomy.normalizeTag tag = Spec.normalized tag.
Proof.
  rewrite normalizeTag_chars, normChars_words. reflexivity.
Qed.

Lemma cut_app_word (w : list ascii) (x : list (ascii * bool)) :
  sepFree w ->
  Spec.cut (map alone w ++ x) = (w ++ fst (Spec.cut x), snd (Spec.cut x)).
Proof.
  induction 1 as [|c w Hc Hw IH]; simpl.
  - destruct (Spec.cut x); reflexivity.
  - rewrite IH. unfold isSeparatorByte in Hc. rewrite Hc. reflexivity.
Qed.

(** Splitting the joined words gives the words back. *)
Lemma words_unwords (ws : list (list ascii)) :
  Forall goodWord ws -> Spec.words (map alone (Spec.unwords ws)) = ws.
Proof.
  induction 1 as [|w rest [Hne Hfree] Hrest IH]; [reflexivity|].
  rewrite unwords_cons, map_app. unfold Spec.words.
  rewrite (cut_app_word w _ Hfree).
  destruct rest as [|r1 rest'].
  - simpl. rewrite app_nil_r. destruct w; [congruence | reflexivity].
  - unfold spaced.
    change (Spec.cut (map alone (space :: Spec.unwords (r1 :: rest'))))
      with (let '(w0, ws0) :=
              Spec.cut (map alone (Spec.unwords (r1 :: rest'))) in
            ([] : list ascii, w0 :: ws0)).
    unfold Spec.words in IH.
    destruct (Spec.cut (map alone (Spec.unwords (r1 :: rest'))))
      as [w0 ws0].
    simpl fst. simpl snd. rewrite app_nil_r.
    simpl List.filter at 1.
    destruct w as [|c w]; [congruence|]. simpl Spec.nonEmpty. cbv iota.
    f_equal. exact IH.
Qed.

Lemma normChars_idempotent (l : list ascii) :
  normChars (normChars l) = normChars l.
Proof.
  rewrite (normChars_words (normChars l)).
  unfold Spec.tagWords. rewrite normChars_scan, normChars_words.
  rewrite words_unwords by apply tagWords_good.
  reflexivity.
Qed.

Lemma normalizeTag_idempotent (tag : string) :
  Taxonomy.normalizeTag (Taxonomy.normalizeTag tag) = Taxonomy.normalizeTag tag.
Proof.
  rewrite (normalizeTag_chars (Taxonomy.normalizeTag tag)).
  rewrite (normalizeTag_chars tag).
  rewrite list_ascii_of_string_of_list_ascii, normChars_idempotent.
  reflexivity.
Qed.

(** *** The key: the words in lower case, joined *)

Definition spaceFree (s : string) : Prop :=
  ~ In space (list_ascii_of_string s).

Definition keyWord (s : string) : Prop := s <> "" /\ spaceFree s.

Lemma unwords_strings (ws : list (list ascii)) :
  string_of_list_ascii (Spec.unwords ws)
  = String.concat " " (map string_of_list_ascii ws).
Proof.
  induction ws as [|w rest IH]; [reflexivity|].
  rewrite unwords_cons. rewrite ExampleHost.string_of_app.
  destruct rest as [|r1 rest']; [simpl; apply ExampleHost.string_app_nil|].
  change (spaced (r1 :: rest')) with (space :: Spec.unwords (r1 :: rest')).
  cbn [string_of_list_ascii]. rewrite IH. reflexivity.
Qed.

(** A word, then nothing or a space: where the word ends is determined. *)
Definition afterWord (r : string) : Prop :=
  r = "" \/ exists r', r = String space r'.

Lemma word_prefix (x y r1 r2 : string) :
  spaceFree x -> spaceFree y -> afterWord r1 -> afterWord r2 ->
  (x ++ r1 = y ++ r2)%string -> x = y /\ r1 = r2.
Proof.
  revert y. induction x as [|a x IH]; intros y Hx Hy H1 H2 E.
  - destruct y as [|b y]; [split; [reflexivity | exact E]|].
    exfalso. simpl in E. destruct H1 as [->|[r' ->]]; [discriminate E|].
    injection E as Eb _. apply Hy. left. symmetry. exact Eb.
  - destruct y as [|b y].
    + exfalso. simpl in E. destruct H2 as [->|[r' ->]]; [discriminate E|].
      injection E as Ea _. apply Hx. left. exact Ea.
    + simpl in E. injection E as -> E.
      destruct (IH y) as [-> ->]; try assumption.
      * intros Hin. apply Hx. right. exact Hin.
      * intros Hin. apply Hy. right. exact Hin.
      * split; reflexivity.
Qed.

Lemma concat_cons (x : string) (xs : list string) :
  exists r, String.concat " " (x :: xs) = (x ++ r)%string /\ afterWord r
            /\ (xs = [] -> r = "")
            /\ (xs <> [] -> r = String space (String.concat " " xs)).
Proof.
  destruct xs as [|y ys].
  - exists "". simpl. rewrite ExampleHost.string_app_nil.
    split; [reflexivity|]. split; [left; reflexivity|].
    split; [reflexivity | congruence].
  - exists (String space (String.concat " " (y :: ys))).
    split; [reflexivity|]. split; [right; eexists; reflexivity|].
    split; [discriminate | reflexivity].
Qed.

Lemma concat_inj (xs ys : list string) :
  Forall keyWord xs -> Forall keyWord ys ->
  String.concat " " xs = String.concat " " ys -> xs = ys.
Proof.
  intros Hxs. revert ys. induction Hxs as [|x xs [Hne Hfree] Hxs IH];
    intros ys Hys E.
  - destruct Hys as [|y ys [Hne _] _]; [reflexivity|].
    exfalso. destruct (concat_cons y ys) as [r [Er _]].
    rewrite Er in E. simpl in E. destruct y; [congruence | discriminate E].
  - destruct Hys as [|y ys [Hney Hfreey] Hys].
    + exfalso. destruct (concat_cons x xs) as [r [Er _]].
      rewrite Er in E. simpl in E. destruct x; [congruence | discriminate E].
    + destruct (concat_cons x xs) as [r1 [E1 [A1 [N1 C1]]]].
      destruct (concat_cons y ys) as [r2 [E2 [A2 [N2 C2]]]].
      rewrite E1, E2 in E.
      destruct (word_prefix x y r1 r2 Hfree Hfreey A1 A2 E) as [-> Er].
      f_equal.
      destruct xs as [|x1 xs'], ys as [|y1 ys']; [reflexivity| | |].
      * exfalso. rewrite (N1 eq_refl) in Er.
        rewrite C2 in Er by discriminate. discriminate Er.
      * exfalso. rewrite (N2 eq_refl) in Er.
        rewrite C1 in Er by discriminate. discriminate Er.
      * apply IH; [exact Hys|].
        rewrite C1, C2 in Er by discriminate.
        injection Er as Er. exact Er.
Qed.

Section Keys.
Context {host : Host}.

Lemma space_delimiter : isDelimiter space = true.
Proof. reflexivity. Qed.

Lemma toLowerCase_concat (l : list string) :
  toLowerCase (String.concat " " l) = String.concat " " (map toLowerCase l).
Proof.
  induction l as [|x rest IH].
  - simpl. apply toLowerCase_empty. reflexivity.
  - destruct rest as [|y rest']; [reflexivity|].
    change (String.concat " " (x :: y :: rest'))
      with (x ++ String space (String.concat " " (y :: rest')))%string.
    rewrite (toLowerCase_delimiter x _ space space_delimiter), IH.
    reflexivity.
Qed.

Lemma foldedWords_good (tag : string) : Forall keyWord (Spec.foldedWords tag).
Proof.
  unfold Spec.foldedWords. apply Forall_forall. intros x Hx.
  apply in_map_iff in Hx. destruct Hx as [w [<- Hw]].
  pose proof (tagWords_good (list_ascii_of_string tag)) as Hgood.
  rewrite Forall_forall in Hgood. destruct (Hgood w Hw) as [Hne Hfree].
  split.
  - intros E.
    pose proof (proj1 (toLowerCase_empty _) E) as E'.
    destruct w; [congruence | discriminate E'].
  - intros Hin.
    apply (toLowerCase_keeps_delimiters _ space space_delimiter) in Hin.
    rewrite list_ascii_of_string_of_list_ascii in Hin.
    unfold sepFree in Hfree. rewrite Forall_forall in Hfree.
    specialize (Hfree space Hin). vm_compute in Hfree. discriminate Hfree.
Qed.

(** The key of a tag is its words in lower case, joined. *)
Lemma tagKey_words (tag : string) :
  Spec.tagKey tag = String.concat " " (Spec.foldedWords tag).
Proof.
  unfold Spec.tagKey, Spec.foldedWords.
  rewrite normalizeTag_chars, normChars_words, unwords_strings.
  rewrite toLowerCase_concat, map_map. reflexivity.
Qed.

Lemma tagKey_eq_iff (a b : string) :
  Spec.tagKey a = Spec.tagKey b <-> Spec.foldedWords a = Spec.foldedWords b.
Proof.
  rewrite !tagKey_words. split.
  - apply concat_inj; apply foldedWords_good.
  - intros ->. reflexivity.
Qed.

Lemma tagKey_normalizeTag (tag : string) :
  Spec.tagKey (Taxonomy.normalizeTag tag) = Spec.tagKey tag.
Proof. unfold Spec.tagKey. rewrite normalizeTag_idempotent. reflexivity. Qed.

End Keys.

End NormalizeFacts.

(* ================================================================== *)
(** ** Facts about maps, objects and [sort] *)

Module ContainerFacts.
Import JsString StringFacts.

Lemma map_has_keys {V} (k : string) (m : JsMap.t V) :
  JsMap.has k m = mem k (JsMap.keys m).
Proof.
  unfold JsMap.has. induction m as [|[k' v] r IH]; [reflexivity|].
  simpl. rewrite (String.eqb_sym k k').
  destruct (k' =? k); [reflexivity | exact IH].
Qed.

Lemma map_set_fresh {V} (k : string) (v : V) (m : JsMap.t V) :
  JsMap.has k m = false -> JsMap.set k v m = m ++ [(k, v)].
Proof.
  unfold JsMap.has. induction m as [|[k' v'] r IH]; [reflexivity|].
  simpl. destruct (k' =? k); [discriminate|].
  intros H. rewrite (IH H). reflexivity.
Qed.

Lemma map_get_set_same {V} (k : string) (v : V) (m : JsMap.t V) :
  JsMap.get k (JsMap.set k v m) = Some v.
Proof.
  induction m as [|[k' v'] r IH]; simpl.
  - rewrite String.eqb_refl. reflexivity.
  - destruct (k' =? k) eqn:E; simpl.
    + rewrite String.eqb_refl. reflexivity.
    + rewrite E. exact IH.
Qed.

Lemma map_get_set_other {V} (k k' : string) (v : V) (m : JsMap.t V) :
  k <> k' -> JsMap.get k' (JsMap.set k v m) = JsMap.get k' m.
Proof.
  intros Hne. induction m as [|[k0 v0] r IH]; simpl.
  - apply String.eqb_neq in Hne. rewrite Hne. reflexivity.
  - destruct (k0 =? k) eqn:E; simpl.
    + apply String.eqb_eq in E. subst k0.
      apply String.eqb_neq in Hne. rewrite Hne. reflexivity.
    + destruct (k0 =? k'); [reflexivity | exact IH].
Qed.

Lemma obj_get_replace_same {V} (k : string) (v : V) (o : JsObject.t V) :
  JsObject.has k o = true -> JsObject.get k (JsObject.replace k v o) = Some v.
Proof.
  unfold JsObject.has. induction o as [|[k' v'] r IH]; simpl; [discriminate|].
  destruct (k' =? k) eqn:E; simpl.
  - rewrite String.eqb_refl. reflexivity.
  - rewrite E. exact IH.
Qed.

Lemma obj_get_replace_other {V} (k k' : string) (v : V) (o : JsObject.t V) :
  k <> k' -> JsObject.get k' (JsObject.replace k v o) = JsObject.get k' o.
Proof.
  intros Hne. induction o as [|[k0 v0] r IH]; simpl; [reflexivity|].
  destruct (k0 =? k) eqn:E; simpl.
  - apply String.eqb_eq in E. subst k0.
    apply String.eqb_neq in Hne. rewrite Hne. reflexivity.
  - destruct (k0 =? k'); [reflexivity | exact IH].
Qed.

Lemma obj_get_insertIndex_same {V} (n : N) (k : string) (v : V)
      (o : JsObject.t V) :
  JsObject.has k o = false ->
  JsObject.get k (JsObject.insertIndex n k v o) = Some v.
Proof.
  unfold JsObject.has. induction o as [|[k' v'] r IH]; simpl.
  - rewrite String.eqb_refl. reflexivity.
  - destruct (k' =? k) eqn:E; [discriminate|]. intros H.
    destruct (JsObject.arrayIndex k') as [n'|]; simpl.
    + destruct (n <? n')%N; simpl.
      * rewrite String.eqb_refl. reflexivity.
      * rewrite E. exact (IH H).
    + rewrite String.eqb_refl. reflexivity.
Qed.

Lemma obj_get_insertIndex_other {V} (n : N) (k k' : string) (v : V)
      (o : JsObject.t V) :
  k <> k' ->
  JsObject.get k' (JsObject.insertIndex n k v o) = JsObject.get k' o.
Proof.
  intros Hne. apply String.eqb_neq in Hne.
  induction o as [|[k0 v0] r IH]; simpl.
  - rewrite Hne. reflexivity.
  - destruct (JsObject.arrayIndex k0) as [n'|]; simpl.
    + destruct (n <? n')%N; simpl.
      * rewrite Hne. reflexivity.
      * destruct (k0 =? k'); [reflexivity | exact IH].
    + rewrite Hne. reflexivity.
Qed.

Lemma obj_get_app {V} (k : string) (o1 o2 : JsObject.t V) :
  JsObject.get k (o1 ++ o2)
  = match JsObject.get k o1 with
    | Some v => Some v
    | None => JsObject.get k o2
    end.
Proof.
  induction o1 as [|[k' v'] r IH]; simpl; [reflexivity|].
  destruct (k' =? k); [reflexivity | exact IH].
Qed.

Lemma obj_get_set_same {V} (k : string) (v : V) (o : JsObject.t V) :
  JsObject.get k (JsObject.set k v o) = Some v.
Proof.
  unfold JsObject.set. destruct (JsObject.has k o) eqn:H.
  - apply obj_get_replace_same. exact H.
  - destruct (JsObject.arrayIndex k).
    + apply obj_get_insertIndex_same. exact H.
    + rewrite obj_get_app. unfold JsObject.has in H.
      destruct (JsObject.get k o); [discriminate|].
      simpl. rewrite String.eqb_refl. reflexivity.
Qed.

Lemma obj_get_set_other {V} (k k' : string) (v : V) (o : JsObject.t V) :
  k <> k' -> JsObject.get k' (JsObject.set k v o) = JsObject.get k' o.
Proof.
  intros Hne. unfold JsObject.set. destruct (JsObject.has k o).
  - apply obj_get_replace_other. exact Hne.
  - destruct (JsObject.arrayIndex k).
    + apply obj_get_insertIndex_other. exact Hne.
    + rewrite obj_get_app. simpl.
      apply String.eqb_neq in Hne. rewrite Hne.
      destruct (JsObject.get k' o); reflexivity.
Qed.

Lemma obj_has_set {V} (k k' : string) (v : V) (o : JsObject.t V) :
  JsObject.has k' (JsObject.set k v o) = (k =? k') || JsObject.has k' o.
Proof.
  unfold JsObject.has at 1. destruct (k =? k') eqn:E.
  - apply String.eqb_eq in E. subst. rewrite obj_get_set_same. reflexivity.
  - apply String.eqb_neq in E. rewrite obj_get_set_other by exact E.
    reflexivity.
Qed.

Lemma obj_has_keys {V} (k : string) (o : JsObject.t V) :
  JsObject.has k o = mem k (JsObject.keys o).
Proof.
  unfold JsObject.has. induction o as [|[k' v] r IH]; [reflexivity|].
  simpl. rewrite (String.eqb_sym k k').
  destruct (k' =? k); [reflexivity | exact IH].
Qed.

Lemma obj_get_filter {V} (p : string -> bool) (k : string) (o : JsObject.t V) :
  JsObject.get k (List.filter (fun e => p (fst e)) o)
  = if p k then JsObject.get k o else None.
Proof.
  induction o as [|[k' v] r IH]; simpl; [destruct (p k); reflexivity|].
  destruct (p k') eqn:Hp; simpl.
  - destruct (k' =? k) eqn:E.
    + apply String.eqb_eq in E. subst. rewrite Hp. reflexivity.
    + exact IH.
  - destruct (k' =? k) eqn:E.
    + apply String.eqb_eq in E. subst. rewrite IH, Hp. reflexivity.
    + exact IH.
Qed.

(** [sort] permutes, and sorts when the comparator is total. *)
Lemma insertSorted_perm {A} (cmp : A -> A -> Z) (x : A) (l : list A) :
  Permutation (insertSorted cmp x l) (x :: l).
Proof.
  induction l as [|y r IH]; simpl; [apply Permutation_refl|].
  destruct (cmp x y <=? 0)%Z; [apply Permutation_refl|].
  apply perm_trans with (y :: x :: r);
    [apply perm_skip; exact IH | apply perm_swap].
Qed.

Lemma arraySort_perm {A} (cmp : A -> A -> Z) (l : list A) :
  Permutation (arraySort cmp l) l.
Proof.
  induction l as [|x r IH]; simpl; [apply perm_nil|].
  apply perm_trans with (x :: arraySort cmp r);
    [apply insertSorted_perm | apply perm_skip; exact IH].
Qed.

Section Sorted.
Context {A : Type}.
Variable cmp : A -> A -> Z.
Hypothesis cmp_total : forall a b, (0 < cmp a b)%Z -> (cmp b a <= 0)%Z.

Let le (a b : A) : Prop := (cmp a b <= 0)%Z.

Lemma insertSorted_hd (x a : A) (l : list A) :
  le a x -> HdRel le a l -> HdRel le a (insertSorted cmp x l).
Proof.
  intros Hax Hhd. destruct l as [|y r]; simpl.
  - constructor. exact Hax.
  - destruct (cmp x y <=? 0)%Z.
    + constructor. exact Hax.
    + inversion Hhd; subst. constructor. assumption.
Qed.

Lemma insertSorted_sorted (x : A) (l : list A) :
  Sorted le l -> Sorted le (insertSorted cmp x l).
Proof.
  induction 1 as [|y r Hs IH Hhd]; simpl.
  - repeat constructor.
  - destruct (cmp x y <=? 0)%Z eqn:E.
    + constructor; [constructor; assumption|].
      constructor. apply Z.leb_le. exact E.
    + constructor; [exact IH|].
      apply insertSorted_hd; [|exact Hhd].
      apply cmp_total. apply Z.leb_gt in E. exact E.
Qed.

Lemma arraySort_sorted (l : list A) : Sorted le (arraySort cmp l).
Proof.
  induction l as [|x r IH]; simpl; [constructor|].
  apply insertSorted_sorted. exact IH.
Qed.
End Sorted.

End ContainerFacts.

(* ================================================================== *)
(** ** The ordered union and the loops that compute it *)

Module UnionFacts.
Import JsString StringFacts ContainerFacts.

Section FirstWins.
Context {host : Host}.
Variable norm : string -> string.

Let key (t : string) : string := toLowerCase (norm t).
Let union := Spec.orderedUnionFrom norm.

(** The loop of [dedupe] and [dedupeTags], for any normalisation. *)
Fixpoint firstWinsLoop (seen : JsMap.t string) (tags : list string)
  : JsMap.t string :=
  match tags with
  | [] => seen
  | tag :: rest =>
      let n := norm tag in
      if negb (truthy n) then firstWinsLoop seen rest
      else if negb (JsMap.has (toLowerCase n) seen)
           then firstWinsLoop (JsMap.set (toLowerCase n) n seen) rest
           else firstWinsLoop seen rest
  end.

Lemma union_ext (s1 s2 : list string) (l : list string) :
  (forall k, mem k s1 = mem k s2) -> union s1 l = union s2 l.
Proof.
  revert s1 s2. induction l as [|t r IH]; intros s1 s2 H; [reflexivity|].
  unfold union in *. simpl. rewrite (H (toLowerCase (norm t))).
  destruct ((norm t =? "") || mem (toLowerCase (norm t)) s2).
  - apply IH. exact H.
  - f_equal. apply IH. intros k. simpl. rewrite (H k). reflexivity.
Qed.

Lemma loop_values (tags : list string) (seen : JsMap.t string) :
  JsMap.values (firstWinsLoop seen tags)
  = JsMap.values seen ++ union (rev (JsMap.keys seen)) tags.
Proof.
  revert seen. induction tags as [|t r IH]; intros seen.
  - simpl. rewrite app_nil_r. reflexivity.
  - unfold union in *. simpl.
    unfold truthy at 1. rewrite negb_involutive.
    destruct (norm t =? "") eqn:En; simpl; [apply IH|].
    rewrite map_has_keys.
    assert (Hrev : mem (toLowerCase (norm t)) (rev (JsMap.keys seen))
                   = mem (toLowerCase (norm t)) (JsMap.keys seen)).
    { apply eq_true_iff_eq. rewrite !mem_In. symmetry. apply in_rev. }
    rewrite Hrev.
    destruct (mem (toLowerCase (norm t)) (JsMap.keys seen)) eqn:Em; simpl;
      [apply IH|].
    rewrite IH. rewrite map_set_fresh by (rewrite map_has_keys; exact Em).
    unfold JsMap.values, JsMap.keys. rewrite !map_app. simpl.
    rewrite rev_app_distr. simpl. rewrite <- app_assoc. reflexivity.
Qed.

Lemma union_filter (l : list string) (s s' : list string) :
  union (s ++ s') l
  = List.filter (fun t => negb (mem (toLowerCase t) s)) (union s' l).
Proof.
  revert s s'. induction l as [|t r IH]; intros s s'; [reflexivity|].
  unfold union in *. simpl. rewrite mem_app.
  destruct (norm t =? "") eqn:En; simpl; [apply IH|].
  destruct (mem (toLowerCase (norm t)) s') eqn:Es'.
  - rewrite orb_true_r. apply IH.
  - rewrite orb_false_r. simpl.
    destruct (mem (toLowerCase (norm t)) s) eqn:Es; simpl.
    + rewrite <- IH. apply union_ext. intros k. rewrite !mem_app. simpl.
      destruct (k =? toLowerCase (norm t)) eqn:E; [|reflexivity].
      apply String.eqb_eq in E. subst k.
      rewrite Es. reflexivity.
    + f_equal. rewrite <- IH. apply union_ext. intros k.
      simpl. rewrite !mem_app. simpl.
      destruct (mem k s), (k =? toLowerCase (norm t)); reflexivity.
Qed.

Lemma union_app (a b : list string) (s : list string) :
  union s (a ++ b)
  = union s a ++ union (rev (map toLowerCase (union s a)) ++ s) b.
Proof.
  revert s. induction a as [|t r IH]; intros s; [reflexivity|].
  unfold union in *. simpl.
  destruct ((norm t =? "") || mem (toLowerCase (norm t)) s); [apply IH|].
  simpl. f_equal. rewrite IH. f_equal.
  apply union_ext. intros k. rewrite <- app_assoc. reflexivity.
Qed.

(** What the union puts out: normal forms that are not empty, with keys
  that are new and pairwise different. *)
Lemma union_out (l : list string) (s : list string) :
  Forall (fun n => truthy n = true /\ exists t, In t l /\ n = norm t)
         (union s l)
  /\ NoDup (map toLowerCase (union s l))
  /\ (forall n, In n (union s l) -> mem (toLowerCase n) s = false).
Proof.
  revert s. induction l as [|t r IH]; intros s.
  - repeat split; [constructor | constructor | intros n []].
  - unfold union in *. simpl.
    destruct (norm t =? "") eqn:En; simpl.
    { destruct (IH s) as [H1 [H2 H3]]. repeat split; try assumption.
      eapply Forall_impl; [|exact H1].
      intros n [Hn [t0 [Hin Heq]]]. split; [exact Hn|].
      exists t0. split; [right; exact Hin | exact Heq]. }
    destruct (mem (toLowerCase (norm t)) s) eqn:Es; simpl.
    { destruct (IH s) as [H1 [H2 H3]]. repeat split; try assumption.
      eapply Forall_impl; [|exact H1].
      intros n [Hn [t0 [Hin Heq]]]. split; [exact Hn|].
      exists t0. split; [right; exact Hin | exact Heq]. }
    destruct (IH (toLowerCase (norm t) :: s)) as [H1 [H2 H3]].
    repeat split.
    + constructor.
      * split; [unfold truthy; rewrite En; reflexivity|].
        exists t. split; [left; reflexivity | reflexivity].
      * eapply Forall_impl; [|exact H1].
        intros n [Hn [t0 [Hin Heq]]]. split; [exact Hn|].
        exists t0. split; [right; exact Hin | exact Heq].
    + constructor; [|exact H2].
      intros Hin. apply in_map_iff in Hin. destruct Hin as [n [Hk Hn]].
      specialize (H3 n Hn). simpl in H3. rewrite Hk in H3.
      rewrite String.eqb_refl in H3. discriminate.
    + intros n [<-|Hn]; [exact Es|].
      specialize (H3 n Hn). simpl in H3.
      apply orb_false_iff in H3. apply H3.
Qed.

Hypothesis norm_idempotent : forall t, norm (norm t) = norm t.

Lemma union_fixed (m : list string) (s : list string) :
  Forall (fun n => truthy n = true /\ norm n = n) m ->
  NoDup (map toLowerCase m) ->
  (forall n, In n m -> mem (toLowerCase n) s = false) ->
  union s m = m.
Proof.
  revert s. induction m as [|n r IH]; intros s Hall Hnd Hs; [reflexivity|].
  inversion Hall as [|? ? [Hn Hfix] Hall']; subst.
  inversion Hnd as [|? ? Hnotin Hnd']; subst.
  unfold union in *. simpl. rewrite Hfix.
  unfold truthy in Hn. apply negb_true_iff in Hn. rewrite Hn.
  rewrite (Hs n (or_introl eq_refl)). simpl. f_equal.
  apply IH; try assumption.
  intros n' Hn'. simpl.
  rewrite (Hs n' (or_intror Hn')), orb_false_r.
  apply String.eqb_neq. intros Heq. apply Hnotin.
  apply in_map_iff. exists n'. split; [exact Heq | exact Hn'].
Qed.

Lemma union_out_fixed (l : list string) (s : list string) :
  Forall (fun n => truthy n = true /\ norm n = n) (union s l).
Proof.
  destruct (union_out l s) as [H _].
  eapply Forall_impl; [|exact H].
  intros n [Hn [t [_ ->]]]. split; [exact Hn | apply norm_idempotent].
Qed.

Lemma union_union (l : list string) (s : list string) :
  union s (union [] l) = union s l.
Proof.
  rewrite <- (app_nil_r s) at 1 2.
  rewrite !union_filter.
  rewrite (union_fixed (union [] l) []).
  - reflexivity.
  - apply union_out_fixed.
  - apply (union_out l []).
  - intros n _. reflexivity.
Qed.

(** Removing duplicates part by part and then over the whole is removing
  them over the whole. *)
Lemma union_parts (h o p : list string) :
  union [] (union [] h ++ union [] o ++ p) = union [] (h ++ o ++ p).
Proof.
  rewrite !union_app. rewrite !union_union. reflexivity.
Qed.

(** The position and casing of every tag of the union: the normal form
  of the first input with its key. *)
Lemma union_In (l : list string) (s : list string) (t : string) :
  In t (union s l) <->
  exists pre x post,
    l = pre ++ x :: post /\ t = norm x /\ truthy t = true
    /\ mem (key x) s = false
    /\ forall y, In y pre -> key y <> key x.
Proof.
  revert s. induction l as [|a r IH]; intros s.
  - simpl. split; [intros [] |].
    intros [pre [x [post [H _]]]]. destruct pre; discriminate.
  - unfold union in *. simpl. split.
    + intros Hin.
      destruct (norm a =? "") eqn:En; simpl in Hin.
      { apply IH in Hin.
        destruct Hin as [pre [x [post [-> [Ht [Hne [Hs Hpre]]]]]]].
        exists (a :: pre), x, post. repeat split; try assumption.
        intros y [<-|Hy]; [|apply Hpre; exact Hy].
        unfold key. apply String.eqb_eq in En. rewrite En.
        intros Hk. subst t.
        rewrite <- toLowerCase_truthy, <- Hk in Hne.
        rewrite (proj2 (toLowerCase_empty "") eq_refl) in Hne.
        discriminate. }
      destruct (mem (toLowerCase (norm a)) s) eqn:Es; simpl in Hin.
      { apply IH in Hin.
        destruct Hin as [pre [x [post [-> [Ht [Hne [Hs Hpre]]]]]]].
        exists (a :: pre), x, post. repeat split; try assumption.
        intros y [<-|Hy]; [|apply Hpre; exact Hy].
        unfold key. intros Hk. rewrite Hk in Es.
        unfold key in Hs. congruence. }
      destruct Hin as [<-|Hin].
      { exists [], a, r. repeat split; try assumption.
        - unfold truthy. rewrite En. reflexivity.
        - intros y []. }
      apply IH in Hin.
      destruct Hin as [pre [x [post [-> [Ht [Hne [Hs Hpre]]]]]]].
      simpl in Hs. apply orb_false_iff in Hs. destruct Hs as [Hak Hs].
      exists (a :: pre), x, post. repeat split; try assumption.
      intros y [<-|Hy]; [|apply Hpre; exact Hy].
      apply String.eqb_neq. rewrite String.eqb_sym. exact Hak.
    + intros [pre [x [post [Hl [Ht [Hne [Hs Hpre]]]]]]].
      destruct pre as [|a' pre]; simpl in Hl;
        injection Hl as Ha Hr; [subst x post | subst a' r].
      * fold (key a). rewrite Hs. subst t.
        unfold truthy in Hne. apply negb_true_iff in Hne. rewrite Hne.
        simpl. left. reflexivity.
      * assert (Hax : key a <> key x) by (apply Hpre; left; reflexivity).
        assert (Hrest :
                  forall s', mem (key x) s' = false ->
                             In t
                                (Spec.orderedUnionFrom norm s' (pre ++ x :: post))).
        { intros s' Hs'. apply IH. exists pre, x, post.
          repeat split; try assumption.
          intros y Hy. apply Hpre. right. exact Hy. }
        destruct ((norm a =? "") || mem (toLowerCase (norm a)) s).
        -- apply Hrest. exact Hs.
        -- right. apply Hrest. simpl. rewrite Hs, orb_false_r.
           apply String.eqb_neq. intros Heq. apply Hax.
           symmetry. exact Heq.
Qed.

End FirstWins.

(** On tags that are ASCII once normalised, every host computes the union
    the example host computes. *)
Lemma union_ascii {host : Host} (norm : string -> string)
      (l s : list string) :
  forallb (fun t => isAscii (norm t)) l = true ->
  Spec.orderedUnionFrom norm s l
  = @Spec.orderedUnionFrom ExampleHost.host norm s l.
Proof.
  revert s. induction l as [|t r IH]; intros s H; [reflexivity|].
  simpl in H. apply andb_true_iff in H. destruct H as [Ht Hr].
  simpl. rewrite (toLowerCase_ascii _ Ht).
  unfold ExampleHost.lowerUnits.
  destruct ((norm t =? "") || mem (lowerAscii (norm t)) s);
    [apply IH | f_equal; apply IH]; exact Hr.
Qed.

End UnionFacts.

(* ================================================================== *)
(** ** [dedupe] and [mergeTags] against the ordered union *)

Module TaxonomyFacts.
Import JsString StringFacts ContainerFacts NormalizeFacts UnionFacts.

Section WithHost.
Context {host : Host}.

Lemma dedupeLoop_firstWins (tags : list string) (seen : JsMap.t string) :
  Taxonomy.dedupeLoop seen tags
  = firstWinsLoop Taxonomy.normalizeTag seen tags.
Proof.
  revert seen. induction tags as [|t r IH]; intros seen; [reflexivity|].
  simpl. rewrite !IH. reflexivity.
Qed.

Lemma dedupe_values (tags : list string) :
  JsMap.values (Taxonomy.dedupeLoop JsMap.empty tags) = Spec.orderedUnion tags.
Proof.
  rewrite dedupeLoop_firstWins, loop_values. reflexivity.
Qed.


Lemma dedupe_unsorted (tags : list string) :
  Taxonomy.dedupe tags false = Spec.orderedUnion tags.
Proof. unfold Taxonomy.dedupe. apply dedupe_values. Qed.

Lemma dedupe_sorted (tags : list string) :
  Taxonomy.dedupe tags true
  = arraySort (localeCompare "zh-CN") (Spec.orderedUnion tags).
Proof. unfold Taxonomy.dedupe. rewrite dedupe_values. reflexivity. Qed.

Lemma dedupe_perm (tags : list string) (sort : bool) :
  Permutation (Taxonomy.dedupe tags sort) (Spec.orderedUnion tags).
Proof.
  destruct sort.
  - rewrite dedupe_sorted. apply arraySort_perm.
  - rewrite dedupe_unsorted. apply Permutation_refl.
Qed.

Definition history (historical : option (list string)) : list string :=
  match historical with Some h => h | None => [] end.

Lemma mergeTags_tags (own proposed : list string)
      (historical : option (list string)) (config : TagSyncConfig) :
  tags (Taxonomy.mergeTags own proposed historical config)
  = Taxonomy.dedupe
      (Spec.orderedUnion (history historical) ++ Spec.orderedUnion own
                         ++ proposed)
      (sortTags config).
Proof.
  unfold Taxonomy.mergeTags. simpl tags.
  rewrite dedupe_values. destruct historical; simpl history.
  - rewrite dedupe_values. reflexivity.
  - reflexivity.
Qed.

Lemma mergeTags_perm (own proposed : list string)
      (historical : option (list string)) (config : TagSyncConfig) :
  Permutation
    (tags (Taxonomy.mergeTags own proposed historical config))
    (Spec.orderedUnion (history historical ++ own ++ proposed)).
Proof.
  rewrite mergeTags_tags.
  eapply perm_trans; [apply dedupe_perm|].
  unfold Spec.orderedUnion.
  rewrite (union_parts Taxonomy.normalizeTag normalizeTag_idempotent).
  apply Permutation_refl.
Qed.

Lemma mergeTags_unsorted (own proposed : list string)
      (historical : option (list string)) (config : TagSyncConfig) :
  sortTags config = false ->
  tags (Taxonomy.mergeTags own proposed historical config)
  = Spec.orderedUnion (history historical ++ own ++ proposed).
Proof.
  intros Hs. rewrite mergeTags_tags, Hs, dedupe_unsorted.
  unfold Spec.orderedUnion.
  apply (union_parts Taxonomy.normalizeTag normalizeTag_idempotent).
Qed.

Lemma mergeTags_sorted (own proposed : list string)
      (historical : option (list string)) (config : TagSyncConfig) :
  sortTags config = true ->
  Sorted (Spec.localeLe "zh-CN")
         (tags (Taxonomy.mergeTags own proposed historical config)).
Proof.
  intros Hs. rewrite mergeTags_tags, Hs, dedupe_sorted.
  apply (arraySort_sorted (localeCompare "zh-CN")).
  apply localeCompare_total.
Qed.

(** Keys of the tags of a union, read off the inputs. *)
Lemma union_tag (l : list string) (t : string) :
  In t (Spec.orderedUnion l) ->
  truthy t = true /\ Taxonomy.normalizeTag t = t
  /\ Spec.tagKey t = toLowerCase t.
Proof.
  intros Hin.
  pose proof (union_out_fixed Taxonomy.normalizeTag normalizeTag_idempotent l [])
    as Hall.
  rewrite Forall_forall in Hall. destruct (Hall t Hin) as [Hn Hfix].
  repeat split; try assumption.
  unfold Spec.tagKey. rewrite Hfix. reflexivity.
Qed.

Lemma tagKey_truthy (t : string) :
  truthy (Spec.tagKey t) = truthy (Taxonomy.normalizeTag t).
Proof. unfold Spec.tagKey. apply toLowerCase_truthy. Qed.

Lemma union_covers (l : list string) (s : list string) (x : string) :
  In x l -> truthy (Taxonomy.normalizeTag x) = true ->
  mem (Spec.tagKey x) s = true
  \/ In (Spec.tagKey x)
        (map toLowerCase (Spec.orderedUnionFrom Taxonomy.normalizeTag s l)).
Proof.
  revert s. induction l as [|a r IH]; intros s Hin Hx; [destruct Hin|].
  simpl.
  destruct Hin as [->|Hin].
  - unfold truthy in Hx. apply negb_true_iff in Hx. rewrite Hx. simpl.
    fold (Spec.tagKey x).
    destruct (mem (Spec.tagKey x) s) eqn:Es; [left; reflexivity|].
    right. simpl. left. reflexivity.
  - destruct ((Taxonomy.normalizeTag a =? "")
              || mem (toLowerCase (Taxonomy.normalizeTag a)) s) eqn:E.
    + apply IH; assumption.
    + destruct (IH (toLowerCase (Taxonomy.normalizeTag a) :: s) Hin Hx)
        as [Hm|Hm].
      * simpl in Hm. apply orb_true_iff in Hm. destruct Hm as [Hm|Hm].
        -- apply String.eqb_eq in Hm. right. simpl. left.
           symmetry. exact Hm.
        -- left. exact Hm.
      * right. simpl. right. exact Hm.
Qed.

Lemma union_keys (l : list string) (k : string) :
  In k (map Spec.tagKey (Spec.orderedUnion l)) <->
  exists x, In x l /\ truthy (Taxonomy.normalizeTag x) = true
            /\ Spec.tagKey x = k.
Proof.
  split.
  - intros Hin. apply in_map_iff in Hin. destruct Hin as [t [Hk Ht]].
    destruct (union_out Taxonomy.normalizeTag l []) as [Hall _].
    rewrite Forall_forall in Hall.
    destruct (Hall t Ht) as [Hn [x [Hx Heq]]].
    exists x. repeat split; [exact Hx | rewrite <- Heq; exact Hn |].
    rewrite <- Hk, Heq. symmetry. apply tagKey_normalizeTag.
  - intros [x [Hx [Hn <-]]].
    destruct (union_covers l [] x Hx Hn) as [Hm|Hm]; [discriminate|].
    apply in_map_iff in Hm. destruct Hm as [t [Hk Ht]].
    apply in_map_iff. exists t. split; [|exact Ht].
    destruct (union_tag l t Ht) as [_ [_ Hkey]]. rewrite Hkey. exact Hk.
Qed.

Lemma keys_of_parts (h o : list string) (k : string) :
  mem k (map Spec.tagKey (Spec.orderedUnion h ++ Spec.orderedUnion o))
  = mem k (map Spec.tagKey (Spec.orderedUnion (h ++ o))).
Proof.
  apply eq_true_iff_eq. rewrite !mem_In, map_app, in_app_iff, !union_keys.
  split.
  - intros [[x [Hx H]]|[x [Hx H]]]; exists x; split;
      try exact H; apply in_or_app; [left | right]; exact Hx.
  - intros [x [Hx H]]. apply in_app_or in Hx.
    destruct Hx as [Hx|Hx]; [left | right]; exists x; split; assumption.
Qed.

Lemma mem_keys_iff (l : list string) (t : string) :
  truthy (Taxonomy.normalizeTag t) = true ->
  (mem (Spec.tagKey t) (map Spec.tagKey (Spec.orderedUnion l)) = false
   <-> forall x, In x l -> Spec.tagKey x <> Spec.tagKey t).
Proof.
  intros Ht. split.
  - intros Hm x Hx Hk.
    assert (Hin : In (Spec.tagKey t)
                     (map Spec.tagKey (Spec.orderedUnion l))).
    { apply union_keys. exists x. repeat split; try assumption.
      rewrite <- tagKey_truthy, Hk, tagKey_truthy. exact Ht. }
    apply mem_In in Hin. congruence.
  - intros Hall.
    destruct (mem (Spec.tagKey t) (map Spec.tagKey (Spec.orderedUnion l)))
      eqn:Hm; [|reflexivity].
    apply mem_In, union_keys in Hm. destruct Hm as [x [Hx [_ Hk]]].
    exfalso. exact (Hall x Hx Hk).
Qed.

(** On tags that are ASCII once normalised every host agrees with the
    example host, which computes. *)
Lemma tagKey_ascii (t : string) :
  isAscii (Taxonomy.normalizeTag t) = true ->
  Spec.tagKey t = lowerAscii (Taxonomy.normalizeTag t).
Proof. intros H. unfold Spec.tagKey. apply toLowerCase_ascii. exact H. Qed.

Lemma orderedUnion_ascii (l : list string) :
  forallb (fun t => isAscii (Taxonomy.normalizeTag t)) l = true ->
  Spec.orderedUnion l = @Spec.orderedUnion ExampleHost.host l.
Proof. intros H. unfold Spec.orderedUnion. apply union_ascii. exact H. Qed.

End WithHost.

End TaxonomyFacts.

(** Evaluates the keys and the unions of closed ASCII tags in the goal. *)
Ltac ascii_step :=
  match goal with
  | |- context [@Spec.orderedUnion ?h ?l] =>
      lazymatch h with ExampleHost.host => fail | _ => idtac end;
      rewrite (@TaxonomyFacts.orderedUnion_ascii h l) by reflexivity;
      let v := eval vm_compute in (@Spec.orderedUnion ExampleHost.host l) in
      change (@Spec.orderedUnion ExampleHost.host l) with v
  | |- context [@Spec.tagKey ?h ?t] =>
      rewrite (@TaxonomyFacts.tagKey_ascii h t) by reflexivity;
      let v := eval vm_compute in
                (JsString.lowerAscii (Taxonomy.normalizeTag t)) in
      change (JsString.lowerAscii (Taxonomy.normalizeTag t)) with v
  end.

Ltac ascii_tags :=
  repeat first [ascii_step | progress cbn [List.filter map app]].

(* ================================================================== *)
(** ** The merge: what it returns *)

Module Examples.

(** White space of more than one byte: the no-break space U+00A0, the
    ideographic space U+3000 and the byte-order mark U+FEFF; and a letter
    whose second byte is the second byte of the no-break space, U+00E0. *)
Definition noBreakSpace : string :=
  String (ascii_of_nat 194) (String (ascii_of_nat 160) "").

Definition ideographicSpace : string :=
  String (ascii_of_nat 227)
         (String (ascii_of_nat 128) (String (ascii_of_nat 128) "")).

Definition byteOrderMark : string :=
  String (ascii_of_nat 239)
         (String (ascii_of_nat 187) (String (ascii_of_nat 191) "")).

Definition aGrave : string :=
  String (ascii_of_nat 195) (String (ascii_of_nat 160) "").

Definition config (sort : bool) : TagSyncConfig :=
  {| apiKey := "sk-test"; model := "gpt-4o-mini"; language := "zh";
     dryRun := false; filter := ""; maxConcurrency := 1;
     sortTags := sort; taxonomyRules := None |}.

Definition configWith (taxonomy : TaxonomyRules) : TagSyncConfig :=
  {| apiKey := "sk-test"; model := "gpt-4o-mini"; language := "zh";
     dryRun := false; filter := ""; maxConcurrency := 1;
     sortTags := false; taxonomyRules := Some taxonomy |}.

End Examples.

Module MergeFacts.
Import JsString StringFacts ContainerFacts NormalizeFacts UnionFacts.
Import TaxonomyFacts.

Section WithHost.
Context {host : Host}.

Lemma orderedUnion_first (l : list string) (t : string) :
  In t (Spec.orderedUnion l) <->
  exists pre x post,
    l = pre ++ x :: post /\ t = Taxonomy.normalizeTag x /\ t <> ""
    /\ forall y, In y pre -> Spec.tagKey y <> Spec.tagKey x.
Proof.
  unfold Spec.orderedUnion. rewrite union_In. split.
  - intros [pre [x [post [Hl [Ht [Hne [_ Hpre]]]]]]].
    exists pre, x, post. repeat split; try assumption.
    apply truthy_true. exact Hne.
  - intros [pre [x [post [Hl [Ht [Hne Hpre]]]]]].
    exists pre, x, post. repeat split; try assumption.
    apply truthy_true. exact Hne.
Qed.

Lemma orderedUnion_keys_NoDup (l : list string) :
  NoDup (map Spec.tagKey (Spec.orderedUnion l)).
Proof.
  rewrite (map_ext_in Spec.tagKey toLowerCase).
  - apply (union_out Taxonomy.normalizeTag l []).
  - intros t Ht. apply (union_tag l t Ht).
Qed.


Lemma mergeTags_added (own proposed : list string)
      (historical : option (list string)) (config : TagSyncConfig) :
  added (Taxonomy.mergeTags own proposed historical config)
  = List.filter
      (fun t =>
         negb (mem (Spec.tagKey t)
                   (map Spec.tagKey
                        (Spec.orderedUnion (history historical ++ own)))))
      (tags (Taxonomy.mergeTags own proposed historical config)).
Proof.
  unfold Taxonomy.mergeTags. simpl added. simpl tags.
  apply filter_ext. intros t. f_equal.
  fold (Spec.tagKey t).
  rewrite <- keys_of_parts.
  rewrite !dedupe_values.
  destruct historical; simpl history.
  - rewrite dedupe_values. reflexivity.
  - reflexivity.
Qed.

Lemma mergeTags_tag_truthy (own proposed : list string)
      (historical : option (list string)) (config : TagSyncConfig)
      (t : string) :
  In t (tags (Taxonomy.mergeTags own proposed historical config)) ->
  In t (Spec.orderedUnion (history historical ++ own ++ proposed)).
Proof.
  apply Permutation_in. apply mergeTags_perm.
Qed.

End WithHost.

End MergeFacts.

(** C5: the tags of a merge are the ordered union of the historical, the
    own and then the proposed tags, the first case-insensitive occurrence
    giving both the casing and the position: a tag is in the union exactly
    when it is the normal form of an input that no earlier input shares its
    key with.  Without [sortTags] the merge is that list; with it, the same
    tags in the order of the collation.  For historical [A, B], own [B, C]
    and proposed [C, D] the merge is [A, B, C, D]. *)
Theorem merge_builds_ordered_union :
  forall (host : Host) (own proposed hist : list string) (config : TagSyncConfig),
    let merged := tags (Taxonomy.mergeTags own proposed (Some hist) config) in
    let union := Spec.orderedUnion (hist ++ own ++ proposed) in
    Permutation merged union
    /\ (if sortTags config
        then Sorted (Spec.localeLe "zh-CN") merged
        else merged = union)
    /\ (forall t,
           In t union <->
           exists pre x post,
             hist ++ own ++ proposed = pre ++ x :: post
             /\ t = Taxonomy.normalizeTag x /\ t <> ""
             /\ forall y, In y pre -> Spec.tagKey y <> Spec.tagKey x)
    /\ tags (Taxonomy.mergeTags ["B"; "C"] ["C"; "D"] (Some ["A"; "B"])
                                (Examples.config false))
       = ["A"; "B"; "C"; "D"]
    /\ tags (@Taxonomy.mergeTags ExampleHost.host
               ["B"; "C"] ["C"; "D"] (Some ["A"; "B"]) (Examples.config true))
       = ["A"; "B"; "C"; "D"].
Proof.
  intros host own proposed hist config merged union.
  split; [apply (TaxonomyFacts.mergeTags_perm own proposed (Some hist))|].
  split.
  - destruct (sortTags config) eqn:Hs.
    + apply TaxonomyFacts.mergeTags_sorted. exact Hs.
    + apply (TaxonomyFacts.mergeTags_unsorted own proposed (Some hist)). exact Hs.
  - split; [intros t; apply MergeFacts.orderedUnion_first|].
    split; [|reflexivity].
    rewrite (TaxonomyFacts.mergeTags_unsorted
               ["B"; "C"] ["C"; "D"] (Some ["A"; "B"]) (Examples.config false)
               eq_refl).
    unfold Spec.orderedUnion.
    rewrite UnionFacts.union_ascii by reflexivity. reflexivity.
Qed.

(** C6: [added] is the final tags, in their order, whose key is not a key
    of the union of the historical and own tags, that is of no historical
    or own tag; for historical [X], no own tag and proposed [X, Y] it is
    [Y]. *)
Theorem added_is_absent_from_history_and_own :
  forall (host : Host) (own proposed hist : list string) (config : TagSyncConfig),
    let result := Taxonomy.mergeTags own proposed (Some hist) config in
    added result
    = List.filter
        (fun t =>
           negb (JsString.mem (Spec.tagKey t)
                   (map Spec.tagKey (Spec.orderedUnion (hist ++ own)))))
        (tags result)
    /\ (forall t,
           In t (added result) <->
           In t (tags result)
           /\ forall x, In x (hist ++ own) -> Spec.tagKey x <> Spec.tagKey t)
    /\ added (Taxonomy.mergeTags [] ["X"; "Y"] (Some ["X"]) config) = ["Y"].
Proof.
  intros host own proposed hist config result.
  assert (Hadded := MergeFacts.mergeTags_added own proposed (Some hist) config).
  simpl TaxonomyFacts.history in Hadded. fold result in Hadded.
  split; [exact Hadded|]. split.
  - intros t. rewrite Hadded, filter_In. split.
    + intros [Hin Hm]. split; [exact Hin|].
      apply negb_true_iff in Hm.
      apply (TaxonomyFacts.mem_keys_iff (hist ++ own) t); [|exact Hm].
      apply MergeFacts.mergeTags_tag_truthy in Hin.
      destruct (TaxonomyFacts.union_tag _ t Hin) as [Hn [Hfix _]].
      rewrite Hfix. exact Hn.
    + intros [Hin Hall]. split; [exact Hin|].
      apply negb_true_iff.
      apply (TaxonomyFacts.mem_keys_iff (hist ++ own) t); [|exact Hall].
      apply MergeFacts.mergeTags_tag_truthy in Hin.
      destruct (TaxonomyFacts.union_tag _ t Hin) as [Hn [Hfix _]].
      rewrite Hfix. exact Hn.
  - rewrite (MergeFacts.mergeTags_added [] ["X"; "Y"] (Some ["X"]) config).
    rewrite TaxonomyFacts.mergeTags_tags.
    simpl TaxonomyFacts.history. ascii_tags.
    destruct (sortTags config).
    + rewrite TaxonomyFacts.dedupe_sorted. ascii_tags.
      simpl arraySort.
      destruct (localeCompare "zh-CN" "X" "Y" <=? 0)%Z;
        ascii_tags; reflexivity.
    + rewrite TaxonomyFacts.dedupe_unsorted. ascii_tags. reflexivity.
Qed.

(** C7: [normalizeTag] returns the words of the tag (its runs of bytes
    that belong to no white space, underscore or slash) joined by single
    spaces, white space being the white space of ECMAScript, of one byte
    or more: a no-break space, an ideographic space and a byte-order mark
    separate and are trimmed as a space is, and a letter that shares a
    byte with one of them is left whole.  Two tags have one key exactly
    when their words agree once [toLowerCase] has folded them; in a merge
    every input that is not empty is represented by a tag with its key, no
    two tags share a key, no tag is the empty string, and every tag is the
    normal form of the first input with its key. *)
Theorem normalization_collapses_to_one_key :
  forall (host : Host),
    (forall tag, Taxonomy.normalizeTag tag = Spec.normalized tag)
    /\ Taxonomy.normalizeTag
         (Examples.ideographicSpace ++ "Web" ++ Examples.noBreakSpace
          ++ "_/" ++ Examples.ideographicSpace ++ "Dev"
          ++ Examples.byteOrderMark)
       = "Web Dev"
    /\ Taxonomy.normalizeTag (Examples.aGrave ++ " la  carte")
       = (Examples.aGrave ++ " la carte")%string
    /\ Spec.tagKey ("Web" ++ Examples.noBreakSpace ++ "Dev")
       = Spec.tagKey " web_dev"
    /\ (forall a b,
           Spec.tagKey a = Spec.tagKey b
           <-> Spec.foldedWords a = Spec.foldedWords b)
    /\ (forall (own proposed : list string) (historical : option (list string))
               (config : TagSyncConfig),
           let inputs := TaxonomyFacts.history historical ++ own ++ proposed in
           let merged :=
             tags (Taxonomy.mergeTags own proposed historical config) in
           NoDup (map Spec.tagKey merged)
           /\ (forall x,
                  In x inputs -> Taxonomy.normalizeTag x <> "" ->
                  exists t, In t merged /\ Spec.tagKey t = Spec.tagKey x)
           /\ (forall t,
                  In t merged ->
                  t <> ""
                  /\ exists pre x post,
                      inputs = pre ++ x :: post
                      /\ t = Taxonomy.normalizeTag x
                      /\ forall y, In y pre -> Spec.tagKey y <> Spec.tagKey x)).
Proof.
  intros host.
  split; [exact NormalizeFacts.normalizeTag_normalized|].
  split; [reflexivity|]. split; [reflexivity|].
  split; [rewrite !TaxonomyFacts.tagKey_ascii by reflexivity; reflexivity|].
  split; [exact NormalizeFacts.tagKey_eq_iff|].
  intros own proposed historical config inputs merged.
  assert (Hperm : Permutation merged (Spec.orderedUnion inputs))
    by apply TaxonomyFacts.mergeTags_perm.
  split; [|split].
  - apply (Permutation_NoDup (l := map Spec.tagKey (Spec.orderedUnion inputs))).
    + apply Permutation_map, Permutation_sym, Hperm.
    + apply MergeFacts.orderedUnion_keys_NoDup.
  - intros x Hx Hne.
    assert (Hk : In (Spec.tagKey x)
                    (map Spec.tagKey (Spec.orderedUnion inputs))).
    { apply TaxonomyFacts.union_keys. exists x.
      repeat split; try assumption.
      apply StringFacts.truthy_true. exact Hne. }
    apply in_map_iff in Hk. destruct Hk as [t [Hk Ht]].
    exists t. split; [|exact Hk].
    apply (Permutation_in t (Permutation_sym Hperm)). exact Ht.
  - intros t Ht.
    apply (Permutation_in t Hperm) in Ht.
    apply MergeFacts.orderedUnion_first in Ht.
    destruct Ht as [pre [x [post [Hl [Heq [Hne Hpre]]]]]].
    split; [exact Hne|].
    exists pre, x, post. repeat split; assumption.
Qed.

(** Objects whose keys are no array indices keep the order their entries
    were created in. *)
Module SortFacts.
Import JsString StringFacts ContainerFacts.

Lemma set_plain {V} (k : string) (v : V) (o : JsObject.t V) :
  JsObject.has k o = false -> JsObject.arrayIndex k = None ->
  JsObject.set k v o = o ++ [(k, v)].
Proof.
  intros Hhas Hidx. unfold JsObject.set. rewrite Hhas, Hidx. reflexivity.
Qed.

Lemma has_app_one {V} (k k0 : string) (v0 : V) (o : JsObject.t V) :
  JsObject.has k (o ++ [(k0, v0)]) = JsObject.has k o || (k0 =? k).
Proof.
  unfold JsObject.has. rewrite obj_get_app. simpl.
  destruct (JsObject.get k o); [reflexivity|].
  destruct (k0 =? k); reflexivity.
Qed.

Lemma fromEntries_plain {V} (es : list (string * V)) (o : JsObject.t V) :
  NoDup (map fst es) ->
  (forall k, In k (map fst es) -> JsObject.arrayIndex k = None) ->
  (forall k, In k (map fst es) -> JsObject.has k o = false) ->
  fold_left (fun o e => JsObject.set (fst e) (snd e) o) es o = o ++ es.
Proof.
  revert o. induction es as [|[k0 v0] es IH]; intros o Hnd Hidx Hfresh.
  - simpl. rewrite app_nil_r. reflexivity.
  - simpl in *. inversion Hnd as [|? ? Hnotin Hnd']; subst.
    rewrite set_plain by (auto using Hfresh, Hidx).
    rewrite IH; [rewrite <- app_assoc; reflexivity | exact Hnd' | |].
    + intros k Hk. apply Hidx. right. exact Hk.
    + intros k Hk. rewrite has_app_one.
      rewrite (Hfresh k (or_intror Hk)). simpl.
      apply String.eqb_neq. intros ->. exact (Hnotin Hk).
Qed.

Lemma sorted_keys {V} (le : string -> string -> Prop) (l : list (string * V)) :
  Sorted (fun a b => le (fst a) (fst b)) l -> Sorted le (map fst l).
Proof.
  induction 1 as [|a l Hs IH Hhd]; simpl; [constructor|].
  constructor; [exact IH|].
  destruct Hhd; simpl; constructor. assumption.
Qed.

End SortFacts.

(* ================================================================== *)
(** ** Classification *)

Module ClassifyFacts.
Import JsString StringFacts ContainerFacts.

Section WithHost.
Context {host : Host}.

Definition plainRule (names : list string) : TaxonomyRule :=
  {| includes := Some names; pattern := None |}.

Definition patternRule (p : string) : TaxonomyRule :=
  {| includes := None; pattern := Some p |}.

Lemma includesTag_iff (rule : TaxonomyRule) (tag : string) :
  Taxonomy.includesTag rule tag = true <-> Spec.includesKey rule tag.
Proof.
  unfold Taxonomy.includesTag, Spec.includesKey.
  rewrite existsb_exists. split.
  - intros [c [Hin Heq]]. exists c. split; [exact Hin|].
    apply String.eqb_eq in Heq. exact Heq.
  - intros [c [Hin Heq]]. exists c. split; [exact Hin|].
    apply String.eqb_eq. exact Heq.
Qed.


Lemma patternTest_iff (rule : TaxonomyRule) (tag : string) :
  Taxonomy.patternTest rule tag = true <-> Spec.patternMatches rule tag.
Proof.
  unfold Taxonomy.patternTest, Spec.patternMatches. split.
  - destruct (pattern rule) as [p|]; [|discriminate].
    destruct (truthy p) eqn:Hp; [|discriminate].
    destruct (regExpTest p "i" tag) as [[]|] eqn:Hr; try discriminate.
    intros _. exists p. repeat split; assumption.
  - intros [p [-> [-> ->]]]. reflexivity.
Qed.

Lemma matches_iff (rule : TaxonomyRule) (tag : string) :
  Taxonomy.includesTag rule tag || Taxonomy.patternTest rule tag = true
  <-> Spec.ruleMatches rule tag.
Proof.
  unfold Spec.ruleMatches.
  rewrite orb_true_iff, includesTag_iff, patternTest_iff. reflexivity.
Qed.

Lemma assignCategory_first (tag : string)
      (pre : list (string * TaxonomyRule)) (category : string)
      (rule : TaxonomyRule) (post : list (string * TaxonomyRule)) :
  (forall e, In e pre -> ~ Spec.ruleMatches (snd e) tag) ->
  Spec.ruleMatches rule tag ->
  Taxonomy.assignCategory tag (pre ++ (category, rule) :: post)
  = Some category.
Proof.
  intros Hpre Hrule. induction pre as [|[c0 r0] pre IH]; simpl.
  - apply matches_iff in Hrule.
    destruct (Taxonomy.includesTag rule tag); [reflexivity|].
    simpl in Hrule. rewrite Hrule. reflexivity.
  - assert (H0 : Taxonomy.includesTag r0 tag || Taxonomy.patternTest r0 tag
                 = false).
    { destruct (Taxonomy.includesTag r0 tag || Taxonomy.patternTest r0 tag)
        eqn:E; [|reflexivity].
      apply matches_iff in E.
      exfalso. exact (Hpre (c0, r0) (or_introl eq_refl) E). }
    apply orb_false_iff in H0. destruct H0 as [-> ->].
    apply IH. intros e He. apply Hpre. right. exact He.
Qed.

Lemma assignCategory_none (tag : string)
      (rules : list (string * TaxonomyRule)) :
  (forall e, In e rules -> ~ Spec.ruleMatches (snd e) tag) ->
  Taxonomy.assignCategory tag rules = None.
Proof.
  intros Hall. induction rules as [|[c0 r0] rules IH]; [reflexivity|].
  simpl.
  assert (H0 : Taxonomy.includesTag r0 tag || Taxonomy.patternTest r0 tag
               = false).
  { destruct (Taxonomy.includesTag r0 tag || Taxonomy.patternTest r0 tag)
      eqn:E; [|reflexivity].
    apply matches_iff in E.
    exfalso. exact (Hall (c0, r0) (or_introl eq_refl) E). }
  apply orb_false_iff in H0. destruct H0 as [-> ->].
  apply IH. intros e He. apply Hall. right. exact He.
Qed.

(** The category written for a tag by the outer loop. *)
Definition categoryOf (rules : TaxonomyRules) (tag : string) : string :=
  match Taxonomy.assignCategory tag (JsObject.entries rules) with
  | Some category => category
  | None => "uncategorized"
  end.

Lemma classify_fold (rules : TaxonomyRules) (tags : list string)
      (tag : string) (o : JsObject.t string) :
  JsObject.get tag
    (fold_left
       (fun classification t =>
          match Taxonomy.assignCategory t (JsObject.entries rules) with
          | Some category => JsObject.set t category classification
          | None => JsObject.set t "uncategorized" classification
          end)
       tags o)
  = if mem tag tags then Some (categoryOf rules tag)
    else JsObject.get tag o.
Proof.
  revert o. induction tags as [|t r IH]; intros o; [reflexivity|].
  simpl fold_left. rewrite IH. simpl mem.
  destruct (mem tag r) eqn:Hm; [rewrite orb_true_r; reflexivity|].
  rewrite orb_false_r.
  destruct (tag =? t) eqn:E.
  - apply String.eqb_eq in E. subst t. unfold categoryOf.
    destruct (Taxonomy.assignCategory tag (JsObject.entries rules));
      rewrite obj_get_set_same; reflexivity.
  - apply String.eqb_neq in E.
    destruct (Taxonomy.assignCategory t (JsObject.entries rules));
      rewrite obj_get_set_other by congruence; reflexivity.
Qed.

Lemma classify_some (rules : TaxonomyRules) (tags : list string)
      (tag : string) :
  In tag tags ->
  JsObject.get tag (Taxonomy.classifyTags tags (Some rules))
  = Some (categoryOf rules tag).
Proof.
  intros Hin. unfold Taxonomy.classifyTags. rewrite classify_fold.
  apply mem_In in Hin. rewrite Hin. reflexivity.
Qed.

Lemma fromEntries_constant (v : string) (tags : list string) (tag : string)
      (o : JsObject.t string) :
  JsObject.get tag
    (fold_left (fun o e => JsObject.set (fst e) (snd e) o)
               (map (fun t => (t, v)) tags) o)
  = if mem tag tags then Some v else JsObject.get tag o.
Proof.
  revert o. induction tags as [|t r IH]; intros o; [reflexivity|].
  simpl. rewrite IH.
  destruct (mem tag r) eqn:Hm; [rewrite orb_true_r; reflexivity|].
  rewrite orb_false_r.
  destruct (tag =? t) eqn:E.
  - apply String.eqb_eq in E. subst t. apply obj_get_set_same.
  - apply String.eqb_neq in E. apply obj_get_set_other. congruence.
Qed.

Lemma classify_none (tags : list string) (tag : string) :
  In tag tags ->
  JsObject.get tag (Taxonomy.classifyTags tags None) = Some "uncategorized".
Proof.
  intros Hin. unfold Taxonomy.classifyTags, JsObject.fromEntries.
  rewrite fromEntries_constant.
  apply mem_In in Hin. rewrite Hin. reflexivity.
Qed.

End WithHost.

End ClassifyFacts.

(** C8 (amended): the merge classifies each of its tags under the first
    category, in the order [Object.entries] lists the configured taxonomy,
    whose [includes] holds an entry with the tag's key (entry and tag
    normalised and case-folded alike) or whose non-empty pattern compiles
    and matches the tag as it stands; a tag no rule matches, and every tag
    under an absent taxonomy, is [uncategorized]; a pattern that does not
    compile leaves its rule with the [includes] test alone.  The order of
    [Object.entries] is the order the categories are declared in when their
    names are pairwise distinct and none is an array index. *)
Theorem classification_takes_first_matching_category :
  forall (host : Host) (own proposed : list string)
         (historical : option (list string)) (config : TagSyncConfig)
         (tag : string),
    let result := Taxonomy.mergeTags own proposed historical config in
    In tag (tags result) ->
    match taxonomyRules config with
    | None => JsObject.get tag (classification result) = Some "uncategorized"
    | Some rules =>
        (forall (pre : list (string * TaxonomyRule)) (category : string)
                (rule : TaxonomyRule) (post : list (string * TaxonomyRule)),
            rules = pre ++ (category, rule) :: post ->
            (forall e, In e pre -> ~ Spec.ruleMatches (snd e) tag) ->
            Spec.ruleMatches rule tag ->
            JsObject.get tag (classification result) = Some category)
        /\ ((forall e, In e rules -> ~ Spec.ruleMatches (snd e) tag) ->
            JsObject.get tag (classification result) = Some "uncategorized")
    end
    /\ (forall (rule : TaxonomyRule) (p : string),
           pattern rule = Some p -> regExpTest p "i" tag = None ->
           (Spec.ruleMatches rule tag <-> Spec.includesKey rule tag))
    /\ (forall declared : list (string * TaxonomyRule),
           NoDup (map fst declared) ->
           (forall name,
               In name (map fst declared) -> JsObject.arrayIndex name = None) ->
           JsObject.entries (JsObject.fromEntries declared) = declared).
Proof.
  intros host own proposed historical config tag result Hin.
  assert (Hclass : classification result
                   = Taxonomy.classifyTags (tags result) (taxonomyRules config))
    by reflexivity.
  rewrite Hclass. split.
  - destruct (taxonomyRules config) as [rules|].
    + split.
      * intros pre category rule post -> Hpre Hrule.
        rewrite (ClassifyFacts.classify_some _ _ _ Hin).
        unfold ClassifyFacts.categoryOf, JsObject.entries.
        rewrite (ClassifyFacts.assignCategory_first tag pre category rule post
                                                    Hpre Hrule).
        reflexivity.
      * intros Hall.
        rewrite (ClassifyFacts.classify_some _ _ _ Hin).
        unfold ClassifyFacts.categoryOf, JsObject.entries.
        rewrite (ClassifyFacts.assignCategory_none tag rules Hall).
        reflexivity.
    + apply ClassifyFacts.classify_none. exact Hin.
  - split.
    + intros rule p Hp Hnone. split.
      * intros [Hi|[q [Hq [_ Hr]]]]; [exact Hi|].
        rewrite Hp in Hq. injection Hq as <-. congruence.
      * intros Hi. left. exact Hi.
    + intros declared Hnd Hplain.
      unfold JsObject.entries, JsObject.fromEntries.
      rewrite SortFacts.fromEntries_plain; try assumption; [reflexivity|].
      intros name _. reflexivity.
Qed.

(** C8, an instance: the first category names the tag and the second has
    a pattern matching it; the tag is put in the first. *)
Lemma classification_example :
  JsObject.get "Rust"
    (classification
       (@Taxonomy.mergeTags ExampleHost.host ["Rust"] [] None
          (Examples.configWith
             [("languages", ClassifyFacts.plainRule ["rust"]);
              ("systems", ClassifyFacts.patternRule "rust")])))
  = Some "languages".
Proof.
  refine (proj1 (proj1 (classification_takes_first_matching_category
                          ExampleHost.host ["Rust"] [] None
                          (Examples.configWith
                             [("languages", ClassifyFacts.plainRule ["rust"]);
                              ("systems", ClassifyFacts.patternRule "rust")])
                          "Rust" _))
                [] "languages" (ClassifyFacts.plainRule ["rust"])
                [("systems", ClassifyFacts.patternRule "rust")] eq_refl _ _).
  - left. reflexivity.
  - intros e [].
  - left. exists "rust". split; [left; reflexivity | reflexivity].
Defined.

(** C8, a counterexample to the sentence as specified: an [includes] entry
    that differs from the tag by its separator is no case-insensitive match
    of the tag, and the rule has no pattern, yet the tag is classified under
    it; a rule whose pattern is the empty string, which matches every tag,
    is passed over; and of two categories that both name the tag, the one
    declared second wins when its name is an array index. *)
Lemma classification_is_not_plain_containment :
  @Spec.includesIgnoringCase ExampleHost.host
    (ClassifyFacts.plainRule ["web_dev"]) "web dev"
  = false
  /\ pattern (ClassifyFacts.plainRule ["web_dev"]) = None
  /\ tags (@Taxonomy.mergeTags ExampleHost.host ["web dev"] [] None
             (Examples.configWith
                [("frontend", ClassifyFacts.plainRule ["web_dev"])]))
     = ["web dev"]
  /\ JsObject.get "web dev"
       (classification
          (@Taxonomy.mergeTags ExampleHost.host ["web dev"] [] None
             (Examples.configWith
                [("frontend", ClassifyFacts.plainRule ["web_dev"])])))
     = Some "frontend"
  /\ @regExpTest ExampleHost.host "" "i" "web dev" = Some true
  /\ JsObject.get "web dev"
       (classification
          (@Taxonomy.mergeTags ExampleHost.host ["web dev"] [] None
             (Examples.configWith
                [("everything", ClassifyFacts.patternRule "")])))
     = Some "uncategorized"
  /\ JsObject.entries
       (JsObject.fromEntries
          [("languages", ClassifyFacts.plainRule ["rust"]);
           ("2024", ClassifyFacts.plainRule ["rust"])])
     = [("2024", ClassifyFacts.plainRule ["rust"]);
        ("languages", ClassifyFacts.plainRule ["rust"])]
  /\ JsObject.get "rust"
       (classification
          (@Taxonomy.mergeTags ExampleHost.host ["rust"] [] None
             (Examples.configWith
                (JsObject.fromEntries
                   [("languages", ClassifyFacts.plainRule ["rust"]);
                    ("2024", ClassifyFacts.plainRule ["rust"])]))))
     = Some "2024".
Proof. repeat split; reflexivity. Qed.

(* ================================================================== *)
(** ** The front-matter synchroniser *)

Module FrontmatterFacts.
Import JsString StringFacts ContainerFacts NormalizeFacts UnionFacts.
Import Frontmatter.

Section WithHost.
Context {host : Host}.

Inductive EntryStatus : Type :=
  | IsUpdated | IsUnchanged | IsMissing | IsFilteredOut.

Definition statusEqb (a b : EntryStatus) : bool :=
  match a, b with
  | IsUpdated, IsUpdated | IsUnchanged, IsUnchanged
  | IsMissing, IsMissing | IsFilteredOut, IsFilteredOut => true
  | _, _ => false
  end.

Lemma dedupeTagsLoop_firstWins (tags : list string) (seen : JsMap.t string) :
  dedupeTagsLoop seen tags = firstWinsLoop trim seen tags.
Proof.
  revert seen. induction tags as [|t r IH]; intros seen; [reflexivity|].
  simpl. rewrite !IH. reflexivity.
Qed.

Lemma dedupeTags_values (tags : list string) :
  JsMap.values (dedupeTagsLoop JsMap.empty tags)
  = Spec.orderedUnionFrom trim [] tags.
Proof.
  rewrite dedupeTagsLoop_firstWins, loop_values. reflexivity.
Qed.

Lemma union_norm_ext (norm1 norm2 : string -> string) (l s : list string) :
  (forall t, In t l -> norm1 t = norm2 t) ->
  Spec.orderedUnionFrom norm1 s l = Spec.orderedUnionFrom norm2 s l.
Proof.
  revert s. induction l as [|t r IH]; intros s H; [reflexivity|].
  simpl. rewrite (H t (or_introl eq_refl)).
  rewrite !(IH _ (fun t' Ht' => H t' (or_intror Ht'))).
  reflexivity.
Qed.

Lemma trimEnd_word (w z : list ascii) :
  sepFree w -> trimEndChars (w ++ z) = w ++ trimEndChars z.
Proof.
  induction 1 as [|c w Hc Hw IH]; [reflexivity|].
  simpl app. rewrite trimEnd_unit, IH; [reflexivity|].
  apply separator_byte_whitespace. exact Hc.
Qed.

Lemma trimEnd_unwords (ws : list (list ascii)) :
  Forall goodWord ws -> trimEndChars (Spec.unwords ws) = Spec.unwords ws.
Proof.
  induction 1 as [|w rest [Hne Hfree] Hrest IH]; [reflexivity|].
  rewrite unwords_cons, (trimEnd_word _ _ Hfree). f_equal.
  destruct rest as [|r1 rest']; [reflexivity|].
  unfold spaced.
  change (trimEndChars (space :: Spec.unwords (r1 :: rest')))
    with (match trimEndChars (Spec.unwords (r1 :: rest')) with
          | [] => []
          | r' => space :: r'
          end).
  rewrite IH.
  destruct (Spec.unwords (r1 :: rest')) eqn:E; [|reflexivity].
  apply (unwords_nil_iff _ Hrest) in E. discriminate.
Qed.

(** On a normalised tag [trim] has nothing to strip. *)
Lemma trim_normalized (t : string) :
  Taxonomy.normalizeTag t = t -> trim t = Taxonomy.normalizeTag t.
Proof.
  intros Hfix. rewrite Hfix. rewrite <- Hfix at 1.
  rewrite normalizeTag_chars.
  unfold trim, onChars.
  rewrite list_ascii_of_string_of_list_ascii.
  rewrite (trimChars_alone _ (normChars_scan _)), normChars_words.
  rewrite trimEnd_unwords by apply tagWords_good.
  rewrite joined_head by apply tagWords_good.
  rewrite <- normChars_words, <- normalizeTag_chars. exact Hfix.
Qed.

Lemma itemsEqual_eq (a b : list string) :
  List.length a = List.length b -> (itemsEqual a b = true <-> a = b).
Proof.
  revert b. induction a as [|x a IH]; intros [|y b] Hlen;
    try discriminate; simpl.
  - split; reflexivity.
  - injection Hlen as Hlen. destruct (x =? y) eqn:E; simpl.
    + apply String.eqb_eq in E. subst y. rewrite (IH b Hlen).
      split; [intros ->; reflexivity | intros H; injection H; trivial].
    + apply String.eqb_neq in E.
      split; [discriminate | intros H; injection H; intros; congruence].
Qed.

Lemma arraysEqual_eq (a b : list string) : arraysEqual a b = true <-> a = b.
Proof.
  unfold arraysEqual.
  destruct (List.length a =? List.length b)%nat eqn:E; simpl.
  - apply Nat.eqb_eq in E. apply itemsEqual_eq. exact E.
  - apply Nat.eqb_neq in E.
    split; [discriminate | intros ->; congruence].
Qed.


Lemma dedupeTags_union (tags : list string) (sort : bool) :
  dedupeTags tags sort
  = if sort
    then arraySort (localeCompare "zh-CN")
                   (Spec.orderedUnionFrom trim [] tags)
    else Spec.orderedUnionFrom trim [] tags.
Proof. unfold dedupeTags. rewrite dedupeTags_values. reflexivity. Qed.

Lemma dedupeTags_dedupe (tags : list string) (sort : bool) :
  Forall (fun t => Taxonomy.normalizeTag t = t) tags ->
  dedupeTags tags sort = Taxonomy.dedupe tags sort.
Proof.
  intros Hall. rewrite dedupeTags_union.
  unfold Taxonomy.dedupe. rewrite TaxonomyFacts.dedupe_values.
  unfold Spec.orderedUnion.
  rewrite (union_norm_ext trim Taxonomy.normalizeTag tags []);
    [reflexivity|].
  rewrite Forall_forall in Hall.
  intros t Ht. apply trim_normalized. apply Hall. exact Ht.
Qed.

Section Sync.
Variable options : FrontmatterSyncOptions.
Variable postMap : JsMap.t LoadedPost.
Variable filterApplied : bool.
Variable workspaceRoot : string.
Variable fileExists : string -> bool.

Definition entryPath (entry : string * list string) : string :=
  Utils.toPosix (fst entry).

(** The list an entry's path is pushed on. *)
Definition statusOf (entry : string * list string) : EntryStatus :=
  match JsMap.get (entryPath entry) postMap with
  | None =>
      if filterApplied then IsFilteredOut
      else if fileExists (pathResolve workspaceRoot (entryPath entry))
           then IsFilteredOut
           else IsMissing
  | Some post =>
      if arraysEqual
           (dedupeTags (snd entry) (sortTags options))
           (dedupeTags (Utils.ensureArray (frontMatterTagsValue post))
                       (sortTags options))
      then IsUnchanged
      else IsUpdated
  end.

Definition pathsOf (status : EntryStatus)
           (entries : list (string * list string)) : list string :=
  map entryPath
      (List.filter (fun e => statusEqb (statusOf e) status) entries).

Lemma sync_fold (entries : list (string * list string))
      (acc : FrontmatterSyncResult) :
  let result :=
    fold_left
      (syncEntry options postMap filterApplied workspaceRoot fileExists)
      entries acc in
  updated result = updated acc ++ pathsOf IsUpdated entries
  /\ unchanged result = unchanged acc ++ pathsOf IsUnchanged entries
  /\ missing result = missing acc ++ pathsOf IsMissing entries
  /\ filteredOut result
     = filteredOut acc ++ pathsOf IsFilteredOut entries.
Proof.
  revert acc. induction entries as [|[rawPath tagList] r IH]; intros acc.
  - simpl. unfold pathsOf. simpl. rewrite !app_nil_r. repeat split.
  - set (step := syncEntry options postMap filterApplied workspaceRoot
                           fileExists) in *.
    change (fold_left step ((rawPath, tagList) :: r) acc)
      with (fold_left step r (step acc (rawPath, tagList))).
    specialize (IH (step acc (rawPath, tagList))).
    cbv zeta in IH. destruct IH as [Hu [Hn [Hm Hf]]].
    cbv zeta. rewrite Hu, Hn, Hm, Hf. clear Hu Hn Hm Hf.
    unfold pathsOf. simpl List.filter.
    unfold step, syncEntry, statusOf, entryPath. simpl fst. simpl snd.
    destruct (JsMap.get (Utils.toPosix rawPath) postMap) as [post|].
    + destruct (arraysEqual _ _); simpl;
        rewrite <- ?app_assoc; repeat split; reflexivity.
    + destruct filterApplied; simpl;
        [rewrite <- ?app_assoc; repeat split; reflexivity|].
      destruct (fileExists _); simpl;
        rewrite <- ?app_assoc; repeat split; reflexivity.
Qed.
End Sync.

(** [postMap], the loaded corpus by POSIX path. *)
Definition postMapOf (posts : list LoadedPost) : JsMap.t LoadedPost :=
  JsMap.ofEntries
    (map (fun post => (Utils.toPosix (relativePath post), post)) posts).

(** [options.filter.trim().length > 0]. *)
Definition filterActive (options : FrontmatterSyncOptions) : bool :=
  (0 <? String.length (trim (filter options)))%nat.

Lemma sync_lists (tagsMap : TagsMap) (posts : list LoadedPost)
      (workspaceRoot : string) (fileExists : string -> bool)
      (options : FrontmatterSyncOptions) :
  let result :=
    syncFrontmatterFromTags tagsMap posts workspaceRoot fileExists options in
  let paths status :=
    pathsOf options (postMapOf posts) (filterActive options) workspaceRoot
            fileExists status (JsObject.entries tagsMap) in
  updated result = paths IsUpdated
  /\ unchanged result = paths IsUnchanged
  /\ missing result = paths IsMissing
  /\ filteredOut result = paths IsFilteredOut.
Proof.
  cbv zeta. unfold syncFrontmatterFromTags.
  destruct (List.length (JsObject.entries tagsMap) =? 0)%nat eqn:E.
  - apply Nat.eqb_eq in E. apply length_zero_iff_nil in E.
    rewrite E. repeat split.
  - pose proof
         (sync_fold options (postMapOf posts) (filterActive options)
                    workspaceRoot fileExists (JsObject.entries tagsMap)
                    {| updated := []; unchanged := []; missing := [];
                       filteredOut := [];
                       totalEntries :=
                         List.length (JsObject.entries tagsMap);
                       written := [] |}) as H.
    cbv zeta in H. exact H.
Qed.

Lemma in_pathsOf (options : FrontmatterSyncOptions)
      (postMap : JsMap.t LoadedPost) (filterApplied : bool)
      (workspaceRoot : string) (fileExists : string -> bool)
      (status : EntryStatus) (entries : list (string * list string))
      (path : string) :
  In path (pathsOf options postMap filterApplied workspaceRoot fileExists
                   status entries)
  <-> exists rawPath tagList,
      In (rawPath, tagList) entries /\ path = Utils.toPosix rawPath
      /\ statusOf options postMap filterApplied workspaceRoot fileExists
                  (rawPath, tagList) = status.
Proof.
  unfold pathsOf. rewrite in_map_iff. split.
  - intros [[rawPath tagList] [Hp Hin]].
    apply filter_In in Hin. destruct Hin as [Hin Hs].
    exists rawPath, tagList. repeat split; [exact Hin | symmetry; exact Hp |].
    destruct (statusOf _ _ _ _ _ _), status; try discriminate; reflexivity.
  - intros [rawPath [tagList [Hin [-> Hs]]]].
    exists (rawPath, tagList). split; [reflexivity|].
    apply filter_In. split; [exact Hin|].
    rewrite Hs. destruct status; reflexivity.
Qed.

End WithHost.

End FrontmatterFacts.

Module SyncExamples.

Definition options (pathFilter : string) : Frontmatter.FrontmatterSyncOptions :=
  {| Frontmatter.dryRun := true; Frontmatter.filter := pathFilter;
     Frontmatter.includeDrafts := false; Frontmatter.sortTags := false |}.

Definition post (path : string) (ownTags : list string) : LoadedPost :=
  {| relativePath := path; title := "t"; frontMatterTags := ownTags;
     frontMatterTagsValue := FmArray ownTags; content := "" |}.

Definition emptyDisk (path : string) : bool := false.

End SyncExamples.

(** C2 (amended): a referenced document that is in the loaded corpus is
    [unchanged] exactly when the index's tag list and the document's own
    tags are the same list after [dedupeTags]; [dedupeTags] trims each
    tag, drops empty ones, keeps the first tag of every case-insensitive
    key and sorts as the merger does, but collapses no separator runs; on
    lists of tags that are already normalised, such as the merger's, it
    returns what the merger's [dedupe] returns. *)
Theorem sync_compares_trimmed_tag_lists :
  forall (host : Host) (tagsMap : TagsMap) (posts : list LoadedPost)
         (workspaceRoot : string) (fileExists : string -> bool)
         (options : Frontmatter.FrontmatterSyncOptions),
    let result :=
      Frontmatter.syncFrontmatterFromTags tagsMap posts workspaceRoot
                                          fileExists options in
    (forall path,
        In path (Frontmatter.unchanged result) <->
        exists rawPath tagList post,
          In (rawPath, tagList) (JsObject.entries tagsMap)
          /\ path = Utils.toPosix rawPath
          /\ JsMap.get path (FrontmatterFacts.postMapOf posts) = Some post
          /\ Frontmatter.dedupeTags tagList (Frontmatter.sortTags options)
             = Frontmatter.dedupeTags
                 (Utils.ensureArray (frontMatterTagsValue post))
                 (Frontmatter.sortTags options))
    /\ (forall tagList sort,
           Frontmatter.dedupeTags tagList sort
           = if sort
             then arraySort (localeCompare "zh-CN")
                            (Spec.orderedUnionFrom JsString.trim [] tagList)
             else Spec.orderedUnionFrom JsString.trim [] tagList)
    /\ (forall tagList sort,
           Forall (fun t => Taxonomy.normalizeTag t = t) tagList ->
           Frontmatter.dedupeTags tagList sort = Taxonomy.dedupe tagList sort).
Proof.
  intros host tagsMap posts workspaceRoot fileExists options result.
  split; [|split].
  - intros path.
    destruct (FrontmatterFacts.sync_lists tagsMap posts workspaceRoot
                                          fileExists options)
      as [_ [Hn _]].
    cbv zeta in Hn. unfold result. rewrite Hn.
    rewrite FrontmatterFacts.in_pathsOf. split.
    + intros [rawPath [tagList [Hin [Hp Hs]]]].
      unfold FrontmatterFacts.statusOf, FrontmatterFacts.entryPath in Hs.
      simpl fst in Hs. simpl snd in Hs. rewrite <- Hp in Hs.
      destruct (JsMap.get path (FrontmatterFacts.postMapOf posts))
        as [post|] eqn:Hget.
      * exists rawPath, tagList, post. repeat split; try assumption.
        destruct (Frontmatter.arraysEqual _ _) eqn:E; [|discriminate].
        apply FrontmatterFacts.arraysEqual_eq. exact E.
      * destruct (FrontmatterFacts.filterActive options); [discriminate|].
        destruct (fileExists _); discriminate.
    + intros [rawPath [tagList [post [Hin [Hp [Hget Heq]]]]]].
      exists rawPath, tagList. repeat split; try assumption.
      unfold FrontmatterFacts.statusOf, FrontmatterFacts.entryPath.
      simpl fst. simpl snd. rewrite <- Hp, Hget.
      apply FrontmatterFacts.arraysEqual_eq in Heq. rewrite Heq. reflexivity.
  - intros tagList sort. apply FrontmatterFacts.dedupeTags_union.
  - intros tagList sort. apply FrontmatterFacts.dedupeTags_dedupe.
Qed.

(** C2, a counterexample to the sentence as specified: the index holds [a_b] and the
    document [a b]; the merger's normalisation makes both [a b], yet
    [dedupeTags] keeps the underscore and the document is reported as
    updated. *)
Lemma sync_does_not_collapse_separators :
  @Taxonomy.dedupe ExampleHost.host ["a_b"] false
  = @Taxonomy.dedupe ExampleHost.host ["a b"] false
  /\ @Frontmatter.dedupeTags ExampleHost.host ["a_b"] false = ["a_b"]
  /\ Frontmatter.unchanged
       (@Frontmatter.syncFrontmatterFromTags ExampleHost.host
          [("p.md", ["a_b"])] [SyncExamples.post "p.md" ["a b"]]
          "/blog" SyncExamples.emptyDisk (SyncExamples.options ""))
     = []
  /\ Frontmatter.updated
       (@Frontmatter.syncFrontmatterFromTags ExampleHost.host
          [("p.md", ["a_b"])] [SyncExamples.post "p.md" ["a b"]]
          "/blog" SyncExamples.emptyDisk (SyncExamples.options ""))
     = ["p.md"].
Proof. repeat split; reflexivity. Qed.

(** C4 (amended): a referenced identifier that is not in the loaded corpus
    is reported [missing] exactly when no path filter is active and the
    file is absent from disk, and [filteredOut] exactly when a path filter
    is active (whether or not the file exists) or the file is on disk. *)
Theorem missing_needs_no_filter_and_no_file :
  forall (host : Host) (tagsMap : TagsMap) (posts : list LoadedPost)
         (workspaceRoot : string) (fileExists : string -> bool)
         (options : Frontmatter.FrontmatterSyncOptions),
    let result :=
      Frontmatter.syncFrontmatterFromTags tagsMap posts workspaceRoot
                                          fileExists options in
    (forall path,
        In path (Frontmatter.missing result) <->
        exists rawPath tagList,
          In (rawPath, tagList) (JsObject.entries tagsMap)
          /\ path = Utils.toPosix rawPath
          /\ JsMap.get path (FrontmatterFacts.postMapOf posts) = None
          /\ FrontmatterFacts.filterActive options = false
          /\ fileExists (pathResolve workspaceRoot path) = false)
    /\ (forall path,
           In path (Frontmatter.filteredOut result) <->
           exists rawPath tagList,
             In (rawPath, tagList) (JsObject.entries tagsMap)
             /\ path = Utils.toPosix rawPath
             /\ JsMap.get path (FrontmatterFacts.postMapOf posts) = None
             /\ (FrontmatterFacts.filterActive options = true
                 \/ fileExists (pathResolve workspaceRoot path) = true)).
Proof.
  intros host tagsMap posts workspaceRoot fileExists options result.
  destruct (FrontmatterFacts.sync_lists tagsMap posts workspaceRoot
                                        fileExists options)
    as [_ [_ [Hm Hf]]].
  cbv zeta in Hm, Hf. unfold result. rewrite Hm, Hf. clear Hm Hf.
  split; intros path; rewrite FrontmatterFacts.in_pathsOf; split.
  - intros [rawPath [tagList [Hin [Hp Hs]]]].
    exists rawPath, tagList.
    unfold FrontmatterFacts.statusOf, FrontmatterFacts.entryPath in Hs.
    simpl fst in Hs. simpl snd in Hs. rewrite <- Hp in Hs.
    destruct (JsMap.get path (FrontmatterFacts.postMapOf posts)) as [post|].
    + destruct (Frontmatter.arraysEqual _ _); discriminate.
    + destruct (FrontmatterFacts.filterActive options); [discriminate|].
      destruct (fileExists (pathResolve workspaceRoot path)) eqn:E;
        [discriminate|].
      repeat split; assumption.
  - intros [rawPath [tagList [Hin [Hp [Hget [Hfa Hfe]]]]]].
    exists rawPath, tagList. repeat split; try assumption.
    unfold FrontmatterFacts.statusOf, FrontmatterFacts.entryPath.
    simpl fst. simpl snd. rewrite <- Hp, Hget, Hfa, Hfe. reflexivity.
  - intros [rawPath [tagList [Hin [Hp Hs]]]].
    exists rawPath, tagList.
    unfold FrontmatterFacts.statusOf, FrontmatterFacts.entryPath in Hs.
    simpl fst in Hs. simpl snd in Hs. rewrite <- Hp in Hs.
    destruct (JsMap.get path (FrontmatterFacts.postMapOf posts)) as [post|].
    + destruct (Frontmatter.arraysEqual _ _); discriminate.
    + repeat split; try assumption.
      destruct (FrontmatterFacts.filterActive options); [left; reflexivity|].
      destruct (fileExists (pathResolve workspaceRoot path)) eqn:E;
        [right; reflexivity | discriminate].
  - intros [rawPath [tagList [Hin [Hp [Hget Hor]]]]].
    exists rawPath, tagList. repeat split; try assumption.
    unfold FrontmatterFacts.statusOf, FrontmatterFacts.entryPath.
    simpl fst. simpl snd. rewrite <- Hp, Hget.
    destruct (FrontmatterFacts.filterActive options); [reflexivity|].
    destruct Hor as [Hfa|Hfe]; [discriminate|].
    rewrite Hfe. reflexivity.
Qed.

(** C4, a counterexample to the sentence as specified: under an active path filter a
    referenced file that is absent from disk is reported [filteredOut],
    not [missing]. *)
Lemma absent_file_under_filter_is_filteredOut :
  SyncExamples.emptyDisk
    (@pathResolve ExampleHost.host "/blog" "source/_posts/gone.md") = false
  /\ Frontmatter.missing
       (@Frontmatter.syncFrontmatterFromTags ExampleHost.host
          [("source/_posts/gone.md", ["x"])] []
          "/blog" SyncExamples.emptyDisk (SyncExamples.options "Android/"))
     = []
  /\ Frontmatter.filteredOut
       (@Frontmatter.syncFrontmatterFromTags ExampleHost.host
          [("source/_posts/gone.md", ["x"])] []
          "/blog" SyncExamples.emptyDisk (SyncExamples.options "Android/"))
     = ["source/_posts/gone.md"].
Proof. repeat split; reflexivity. Qed.

(* ================================================================== *)
(** ** The generation loop *)

Module LlmFacts.
Import JsString StringFacts ContainerFacts.
Import Llm.



Definition retriesOf {St} (options : GenerateTagOptions St) : Z :=
  match retries options with Some n => n | None => 2%Z end.

(** [historicalTagsMap], as [generateTags] copies it from the options. *)
Definition initialHistory {St} (options : GenerateTagOptions St) : TagsMap :=
  JsObject.fromEntries
    (JsObject.entries
       (match historicalTags options with
        | Some h => h
        | None => JsObject.empty
        end)).

Definition historyIn (m : TagsMap) (path : string) : list string :=
  match JsObject.get path m with Some l => l | None => [] end.

Section WithHost.
Context {host : Host}.


Section Task.
Context {St : Type}.
Variable config : TagSyncConfig.
Variable options : GenerateTagOptions St.
Variable fetch : string -> Z -> FetchOutcome.

Definition backoff (attempt : Z) (st : GenState St) : GenState St :=
  if (0 <? attempt)%Z
  then logSleep (Z.min (2000 * attempt) 5000) st
  else st.

Definition responseAt (post : LoadedPost) (attempt : Z) : LlmResponse :=
  callChatCompletion config (fetch (relativePath post) attempt).

Lemma attemptLoop_turn post historyTags turns attempt lastError
      (st : GenState St) :
  attemptLoop config options fetch post historyTags (S turns) attempt
              lastError st
  = match record config options post historyTags
                 (responseAt post attempt)
                 (resp_tags (responseAt post attempt))
                 (countCall (backoff attempt st)) with
    | (st2, None) => inl st2
    | (st2, Some message) =>
        attemptLoop config options fetch post historyTags turns
                    (attempt + 1)%Z (Some message) st2
    end.
Proof. reflexivity. Qed.

(** *** What the callback keeps, the run keeps *)
Section CallerInvariant.
Variable Q : St -> Prop.
Hypothesis callback_keeps :
  forall post merged s, Q s -> Q (fst (notify options post merged s)).

Lemma record_keeps post historyTags response proposed (st : GenState St) :
  Q (caller st) ->
  Q (caller (fst (record config options post historyTags response
                         proposed st))).
Proof.
  intros HQ. unfold record.
  pose proof (callback_keeps post
                (Taxonomy.mergeTags (frontMatterTags post) proposed
                                    (Some historyTags) config)
                (caller st) HQ) as H.
  destruct (notify options post _ (caller st)) as [s' thrown].
  exact H.
Qed.

Lemma attemptLoop_keeps post historyTags turns attempt lastError
      (st : GenState St) :
  Q (caller st) ->
  match attemptLoop config options fetch post historyTags turns
                    attempt lastError st with
  | inl st' => Q (caller st')
  | inr (st', _) => Q (caller st')
  end.
Proof.
  revert attempt lastError st.
  induction turns as [|turns IH]; intros attempt lastError st HQ;
    [exact HQ|].
  rewrite attemptLoop_turn.
  assert (HQ1 : Q (caller (countCall (backoff attempt st)))).
  { unfold backoff. destruct (0 <? attempt)%Z; exact HQ. }
  pose proof (record_keeps post historyTags
                (responseAt post attempt)
                (resp_tags (responseAt post attempt))
                (countCall (backoff attempt st)) HQ1) as Hrec.
  destruct (record config options post historyTags _ _
                   (countCall (backoff attempt st)))
    as [st2 thrown].
  simpl in Hrec. destruct thrown; [apply IH; exact Hrec | exact Hrec].
Qed.

Lemma processPost_keeps retries post (st : GenState St) :
  Q (caller st) ->
  Q (caller (fst (processPost config options fetch retries post st))).
Proof.
  intros HQ. unfold processPost.
  pose proof (attemptLoop_keeps post
                (match JsObject.get (relativePath post)
                                    (historicalTagsMap st) with
                 | Some l => l
                 | None => []
                 end)
                (Z.to_nat (retries + 1)) 0%Z None st HQ) as H.
  destruct (attemptLoop config options fetch post _ _ _ _ st)
    as [st'|[st' [lastError|]]]; try exact H.
  apply record_keeps. exact H.
Qed.

Lemma runTasks_keeps retries posts (st : GenState St) :
  Q (caller st) ->
  Q (caller (fst (runTasks config options fetch retries posts st))).
Proof.
  revert st. induction posts as [|post rest IH]; intros st HQ;
    [exact HQ|].
  simpl.
  pose proof (processPost_keeps retries post st HQ) as H.
  destruct (processPost config options fetch retries post st)
    as [st' thrown].
  specialize (IH st' H).
  destruct (runTasks config options fetch retries rest st') as [st'' later].
  exact IH.
Qed.

Lemma generateTags_keeps posts (s0 : St) :
  Q s0 ->
  Q (caller (fst (generateTags config options fetch posts s0))).
Proof.
  intros HQ. unfold generateTags.
  destruct (negb (truthy (apiKey config))); [exact HQ|].
  apply runTasks_keeps. exact HQ.
Qed.
End CallerInvariant.
End Task.
End WithHost.

End LlmFacts.

(** *** Runs whose callback does not throw *)

Module QuietRun.
Import JsString StringFacts ContainerFacts.
Import Llm LlmFacts.


Section WithHost.
Context {host : Host} {St : Type}.
Variable config : TagSyncConfig.
Variable options : GenerateTagOptions St.
Variable fetch : string -> Z -> FetchOutcome.

(** The merge a task makes of its first response. *)
Definition mergedAt (post : LoadedPost) (history : TagsMap) : MergeResult :=
  Taxonomy.mergeTags (frontMatterTags post)
    (resp_tags (responseAt config fetch post 0))
    (Some (historyIn history (relativePath post))) config.

(** What a task that returns from its first turn leaves. *)
Definition task (post : LoadedPost) (st : GenState St) : GenState St :=
  fst (record config options post
              (historyIn (historicalTagsMap st) (relativePath post))
              (responseAt config fetch post 0)
              (resp_tags (responseAt config fetch post 0))
              (countCall st)).

Lemma record_thrown post historyTags response proposed (st : GenState St) :
  snd (record config options post historyTags response proposed st)
  = snd (notify options post
                (Taxonomy.mergeTags (frontMatterTags post) proposed
                                    (Some historyTags) config)
                (caller st)).
Proof.
  unfold record. destruct (notify options post _ (caller st)). reflexivity.
Qed.

Lemma record_state post historyTags response proposed (st : GenState St) :
  let st' :=
    fst (record config options post historyTags response proposed st) in
  let merged :=
    Taxonomy.mergeTags (frontMatterTags post) proposed (Some historyTags)
                       config in
  results st' = JsMap.set (relativePath post) response (results st)
  /\ merges st' = JsMap.set (relativePath post) merged (merges st)
  /\ historicalTagsMap st'
     = JsObject.set (relativePath post) (tags merged) (historicalTagsMap st)
  /\ sleeps st' = sleeps st
  /\ calls st' = calls st.
Proof.
  cbv zeta. unfold record.
  destruct (notify options post _ (caller st)). repeat split.
Qed.

Lemma task_state (post : LoadedPost) (st : GenState St) :
  results (task post st)
  = JsMap.set (relativePath post) (responseAt config fetch post 0)
              (results st)
  /\ merges (task post st)
     = JsMap.set (relativePath post) (mergedAt post (historicalTagsMap st))
                 (merges st)
  /\ historicalTagsMap (task post st)
     = JsObject.set (relativePath post)
                    (tags (mergedAt post (historicalTagsMap st)))
                    (historicalTagsMap st)
  /\ sleeps (task post st) = sleeps st
  /\ calls (task post st) = S (calls st).
Proof.
  pose proof (record_state post
                (historyIn (historicalTagsMap st) (relativePath post))
                (responseAt config fetch post 0)
                (resp_tags (responseAt config fetch post 0))
                (countCall st)) as H.
  cbv zeta in H. exact H.
Qed.

Hypothesis quiet : forall post merged s, snd (notify options post merged s) = None.

Lemma processPost_quiet (retries : Z) (post : LoadedPost) (st : GenState St) :
  (0 <= retries)%Z ->
  processPost config options fetch retries post st = (task post st, None).
Proof.
  intros Hr. unfold processPost.
  destruct (Z.to_nat (retries + 1)) as [|turns] eqn:E; [lia|].
  rewrite attemptLoop_turn.
  change (backoff 0 st) with st.
  fold (historyIn (historicalTagsMap st) (relativePath post)).
  pose proof (record_thrown post
                (historyIn (historicalTagsMap st) (relativePath post))
                (responseAt config fetch post 0)
                (resp_tags (responseAt config fetch post 0))
                (countCall st)) as Hthrown.
  rewrite quiet in Hthrown. unfold task.
  destruct (record config options post _ _ _ (countCall st))
    as [st2 thrown].
  simpl in Hthrown. subst thrown. reflexivity.
Qed.

Definition tasks (posts : list LoadedPost) (st : GenState St) : GenState St :=
  fold_left (fun st post => task post st) posts st.

Lemma runTasks_quiet (retries : Z) (posts : list LoadedPost)
      (st : GenState St) :
  (0 <= retries)%Z ->
  runTasks config options fetch retries posts st = (tasks posts st, None).
Proof.
  intros Hr. revert st. induction posts as [|post rest IH]; intros st;
    [reflexivity|].
  simpl. rewrite (processPost_quiet retries post st Hr), IH. reflexivity.
Qed.

Lemma tasks_counts (posts : list LoadedPost) (st : GenState St) :
  sleeps (tasks posts st) = sleeps st
  /\ calls (tasks posts st) = calls st + List.length posts.
Proof.
  revert st. induction posts as [|post rest IH]; intros st.
  - simpl. split; [reflexivity | lia].
  - simpl. destruct (IH (task post st)) as [Hs Hc].
    destruct (task_state post st) as [_ [_ [_ [Hs' Hc']]]].
    unfold tasks in *. rewrite Hs, Hc, Hs', Hc'. simpl. split; [reflexivity | lia].
Qed.


Lemma tasks_frame (posts : list LoadedPost) (st : GenState St) (k : string) :
  ~ In k (map relativePath posts) ->
  JsMap.get k (results (tasks posts st)) = JsMap.get k (results st)
  /\ JsMap.get k (merges (tasks posts st)) = JsMap.get k (merges st)
  /\ JsObject.get k (historicalTagsMap (tasks posts st))
     = JsObject.get k (historicalTagsMap st).
Proof.
  revert st. induction posts as [|post rest IH]; intros st Hk;
    [repeat split|].
  simpl in Hk.
  assert (Hne : relativePath post <> k) by (intros E; apply Hk; left; exact E).
  assert (Hrest : ~ In k (map relativePath rest))
    by (intros E; apply Hk; right; exact E).
  simpl. destruct (IH (task post st) Hrest) as [Hr [Hm Hh]].
  destruct (task_state post st) as [Hr' [Hm' [Hh' _]]].
  unfold tasks in *. rewrite Hr, Hm, Hh, Hr', Hm', Hh'.
  rewrite !map_get_set_other, obj_get_set_other by exact Hne.
  repeat split.
Qed.


Lemma generateTags_quiet (posts : list LoadedPost) (s0 : St) :
  truthy (apiKey config) = true -> (0 <= retriesOf options)%Z ->
  generateTags config options fetch posts s0
  = (tasks posts
           {| results := JsMap.empty; merges := JsMap.empty;
              historicalTagsMap := initialHistory options;
              sleeps := []; calls := 0; caller := s0 |},
     None).
Proof.
  intros Hkey Hr. unfold generateTags. rewrite Hkey. simpl negb. cbv iota.
  apply (runTasks_quiet (retriesOf options) posts _ Hr).
Qed.
End WithHost.

End QuietRun.

Module GenerationExamples.

Definition post (path : string) (ownTags : list string) : LoadedPost :=
  {| relativePath := path; title := "t"; frontMatterTags := ownTags;
     frontMatterTagsValue := FmArray ownTags; content := "body" |}.

Definition plain (history : TagsMap) : Llm.GenerateTagOptions unit :=
  {| Llm.retries := None; Llm.historicalTags := Some history;
     Llm.onPostProcessed := None |}.

(** A callback whose persistence fails every time. *)
Definition failing (history : TagsMap) : Llm.GenerateTagOptions unit :=
  {| Llm.retries := None; Llm.historicalTags := Some history;
     Llm.onPostProcessed := Some (fun _ _ s => (s, Some "EIO")) |}.

(** The same with [retries] given. *)
Definition failingWith (n : Z) (history : TagsMap)
  : Llm.GenerateTagOptions unit :=
  {| Llm.retries := Some n; Llm.historicalTags := Some history;
     Llm.onPostProcessed := Some (fun _ _ s => (s, Some "EIO")) |}.

Definition down (path : string) (attempt : Z) : Llm.FetchOutcome :=
  Llm.FetchRejects "ECONNRESET".

(** The response body [["Generated"]]. *)
Definition generated : string :=
  "[" ++ String ExampleHost.quote
                ("Generated" ++ String ExampleHost.quote "]").

(** An adapter that fails twice and succeeds on the third attempt. *)
Definition flaky (path : string) (attempt : Z) : Llm.FetchOutcome :=
  if (attempt <? 2)%Z then Llm.FetchNotOk 503 "busy"
  else Llm.FetchOk (Some generated).

(** An adapter that succeeds at once. *)
Definition up (path : string) (attempt : Z) : Llm.FetchOutcome :=
  Llm.FetchOk (Some generated).

End GenerationExamples.

(** C1, what the code does: with a callback that does not throw, every
    task makes exactly one request and never sleeps, whatever the requests
    come to; an adapter that fails twice and would succeed on the third
    attempt is asked once, no backoff delay is observed and the failure of
    the first attempt is the result; the loop goes round again only when
    its body throws, as with a callback whose persistence fails, and then
    it does sleep [min(2000 * attempt, 5000)] before each further turn. *)
Theorem transport_failures_are_not_retried :
  (forall (host : Host) (St : Type) (config : TagSyncConfig)
          (options : Llm.GenerateTagOptions St)
          (fetch : string -> Z -> Llm.FetchOutcome)
          (posts : list LoadedPost) (s0 : St),
      JsString.truthy (apiKey config) = true ->
      (0 <= LlmFacts.retriesOf options)%Z ->
      (forall p merged s, snd (Llm.notify options p merged s) = None) ->
      let run := Llm.generateTags config options fetch posts s0 in
      Llm.sleeps (fst run) = [] /\ Llm.calls (fst run) = List.length posts)
  /\ (let run :=
        @Llm.generateTags ExampleHost.host unit (Examples.config false)
          (GenerationExamples.plain [("a.md", ["X"])]) GenerationExamples.flaky
          [GenerationExamples.post "a.md" ["Y"]] tt in
      Llm.calls (fst run) = 1
      /\ Llm.sleeps (fst run) = []
      /\ JsMap.get "a.md" (Llm.results (fst run))
         = Some (Llm.failure "HTTP 503: busy")
      /\ option_map tags (JsMap.get "a.md" (Llm.merges (fst run)))
         = Some ["X"; "Y"])
  /\ (let run :=
        @Llm.generateTags ExampleHost.host unit (Examples.config false)
          (GenerationExamples.plain [("a.md", ["X"])]) GenerationExamples.up
          [GenerationExamples.post "a.md" ["Y"]] tt in
      option_map tags (JsMap.get "a.md" (Llm.merges (fst run)))
      = Some ["X"; "Y"; "Generated"])
  /\ (let run :=
        @Llm.generateTags ExampleHost.host unit (Examples.config false)
          (GenerationExamples.failing [("a.md", ["X"])]) GenerationExamples.up
          [GenerationExamples.post "a.md" ["Y"]] tt in
      Llm.calls (fst run) = 3
      /\ Llm.sleeps (fst run) = [2000; 4000]%Z
      /\ snd run = Some "EIO")
  /\ (let run :=
        @Llm.generateTags ExampleHost.host unit (Examples.config false)
          (GenerationExamples.failingWith 3 [("a.md", ["X"])])
          GenerationExamples.up
          [GenerationExamples.post "a.md" ["Y"]] tt in
      Llm.sleeps (fst run) = [2000; 4000; 5000]%Z).
Proof.
  split; [|repeat split; reflexivity].
  intros host St config options fetch posts s0 Hkey Hr Hquiet run.
  unfold run.
  rewrite (QuietRun.generateTags_quiet config options fetch Hquiet posts s0
                                        Hkey Hr).
  simpl fst.
  destruct (QuietRun.tasks_counts config options fetch posts
              {| Llm.results := JsMap.empty; Llm.merges := JsMap.empty;
                 Llm.historicalTagsMap := LlmFacts.initialHistory options;
                 Llm.sleeps := []; Llm.calls := 0; Llm.caller := s0 |})
    as [Hs Hc].
  rewrite Hs, Hc. split; reflexivity.
Qed.

(* ================================================================== *)
(** ** The run: pruning and the writes of [tags.json] *)

Module IndexFacts.
Import JsString StringFacts ContainerFacts.
Import Index.

Lemma filter_comp {A} (f g : A -> bool) (l : list A) :
  List.filter f (List.filter g l) = List.filter (fun x => g x && f x) l.
Proof.
  induction l as [|x l IH]; [reflexivity|].
  simpl. destruct (g x); simpl; [destruct (f x)|]; rewrite IH; reflexivity.
Qed.

Lemma prune_fold {V} (paths keys : list string) (o : JsObject.t V) :
  fold_left
    (fun o key =>
       if negb (mem key paths) then JsObject.delete key o else o)
    keys o
  = List.filter
      (fun e => negb (mem (fst e) keys && negb (mem (fst e) paths))) o.
Proof.
  revert o. induction keys as [|k keys IH]; intros o.
  - simpl. symmetry. apply forallb_filter_id.
    apply forallb_forall. intros x _. reflexivity.
  - simpl fold_left. rewrite IH.
    destruct (mem k paths) eqn:Hk; simpl negb; cbv iota.
    + apply filter_ext. intros [k' v]. simpl.
      destruct (k' =? k) eqn:E; [|reflexivity].
      apply String.eqb_eq in E. subst k'. rewrite Hk.
      simpl. rewrite !andb_false_r. reflexivity.
    + unfold JsObject.delete. rewrite filter_comp.
      apply filter_ext. intros [k' v]. simpl.
      destruct (k' =? k) eqn:E; simpl; [|reflexivity].
      apply String.eqb_eq in E. subst k'. rewrite Hk. reflexivity.
Qed.

Lemma fromEntries_has {V} (es : list (string * V)) (o : JsObject.t V)
      (k : string) :
  JsObject.has k (fold_left (fun o e => JsObject.set (fst e) (snd e) o) es o)
  = mem k (map fst es) || JsObject.has k o.
Proof.
  revert o. induction es as [|[k0 v0] es IH]; intros o; [reflexivity|].
  simpl. rewrite IH, obj_has_set. simpl.
  rewrite (String.eqb_sym k k0).
  destruct (k0 =? k), (mem k (map fst es)); reflexivity.
Qed.

Section WithHost.
Context {host : Host}.
Variable config : TagSyncConfig.
Variable writeFails : nat -> option string.

Lemma pruneAbsent_filter (posts : list LoadedPost) (m : TagsMap) :
  pruneAbsent config posts m
  = if filterApplied config then m
    else List.filter (fun e => mem (fst e) (map relativePath posts)) m.
Proof.
  unfold pruneAbsent. destruct (filterApplied config); [reflexivity|].
  simpl negb. cbv iota. rewrite prune_fold.
  apply filter_ext_in. intros [k v] Hin. simpl.
  assert (Hk : mem k (JsObject.keys m) = true).
  { apply mem_In. unfold JsObject.keys.
    apply in_map_iff. exists (k, v). split; [reflexivity | exact Hin]. }
  rewrite Hk. simpl. apply negb_involutive.
Qed.

(** A value written to the file went through [sortTagsMap]. *)
Definition sortedImage (w : TagsMap) : Prop :=
  exists m, w = sortTagsMap m.

Lemma writeJson_state (value : TagsMap) (st : RunState) :
  tagsMap (fst (writeJson writeFails value st)) = tagsMap st
  /\ (fileWrites (fst (writeJson writeFails value st)) = fileWrites st
      \/ fileWrites (fst (writeJson writeFails value st))
         = fileWrites st ++ [value]).
Proof.
  unfold writeJson. destruct (writeFails (writeCalls st)); simpl.
  - split; [reflexivity | left; reflexivity].
  - split; [reflexivity | right; reflexivity].
Qed.

Lemma scheduleWrite_state (st : RunState) :
  tagsMap (fst (scheduleWrite writeFails st)) = tagsMap st
  /\ (fileWrites (fst (scheduleWrite writeFails st)) = fileWrites st
      \/ fileWrites (fst (scheduleWrite writeFails st))
         = fileWrites st ++ [sortTagsMap (tagsMap st)]).
Proof.
  unfold scheduleWrite. destruct (writeChain st); [split; [|left]; reflexivity|].
  destruct (writeJson_state (sortTagsMap (tagsMap st)) st) as [Ht Hw].
  destruct (writeJson writeFails (sortTagsMap (tagsMap st)) st)
    as [st' [message|]]; simpl in *; split; assumption.
Qed.

Lemma writeTagsFile_state (value : TagsMap) (st : RunState) :
  tagsMap (fst (writeTagsFile config writeFails value st)) = tagsMap st
  /\ (fileWrites (fst (writeTagsFile config writeFails value st))
      = fileWrites st
      \/ fileWrites (fst (writeTagsFile config writeFails value st))
         = fileWrites st ++ [value]).
Proof.
  unfold writeTagsFile. destruct (dryRun config).
  - split; [reflexivity | left; reflexivity].
  - apply writeJson_state.
Qed.

Lemma sortedImage_append (ws : list TagsMap) (ws' : list TagsMap)
      (m : TagsMap) :
  Forall sortedImage ws ->
  ws' = ws \/ ws' = ws ++ [sortTagsMap m] ->
  Forall sortedImage ws'.
Proof.
  intros H [->| ->]; [exact H|].
  apply Forall_app. split; [exact H|].
  constructor; [exists m; reflexivity | constructor].
Qed.

Lemma callback_writes (post : LoadedPost) (merged : MergeResult)
      (s : RunState) :
  Forall sortedImage (fileWrites s) ->
  Forall sortedImage
         (fileWrites (fst (onPostProcessed config writeFails post merged s))).
Proof.
  intros H. unfold onPostProcessed.
  destruct (negb (dryRun config)); [|exact H].
  match goal with
  | |- context [scheduleWrite writeFails ?st1] =>
      destruct (scheduleWrite_state st1) as [_ Hw];
      apply (sortedImage_append (fileWrites s) _ (tagsMap st1) H Hw)
  end.
Qed.


Section Run.
Variable args : CliOptions.
Variable posts : list LoadedPost.
Variable historicalTags : TagsMap.
Variable fetch : string -> Z -> Llm.FetchOutcome.

Definition initial : RunState :=
  {| tagsMap := JsObject.fromEntries (JsObject.entries historicalTags);
     fileWrites := []; writeChain := None; writeCalls := 0 |}.

Definition postsToProcess : list LoadedPost :=
  if match full args with Some b => b | None => false end then posts
  else List.filter
         (fun post =>
            negb (JsObject.has (relativePath post) historicalTags))
         posts.

Definition runOptions : Llm.GenerateTagOptions RunState :=
  {| Llm.retries := None;
     Llm.historicalTags := Some historicalTags;
     Llm.onPostProcessed := Some (onPostProcessed config writeFails) |}.

(** The generation step of the run. *)
Definition generation : Llm.GenState RunState * option string :=
  match postsToProcess with
  | _ :: _ =>
      Llm.generateTags config runOptions fetch postsToProcess initial
  | [] =>
      ({| Llm.results := JsMap.empty; Llm.merges := JsMap.empty;
          Llm.historicalTagsMap := JsObject.empty;
          Llm.sleeps := []; Llm.calls := 0; Llm.caller := initial |},
       None)
  end.

(** The run's variables when generation is over. *)
Definition afterGeneration : RunState := Llm.caller (fst generation).

Lemma generation_keeps (Q : RunState -> Prop) :
  (forall post merged s,
      Q s -> Q (fst (onPostProcessed config writeFails post merged s))) ->
  Q initial -> Q afterGeneration.
Proof.
  intros Hkeep Hinit. unfold afterGeneration, generation.
  destruct postsToProcess; [exact Hinit|].
  apply LlmFacts.generateTags_keeps; [|exact Hinit].
  intros post merged s HQ. simpl. apply Hkeep. exact HQ.
Qed.


Lemma afterGeneration_writes :
  Forall sortedImage (fileWrites afterGeneration).
Proof.
  apply (generation_keeps (fun s => Forall sortedImage (fileWrites s))).
  - intros post merged s. apply callback_writes.
  - constructor.
Qed.

Lemma runGenerate_unfold :
  runGenerate config writeFails args posts historicalTags fetch
  = match posts with
    | [] => (initial, NoPosts)
    | _ :: _ =>
        match snd generation with
        | Some message => (afterGeneration, Rejected message)
        | None =>
            match writeChain afterGeneration with
            | Some message => (afterGeneration, Rejected message)
            | None =>
                let st2 :=
                  withTagsMap
                    (pruneAbsent config posts (tagsMap afterGeneration))
                    afterGeneration in
                let final :=
                  match postsToProcess with
                  | [] =>
                      writeTagsFile config writeFails
                                    (sortTagsMap (tagsMap st2)) st2
                  | _ :: _ =>
                      if dryRun config
                      then writeTagsFile config writeFails
                                         (sortTagsMap (tagsMap st2)) st2
                      else scheduleWrite writeFails st2
                  end in
                match snd final with
                | Some message => (fst final, Rejected message)
                | None =>
                    (fst final,
                     Finished
                       (buildStatistics (List.length postsToProcess)
                          (Llm.merges (fst generation))
                          (Llm.results (fst generation))))
                end
            end
        end
    end.
Proof.
  unfold runGenerate, afterGeneration, generation.
  fold initial. fold postsToProcess. fold runOptions.
  destruct posts as [|p0 rest] eqn:Hposts; [reflexivity|].
  rewrite <- Hposts. clear Hposts.
  destruct postsToProcess as [|q qs].
  - simpl fst. simpl snd. cbv zeta.
    change (writeChain initial) with (@None string). cbv iota.
    destruct (writeTagsFile config writeFails _ _) as [st3 [m|]];
      reflexivity.
  - destruct (Llm.generateTags config runOptions fetch (q :: qs) initial)
      as [gen [m|]]; [reflexivity|].
    simpl fst. simpl snd. cbv zeta.
    destruct (writeChain (Llm.caller gen)); [reflexivity|].
    destruct (dryRun config).
    + destruct (writeTagsFile config writeFails _ _) as [st3 [m|]];
        reflexivity.
    + destruct (scheduleWrite writeFails _) as [st3 [m|]]; reflexivity.
Qed.
End Run.
End WithHost.
End IndexFacts.

Module RunExamples.

Definition filtered : TagSyncConfig :=
  {| apiKey := "sk-test"; model := "gpt-4o-mini"; language := "zh";
     dryRun := false; filter := "Android"; maxConcurrency := 1;
     sortTags := false; taxonomyRules := None |}.

Definition incremental : Index.CliOptions := {| Index.full := None |}.

Definition healthyDisk (n : nat) : option string := None.

(** A [tags.json] whose keys are numerals. *)
Definition numbered : TagsMap := [("9", ["a"]); ("10", ["b"])].

End RunExamples.


(** C10, what the code does: every value written to [tags.json] is the
    result of [sortTagsMap]; but [sortTagsMap] rebuilds an object, and an
    object lists keys that are array indices first, in ascending numeric
    order: with the keys [9] and [10] in the file, every write of the run
    has [9] before [10], although [10] sorts before [9]. *)
Theorem numeral_keys_are_written_in_numeric_order :
  (forall (host : Host) (config : TagSyncConfig)
          (writeFails : nat -> option string) (args : Index.CliOptions)
          (posts : list LoadedPost) (historicalTags : TagsMap)
          (fetch : string -> Z -> Llm.FetchOutcome),
      Forall (IndexFacts.sortedImage)
             (Index.fileWrites
                (fst (Index.runGenerate config writeFails args posts
                                        historicalTags fetch))))
  /\ (let run :=
        @Index.runGenerate ExampleHost.host RunExamples.filtered
          RunExamples.healthyDisk RunExamples.incremental
          [GenerationExamples.post "source/_posts/Android/x.md" ["Y"]]
          RunExamples.numbered GenerationExamples.up in
      map JsObject.keys (Index.fileWrites (fst run))
      = [["9"; "10"; "source/_posts/Android/x.md"];
         ["9"; "10"; "source/_posts/Android/x.md"]]
      /\ @localeCompare ExampleHost.host "en-US" "10" "9" = (-1)%Z
      /\ arraySort
           (fun a b => @localeCompare ExampleHost.host "en-US" (fst a) (fst b))
           (JsObject.entries
              (RunExamples.numbered
                 ++ [("source/_posts/Android/x.md", ["Y"; "Generated"])]))
         = [("10", ["b"]); ("9", ["a"]);
            ("source/_posts/Android/x.md", ["Y"; "Generated"])]).
Proof.
  split; [|repeat split; reflexivity].
  intros host config writeFails args posts historicalTags fetch.
  rewrite IndexFacts.runGenerate_unfold.
  destruct posts as [|p0 rest]; [constructor|].
  pose proof (IndexFacts.afterGeneration_writes config writeFails args
                (p0 :: rest) historicalTags fetch) as Hgen.
  destruct (snd (IndexFacts.generation _ _ _ _ _ _)); [exact Hgen|].
  destruct (Index.writeChain _); [exact Hgen|].
  cbv zeta.
  match goal with
  | |- context [match snd ?f with Some _ => _ | None => _ end] =>
      set (final := f)
  end.
  assert (Hfinal : Forall IndexFacts.sortedImage
                          (Index.fileWrites (fst final))).
  2: { destruct (snd final); exact Hfinal. }
  unfold final.
  set (st2 := Index.withTagsMap _ _).
  assert (H2 : Forall IndexFacts.sortedImage (Index.fileWrites st2))
    by exact Hgen.
  destruct (IndexFacts.postsToProcess args (p0 :: rest) historicalTags).
  - destruct (IndexFacts.writeTagsFile_state config writeFails
                (Index.sortTagsMap (Index.tagsMap st2)) st2) as [_ Hw].
    exact (IndexFacts.sortedImage_append _ _ _ H2 Hw).
  - destruct (dryRun config).
    + destruct (IndexFacts.writeTagsFile_state config writeFails
                  (Index.sortTagsMap (Index.tagsMap st2)) st2) as [_ Hw].
      exact (IndexFacts.sortedImage_append _ _ _ H2 Hw).
    + destruct (IndexFacts.scheduleWrite_state writeFails st2) as [_ Hw].
      exact (IndexFacts.sortedImage_append _ _ _ H2 Hw).
Qed.

(* ================================================================== *)
(** ** [sortTagsMap] on keys that are no array indices *)


(** [sortTagsMap] does sort: on an index whose keys are no array indices,
    as the paths of markdown files are, it returns the entries in the
    order of the 'en-US' collation of their keys. *)
Theorem sortTagsMap_sorts_path_keys :
  forall (host : Host) (m : TagsMap),
    NoDup (JsObject.keys m) ->
    (forall key, In key (JsObject.keys m) -> JsObject.arrayIndex key = None) ->
    Index.sortTagsMap m
    = arraySort (fun a b => localeCompare "en-US" (fst a) (fst b)) m
    /\ Permutation (Index.sortTagsMap m) m
    /\ Sorted (Spec.localeLe "en-US") (JsObject.keys (Index.sortTagsMap m)).
Proof.
  intros host m Hnd Hidx.
  set (cmp := fun a b : string * list string =>
                localeCompare "en-US" (fst a) (fst b)).
  assert (Hperm : Permutation (arraySort cmp m) m)
    by apply ContainerFacts.arraySort_perm.
  assert (Heq : Index.sortTagsMap m = arraySort cmp m).
  { unfold Index.sortTagsMap, JsObject.fromEntries, JsObject.entries.
    fold cmp.
    rewrite SortFacts.fromEntries_plain; [reflexivity | | |].
    - apply (Permutation_NoDup (l := map fst m)); [|exact Hnd].
      apply Permutation_map, Permutation_sym, Hperm.
    - intros key Hk. apply Hidx.
      apply (Permutation_in key (Permutation_map fst Hperm)). exact Hk.
    - intros key _. reflexivity. }
  rewrite Heq. split; [reflexivity|]. split; [exact Hperm|].
  apply (SortFacts.sorted_keys (Spec.localeLe "en-US")).
  apply (ContainerFacts.arraySort_sorted cmp).
  intros a b. apply localeCompare_total.
Qed.

(** An instance: two posts out of order. *)
Lemma sortTagsMap_example :
  @Index.sortTagsMap ExampleHost.host [("b.md", ["x"]); ("a.md", ["y"])]
  = [("a.md", ["y"]); ("b.md", ["x"])].
Proof.
  refine (eq_trans
            (proj1 (sortTagsMap_sorts_path_keys ExampleHost.host
                      [("b.md", ["x"]); ("a.md", ["y"])] _ _)) _).
  - constructor; [intros [H|[]]; discriminate H|].
    constructor; [intros []|constructor].
  - intros key [<-|[<-|[]]]; reflexivity.
  - reflexivity.
Defined.

(** [normalizeTag] is idempotent, and a tag and its normal form have the
    same key. *)
Theorem normalizeTag_is_idempotent :
  forall (host : Host) (tag : string),
    Taxonomy.normalizeTag (Taxonomy.normalizeTag tag) = Taxonomy.normalizeTag tag
    /\ Spec.tagKey (Taxonomy.normalizeTag tag) = Spec.tagKey tag.
Proof.
  intros host tag. split; [apply NormalizeFacts.normalizeTag_idempotent|].
  apply NormalizeFacts.tagKey_normalizeTag.
Qed.

(* ================================================================== *)
(** ** The merge, fed its own result *)

Module StabilityFacts.
Import JsString StringFacts ContainerFacts NormalizeFacts UnionFacts.
Import TaxonomyFacts MergeFacts.

Section WithHost.
Context {host : Host}.

(** [sort] leaves an array alone that is in order already. *)
Lemma arraySort_fixed {A} (cmp : A -> A -> Z) (l : list A) :
  Sorted (fun a b => (cmp a b <= 0)%Z) l -> arraySort cmp l = l.
Proof.
  induction 1 as [|x r Hs IH Hhd]; [reflexivity|].
  simpl. rewrite IH. destruct Hhd as [|y r' Hxy]; [reflexivity|].
  simpl. apply Z.leb_le in Hxy. rewrite Hxy. reflexivity.
Qed.

Lemma filter_none {A} (f : A -> bool) (l : list A) :
  (forall x, In x l -> f x = false) -> List.filter f l = [].
Proof.
  induction l as [|x r IH]; intros H; [reflexivity|].
  simpl. rewrite (H x (or_introl eq_refl)).
  apply IH. intros y Hy. apply H. right. exact Hy.
Qed.

Lemma union_nil (norm : string -> string) (l s : list string) :
  (forall x, In x l ->
             norm x = "" \/ mem (toLowerCase (norm x)) s = true) ->
  Spec.orderedUnionFrom norm s l = [].
Proof.
  induction l as [|x r IH]; intros H; [reflexivity|].
  simpl.
  assert (Hx : (norm x =? "") || mem (toLowerCase (norm x)) s = true).
  { destruct (H x (or_introl eq_refl)) as [E|E].
    - rewrite E. reflexivity.
    - rewrite E. apply orb_true_r. }
  rewrite Hx. apply IH. intros y Hy. apply H. right. exact Hy.
Qed.

(** A permutation of a union is a union of itself. *)
Lemma union_of_permuted (l m : list string) :
  Permutation m (Spec.orderedUnion l) -> Spec.orderedUnion m = m.
Proof.
  intros Hp. unfold Spec.orderedUnion.
  apply (union_fixed Taxonomy.normalizeTag).
  - apply Forall_forall. intros t Ht.
    destruct (union_tag l t (Permutation_in _ Hp Ht)) as [H1 [H2 _]].
    split; assumption.
  - apply (Permutation_NoDup (l := map toLowerCase (Spec.orderedUnion l))).
    + apply Permutation_map. apply Permutation_sym. exact Hp.
    + apply (union_out Taxonomy.normalizeTag l []).
  - intros n _. reflexivity.
Qed.

(** Inputs whose keys a permutation of the union holds add nothing to it. *)
Lemma union_absorbs (l m extra : list string) :
  Permutation m (Spec.orderedUnion l) ->
  (forall x, In x extra ->
             exists y, In y l /\ Spec.tagKey x = Spec.tagKey y) ->
  Spec.orderedUnion (m ++ extra) = m.
Proof.
  intros Hp Hextra. unfold Spec.orderedUnion.
  rewrite union_app. fold (Spec.orderedUnion m).
  rewrite (union_of_permuted l m Hp).
  rewrite union_nil; [apply app_nil_r|].
  intros x Hx.
  destruct (Taxonomy.normalizeTag x =? "") eqn:En;
    [left; apply String.eqb_eq; exact En | right].
  destruct (Hextra x Hx) as [y [Hy Hk]].
  fold (Spec.tagKey x). rewrite Hk.
  assert (Hny : truthy (Taxonomy.normalizeTag y) = true).
  { rewrite <- tagKey_truthy, <- Hk, tagKey_truthy.
    unfold truthy. rewrite En. reflexivity. }
  destruct (union_covers l [] y Hy Hny) as [Hm|Hm]; [discriminate|].
  rewrite app_nil_r. apply mem_In. apply -> in_rev.
  apply (Permutation_in (l := map toLowerCase (Spec.orderedUnion l)));
    [|exact Hm].
  apply Permutation_map. apply Permutation_sym. exact Hp.
Qed.


Lemma merge_again (own proposed hist : list string) (config : TagSyncConfig)
      (T : list string) :
  T = tags (Taxonomy.mergeTags own proposed (Some hist) config) ->
  tags (Taxonomy.mergeTags own proposed (Some T) config) = T
  /\ added (Taxonomy.mergeTags own proposed (Some T) config) = [].
Proof.
  intros HT.
  pose proof (mergeTags_perm own proposed (Some hist) config) as Hp.
  pose proof (mergeTags_sorted own proposed (Some hist) config) as Hsorted.
  simpl history in Hp. rewrite <- HT in Hp, Hsorted. clear HT.
  assert (Hvalues :
            Spec.orderedUnion
              (Spec.orderedUnion T ++ Spec.orderedUnion own ++ proposed)
            = T).
  { rewrite (union_of_permuted _ _ Hp).
    apply (union_absorbs _ _ _ Hp).
    intros x Hx. apply in_app_or in Hx. destruct Hx as [Hx|Hx].
    - apply orderedUnion_first in Hx.
      destruct Hx as [pre [y [post [Hown [Hxy _]]]]].
      exists y. split.
      + apply in_or_app. right. apply in_or_app. left.
        rewrite Hown. apply in_or_app. right. left. reflexivity.
      + rewrite Hxy. apply tagKey_normalizeTag.
    - exists x. split; [|reflexivity].
      apply in_or_app. right. apply in_or_app. right. exact Hx. }
  assert (Htags : tags (Taxonomy.mergeTags own proposed (Some T) config) = T).
  { rewrite mergeTags_tags. simpl history.
    destruct (sortTags config) eqn:Hs.
    - rewrite dedupe_sorted, Hvalues.
      apply arraySort_fixed. exact (Hsorted eq_refl).
    - rewrite dedupe_unsorted. exact Hvalues. }
  split; [exact Htags|].
  rewrite mergeTags_added, Htags. simpl history.
  apply filter_none. intros t Ht.
  apply negb_false_iff. apply mem_In.
  apply in_map. unfold Spec.orderedUnion.
  rewrite union_app. apply in_or_app. left.
  fold (Spec.orderedUnion T).
  rewrite (union_of_permuted _ _ Hp). exact Ht.
Qed.


End WithHost.

End StabilityFacts.

(** A merge fed its own result as the history, with the same own and
    proposed tags, returns the same tags and reports nothing as added:
    running the merge again on an unchanged post changes nothing, with or
    without sorting. *)
Theorem merge_is_stable_on_its_result :
  forall (host : Host) (own proposed hist : list string)
         (config : TagSyncConfig),
    let first := Taxonomy.mergeTags own proposed (Some hist) config in
    let second := Taxonomy.mergeTags own proposed (Some (tags first)) config in
    tags second = tags first
    /\ added second = []
    /\ classification second = classification first.
Proof.
  intros host own proposed hist config first second.
  destruct (StabilityFacts.merge_again own proposed hist config (tags first)
              eq_refl) as [Htags Hadded].
  split; [exact Htags|]. split; [exact Hadded|].
  change (Taxonomy.classifyTags (tags second) (taxonomyRules config)
          = Taxonomy.classifyTags (tags first) (taxonomyRules config)).
  f_equal. exact Htags.
Qed.

(** Every tag a merge reports as added is one of its tags and the
    normal form of a proposed tag, and a merge without proposals reports
    none: history and own tags never count as added. *)
Theorem added_comes_from_the_proposals :
  forall (host : Host) (own proposed : list string)
         (historical : option (list string)) (config : TagSyncConfig),
    Forall
      (fun t =>
         In t (tags (Taxonomy.mergeTags own proposed historical config))
         /\ exists p, In p proposed /\ t = Taxonomy.normalizeTag p)
      (added (Taxonomy.mergeTags own proposed historical config))
    /\ added (Taxonomy.mergeTags own [] historical config) = [].
Proof.
  intros host own proposed historical config.
  assert (Hall :
            forall proposed',
              Forall
                (fun t =>
                   In t (tags (Taxonomy.mergeTags own proposed' historical
                                                  config))
                   /\ exists p, In p proposed' /\ t = Taxonomy.normalizeTag p)
                (added (Taxonomy.mergeTags own proposed' historical config))).
  { intros proposed'. apply Forall_forall. intros t Ht.
    rewrite MergeFacts.mergeTags_added in Ht.
    apply filter_In in Ht. destruct Ht as [Hin Hnew].
    split; [exact Hin|].
    apply negb_true_iff in Hnew.
    apply MergeFacts.mergeTags_tag_truthy in Hin.
    destruct (TaxonomyFacts.union_tag _ _ Hin) as [Htruthy [Hfix _]].
    assert (Hnorm : JsString.truthy (Taxonomy.normalizeTag t) = true)
      by (rewrite Hfix; exact Htruthy).
    pose proof (proj1 (TaxonomyFacts.mem_keys_iff _ t Hnorm) Hnew) as Hfresh.
    apply MergeFacts.orderedUnion_first in Hin.
    destruct Hin as [pre [x [post [Hl [Htx _]]]]].
    exists x. split; [|exact Htx].
    assert (Hx : In x (TaxonomyFacts.history historical ++ own ++ proposed')).
    { rewrite Hl. apply in_or_app. right. left. reflexivity. }
    rewrite app_assoc in Hx. apply in_app_or in Hx.
    destruct Hx as [Hx|Hx]; [|exact Hx].
    exfalso. apply (Hfresh x Hx).
    rewrite Htx. symmetry. apply NormalizeFacts.tagKey_normalizeTag. }
  split; [apply Hall|].
  specialize (Hall []).
  destruct (added (Taxonomy.mergeTags own [] historical config)) as [|t r];
    [reflexivity|].
  inversion Hall as [|? ? [_ [p [[] _]]] _].
Qed.

(** The classification of a merge has an entry for exactly the tags of
    the merge, and every category in it is a category of the configured
    taxonomy or [uncategorized]. *)
Theorem classification_covers_exactly_the_tags :
  forall (host : Host) (own proposed : list string)
         (historical : option (list string)) (config : TagSyncConfig)
         (tag : string),
    let merged := Taxonomy.mergeTags own proposed historical config in
    (JsObject.has tag (classification merged)
     = JsString.mem tag (tags merged))
    /\ match JsObject.get tag (classification merged) with
       | Some category =>
           category = "uncategorized"
           \/ exists rules,
               taxonomyRules config = Some rules
               /\ In category (JsObject.keys rules)
       | None => True
       end.
Proof.
  intros host own proposed historical config tag merged.
  change (classification merged)
    with (Taxonomy.classifyTags (tags merged) (taxonomyRules config)).
  generalize (tags merged). intros l.
  assert (Hcat :
            forall rules t c,
              Taxonomy.assignCategory t rules = Some c -> In c (map fst rules)).
  { intros rules t c. induction rules as [|[c0 r0] rules IH]; [discriminate|].
    simpl.
    destruct (Taxonomy.includesTag r0 t);
      [intros H; injection H as <-; left; reflexivity|].
    destruct (Taxonomy.patternTest r0 t);
      [intros H; injection H as <-; left; reflexivity|].
    intros H. right. exact (IH H). }
  unfold JsObject.has, Taxonomy.classifyTags.
  destruct (taxonomyRules config) as [rules|].
  - rewrite ClassifyFacts.classify_fold.
    destruct (JsString.mem tag l); split; try reflexivity; try exact I.
    unfold ClassifyFacts.categoryOf.
    destruct (Taxonomy.assignCategory tag (JsObject.entries rules)) as [c|]
      eqn:Hc; [|left; reflexivity].
    right. exists rules. split; [reflexivity|].
    exact (Hcat _ _ _ Hc).
  - unfold JsObject.fromEntries. rewrite ClassifyFacts.fromEntries_constant.
    destruct (JsString.mem tag l); split; try reflexivity; try exact I.
    left. reflexivity.
Qed.

(* ================================================================== *)
(** ** The generation loop: how much it asks and how long it waits *)

Module EffortFacts.
Import JsString StringFacts ContainerFacts.
Import Llm LlmFacts.

(** A delay the backoff may pass to [sleep]. *)
Definition delayInRange (ms : Z) : Prop := (2000 <= ms <= 5000)%Z.

Section WithHost.
Context {host : Host} {St : Type}.
Variable config : TagSyncConfig.
Variable options : GenerateTagOptions St.
Variable fetch : string -> Z -> FetchOutcome.

(** The state a loop ends in, by [return] or by running out. *)
Definition loopState (r : GenState St + (GenState St * option string))
  : GenState St :=
  match r with
  | inl st => st
  | inr (st, _) => st
  end.

Lemma backoff_effort (attempt : Z) (st : GenState St) :
  (0 <= attempt)%Z -> Forall delayInRange (sleeps st) ->
  calls (backoff attempt st) = calls st
  /\ List.length (sleeps (backoff attempt st))
     = (List.length (sleeps st) + if (attempt =? 0)%Z then 0 else 1)%nat
  /\ Forall delayInRange (sleeps (backoff attempt st)).
Proof.
  intros Ha Hall. unfold backoff.
  destruct (0 <? attempt)%Z eqn:E.
  - apply Z.ltb_lt in E.
    assert (E0 : (attempt =? 0)%Z = false) by (apply Z.eqb_neq; lia).
    rewrite E0. unfold logSleep. cbn [sleeps calls].
    split; [reflexivity|]. split.
    + rewrite length_app. reflexivity.
    + apply Forall_app. split; [exact Hall|].
      constructor; [|constructor]. unfold delayInRange. lia.
  - apply Z.ltb_ge in E.
    assert (E0 : (attempt =? 0)%Z = true) by (apply Z.eqb_eq; lia).
    rewrite E0. split; [reflexivity|]. split; [lia | exact Hall].
Qed.

Lemma attemptLoop_effort post historyTags turns attempt lastError
      (st : GenState St) :
  (0 <= attempt)%Z -> Forall delayInRange (sleeps st) ->
  let st' :=
    loopState (attemptLoop config options fetch post historyTags turns
                           attempt lastError st) in
  (calls st' <= calls st + turns)%nat
  /\ (List.length (sleeps st')
      + (if (attempt =? 0)%Z then Nat.min 1 turns else 0)
      <= List.length (sleeps st) + turns)%nat
  /\ Forall delayInRange (sleeps st').
Proof.
  revert attempt lastError st.
  induction turns as [|turns IH]; intros attempt lastError st Ha Hall.
  - simpl. destruct (attempt =? 0)%Z; repeat split; try lia; exact Hall.
  - cbv zeta. rewrite attemptLoop_turn.
    destruct (backoff_effort attempt st Ha Hall) as [Hc [Hs Hd]].
    destruct (QuietRun.record_state config options post historyTags
                (responseAt config fetch post attempt)
                (resp_tags (responseAt config fetch post attempt))
                (countCall (backoff attempt st)))
      as [_ [_ [_ [Hs2 Hc2]]]].
    destruct (record config options post historyTags _ _
                     (countCall (backoff attempt st)))
      as [st2 thrown].
    simpl fst in Hs2, Hc2. simpl sleeps in Hs2. simpl calls in Hc2.
    destruct thrown as [message|].
    + assert (Ha' : (0 <= attempt + 1)%Z) by lia.
      assert (Hall2 : Forall delayInRange (sleeps st2))
        by (rewrite Hs2; exact Hd).
      destruct (IH (attempt + 1)%Z (Some message) st2 Ha' Hall2)
        as [Hc' [Hs' Hd']].
      assert (E1 : (attempt + 1 =? 0)%Z = false) by (apply Z.eqb_neq; lia).
      rewrite E1 in Hs'.
      split; [lia|]. split; [|exact Hd'].
      rewrite Hs2, Hs in Hs'.
      destruct (attempt =? 0)%Z; simpl Nat.min; lia.
    + simpl loopState. split; [lia|]. split; [|rewrite Hs2; exact Hd].
      rewrite Hs2, Hs. destruct (attempt =? 0)%Z; simpl Nat.min; lia.
Qed.

Lemma processPost_effort (retries : Z) (post : LoadedPost)
      (st : GenState St) :
  Forall delayInRange (sleeps st) ->
  let st' := fst (processPost config options fetch retries post st) in
  let turns := Z.to_nat (retries + 1) in
  (calls st' <= calls st + turns)%nat
  /\ (List.length (sleeps st') <= List.length (sleeps st) + (turns - 1))%nat
  /\ Forall delayInRange (sleeps st').
Proof.
  intros Hall. cbv zeta. unfold processPost.
  set (historyTags :=
         match JsObject.get (relativePath post) (historicalTagsMap st) with
         | Some l => l
         | None => []
         end).
  destruct (attemptLoop_effort post historyTags (Z.to_nat (retries + 1)) 0
              None st (Z.le_refl 0) Hall) as [Hc [Hs Hd]].
  change (0 =? 0)%Z with true in Hs. cbv iota in Hs.
  destruct (attemptLoop config options fetch post historyTags
                        (Z.to_nat (retries + 1)) 0 None st)
    as [st1|[st1 [lastError|]]]; simpl loopState in *; simpl fst.
  - split; [exact Hc|]. split; [lia | exact Hd].
  - destruct (QuietRun.record_state config options post historyTags
                (failure lastError) [] st1) as [_ [_ [_ [Hs2 Hc2]]]].
    rewrite Hs2, Hc2. split; [exact Hc|]. split; [lia | exact Hd].
  - split; [exact Hc|]. split; [lia | exact Hd].
Qed.

Lemma runTasks_effort (retries : Z) (posts : list LoadedPost)
      (st : GenState St) :
  Forall delayInRange (sleeps st) ->
  let st' := fst (runTasks config options fetch retries posts st) in
  let turns := Z.to_nat (retries + 1) in
  (calls st' <= calls st + List.length posts * turns)%nat
  /\ (List.length (sleeps st')
      <= List.length (sleeps st) + List.length posts * (turns - 1))%nat
  /\ Forall delayInRange (sleeps st').
Proof.
  revert st. induction posts as [|post rest IH]; intros st Hall.
  - simpl. repeat split; try lia; exact Hall.
  - cbv zeta. simpl runTasks.
    destruct (processPost_effort retries post st Hall) as [Hc [Hs Hd]].
    destruct (processPost config options fetch retries post st)
      as [st1 thrown]; simpl fst in *.
    destruct (IH st1 Hd) as [Hc' [Hs' Hd']].
    destruct (runTasks config options fetch retries rest st1)
      as [st2 later]; simpl fst in *.
    simpl List.length. split; [lia|]. split; [lia | exact Hd'].
Qed.

End WithHost.
End EffortFacts.

(** Whatever the network returns and whatever the callback does, the task
    of one post calls [callChatCompletion] at most [retries + 1] times and
    sleeps at most [retries] times, and every delay it sleeps lies between
    2000 and 5000 milliseconds; so the tasks of a call of [generateTags]
    together make at most [retries + 1] calls and [retries] sleeps for
    each post, those that run after one of them has rejected included. *)
Theorem generation_effort_is_bounded :
  forall (host : Host) (St : Type) (config : TagSyncConfig)
         (options : Llm.GenerateTagOptions St)
         (fetch : string -> Z -> Llm.FetchOutcome),
    (forall (retries : Z) (post : LoadedPost) (st : Llm.GenState St),
        Forall (fun ms => (2000 <= ms <= 5000)%Z) (Llm.sleeps st) ->
        let task :=
          fst (Llm.processPost config options fetch retries post st) in
        let turns := Z.to_nat (retries + 1) in
        (Llm.calls task <= Llm.calls st + turns)%nat
        /\ (List.length (Llm.sleeps task)
            <= List.length (Llm.sleeps st) + (turns - 1))%nat
        /\ Forall (fun ms => (2000 <= ms <= 5000)%Z) (Llm.sleeps task))
    /\ (forall (posts : list LoadedPost) (s0 : St),
           let run := fst (Llm.generateTags config options fetch posts s0) in
           let turns := Z.to_nat (LlmFacts.retriesOf options + 1) in
           (Llm.calls run <= List.length posts * turns)%nat
           /\ (List.length (Llm.sleeps run)
               <= List.length posts * (turns - 1))%nat
           /\ Forall (fun ms => (2000 <= ms <= 5000)%Z) (Llm.sleeps run)).
Proof.
  intros host St config options fetch. split.
  - intros retries post st Hall.
    exact (EffortFacts.processPost_effort config options fetch retries post
             st Hall).
  - intros posts s0. cbv zeta.
    unfold Llm.generateTags.
    destruct (negb (JsString.truthy (apiKey config))).
    + cbn [fst Llm.calls Llm.sleeps List.length].
      split; [apply Nat.le_0_l|]. split; [apply Nat.le_0_l | constructor].
    + match goal with
      | |- context [Llm.runTasks _ _ _ _ _ ?st0] =>
          exact (EffortFacts.runTasks_effort config options fetch
                   (LlmFacts.retriesOf options) posts st0
                   (Forall_nil EffortFacts.delayInRange))
      end.
Qed.

(* ================================================================== *)
(** ** Runs on a disk that takes every write *)

Module HealthyRun.
Import JsString StringFacts ContainerFacts.
Import Llm LlmFacts QuietRun.
Import Index IndexFacts.

(** [Object.fromEntries] of an object's own entries, its spread copy,
    answers every lookup as the object does. *)
Lemma fromEntries_get {V} (es : list (string * V)) (o : JsObject.t V)
      (k : string) :
  NoDup (map fst es) ->
  JsObject.get k (fold_left (fun o e => JsObject.set (fst e) (snd e) o) es o)
  = match JsObject.get k es with
    | Some v => Some v
    | None => JsObject.get k o
    end.
Proof.
  revert o. induction es as [|[k0 v0] es IH]; intros o Hnd; [reflexivity|].
  inversion Hnd as [|? ? Hnotin Hnd']; subst.
  simpl fold_left. rewrite (IH _ Hnd'). simpl JsObject.get.
  destruct (k0 =? k) eqn:E.
  - apply String.eqb_eq in E. subst k0.
    assert (Hnone : JsObject.get k es = None).
    { pose proof (obj_has_keys k es) as Hk. unfold JsObject.has in Hk.
      destruct (JsObject.get k es); [|reflexivity].
      symmetry in Hk. apply mem_In in Hk. contradiction. }
    rewrite Hnone. apply obj_get_set_same.
  - apply String.eqb_neq in E.
    destruct (JsObject.get k es); [reflexivity|].
    apply obj_get_set_other. exact E.
Qed.

Lemma copy_get {V} (o : JsObject.t V) (k : string) :
  NoDup (JsObject.keys o) ->
  JsObject.get k (JsObject.fromEntries (JsObject.entries o)) = JsObject.get k o.
Proof.
  intros Hnd. unfold JsObject.fromEntries, JsObject.entries.
  rewrite (fromEntries_get o JsObject.empty k Hnd).
  destruct (JsObject.get k o); reflexivity.
Qed.

Lemma copy_has {V} (o : JsObject.t V) (k : string) :
  JsObject.has k (JsObject.fromEntries (JsObject.entries o)) = JsObject.has k o.
Proof.
  unfold JsObject.fromEntries, JsObject.entries.
  rewrite fromEntries_has, (obj_has_keys k o). apply orb_false_r.
Qed.

Lemma mem_perm (k : string) (l l' : list string) :
  Permutation l l' -> mem k l = mem k l'.
Proof.
  intros Hp. apply eq_true_iff_eq. rewrite !mem_In.
  split; apply Permutation_in; [exact Hp | apply Permutation_sym; exact Hp].
Qed.

Section WithHost.
Context {host : Host}.

(** [sortTagsMap] keeps the key set. *)
Lemma sortTagsMap_has (m : TagsMap) (k : string) :
  JsObject.has k (sortTagsMap m) = JsObject.has k m.
Proof.
  unfold sortTagsMap, JsObject.fromEntries, JsObject.entries.
  rewrite fromEntries_has, (obj_has_keys k m).
  change (JsObject.has k JsObject.empty) with false. rewrite orb_false_r.
  apply mem_perm. apply Permutation_map. apply arraySort_perm.
Qed.

Variable config : TagSyncConfig.
Variable writeFails : nat -> option string.
Variable options : GenerateTagOptions RunState.
Variable fetch : string -> Z -> FetchOutcome.

Hypothesis callback :
  Llm.onPostProcessed options = Some (Index.onPostProcessed config writeFails).

(** The callback of the run cannot throw: a dry run, or a disk that takes
    every write. *)
Hypothesis healthy : dryRun config = true \/ forall n, writeFails n = None.

(** The writes one callback adds. *)
Definition snapshotOf (m : TagsMap) : list TagsMap :=
  if dryRun config then [] else [sortTagsMap m].

(** What the run's variables and the generation's own agree on. *)
Definition inStep (st : GenState RunState) : Prop :=
  writeChain (caller st) = None
  /\ tagsMap (caller st) = historicalTagsMap st.

Lemma callback_healthy (post : LoadedPost) (merged : MergeResult)
      (s : RunState) :
  writeChain s = None ->
  notify options post merged s
  = ({| tagsMap := JsObject.set (relativePath post) (tags merged) (tagsMap s);
        fileWrites :=
          fileWrites s
          ++ snapshotOf (JsObject.set (relativePath post) (tags merged)
                                      (tagsMap s));
        writeChain := None;
        writeCalls := if dryRun config then writeCalls s
                      else S (writeCalls s) |},
     None).
Proof.
  intros Hchain. unfold notify. rewrite callback.
  unfold Index.onPostProcessed, snapshotOf.
  destruct healthy as [Hdry|Hdisk].
  - rewrite Hdry. simpl negb. cbv iota. rewrite app_nil_r, Hchain.
    reflexivity.
  - destruct (dryRun config); simpl negb; cbv iota.
    + rewrite app_nil_r, Hchain. reflexivity.
    + unfold scheduleWrite. simpl writeChain. rewrite Hchain.
      unfold writeJson. simpl writeCalls. rewrite Hdisk. reflexivity.
Qed.

Lemma task_healthy (post : LoadedPost) (st : GenState RunState) :
  inStep st ->
  let merged := mergedAt config fetch post (historicalTagsMap st) in
  let index' :=
    JsObject.set (relativePath post) (tags merged) (historicalTagsMap st) in
  snd (record config options post
              (historyIn (historicalTagsMap st) (relativePath post))
              (responseAt config fetch post 0)
              (resp_tags (responseAt config fetch post 0))
              (countCall st)) = None
  /\ inStep (task config options fetch post st)
  /\ historicalTagsMap (task config options fetch post st) = index'
  /\ fileWrites (caller (task config options fetch post st))
     = fileWrites (caller st) ++ snapshotOf index'.
Proof.
  intros [Hchain Hindex]. cbv zeta. unfold task, record, inStep.
  simpl caller. rewrite (callback_healthy _ _ _ Hchain).
  simpl. rewrite Hindex. repeat split.
Qed.

Lemma processPost_healthy (retries : Z) (post : LoadedPost)
      (st : GenState RunState) :
  (0 <= retries)%Z -> inStep st ->
  processPost config options fetch retries post st
  = (task config options fetch post st, None).
Proof.
  intros Hr Hstep. unfold processPost.
  destruct (Z.to_nat (retries + 1)) as [|turns] eqn:E; [lia|].
  rewrite attemptLoop_turn.
  change (backoff 0 st) with st.
  fold (historyIn (historicalTagsMap st) (relativePath post)).
  destruct (task_healthy post st Hstep) as [Hthrown _].
  unfold task.
  destruct (record config options post _ _ _ (countCall st))
    as [st2 thrown].
  simpl in Hthrown. subst thrown. reflexivity.
Qed.

(** The snapshots the tasks of [posts] write, one after each task. *)
Fixpoint snapshots (posts : list LoadedPost) (st : GenState RunState)
  : list TagsMap :=
  match posts with
  | [] => []
  | post :: rest =>
      snapshotOf (historicalTagsMap (task config options fetch post st))
      ++ snapshots rest (task config options fetch post st)
  end.

Lemma runTasks_healthy (retries : Z) (posts : list LoadedPost)
      (st : GenState RunState) :
  (0 <= retries)%Z -> inStep st ->
  runTasks config options fetch retries posts st
  = (tasks config options fetch posts st, None)
  /\ inStep (tasks config options fetch posts st)
  /\ fileWrites (caller (tasks config options fetch posts st))
     = fileWrites (caller st) ++ snapshots posts st.
Proof.
  intros Hr. revert st. induction posts as [|post rest IH]; intros st Hstep.
  - simpl. rewrite app_nil_r. repeat split; apply Hstep.
  - simpl runTasks. rewrite (processPost_healthy retries post st Hr Hstep).
    destruct (task_healthy post st Hstep) as [_ [Hstep' [Hindex Hwrites]]].
    destruct (IH _ Hstep') as [Hrun [Hstep'' Hwrites']].
    split; [rewrite Hrun; reflexivity|]. split; [exact Hstep''|].
    simpl tasks. unfold tasks in *. rewrite Hwrites', Hwrites.
    simpl snapshots. rewrite Hindex, <- app_assoc. reflexivity.
Qed.

(** The index of the generation after its tasks. *)
Lemma tasks_index_has (posts : list LoadedPost) (st : GenState RunState)
      (k : string) :
  JsObject.has k (historicalTagsMap (tasks config options fetch posts st))
  = mem k (map relativePath posts) || JsObject.has k (historicalTagsMap st).
Proof.
  revert st. induction posts as [|post rest IH]; intros st; [reflexivity|].
  simpl. unfold tasks in *. rewrite IH.
  destruct (task_state config options fetch post st) as [_ [_ [Hh _]]].
  rewrite Hh, obj_has_set, (String.eqb_sym k (relativePath post)).
  destruct (relativePath post =? k), (mem k (map relativePath rest));
    reflexivity.
Qed.

Lemma tasks_index_own (posts : list LoadedPost) (st : GenState RunState)
      (post : LoadedPost) :
  NoDup (map relativePath posts) -> In post posts ->
  JsObject.get (relativePath post)
               (historicalTagsMap (tasks config options fetch posts st))
  = Some (tags (mergedAt config fetch post (historicalTagsMap st))).
Proof.
  revert st. induction posts as [|p rest IH]; intros st Hnd Hin;
    [destruct Hin|].
  simpl in Hnd. inversion Hnd as [|? ? Hnotin Hnd']; subst.
  destruct (task_state config options fetch p st) as [_ [_ [Hh _]]].
  destruct Hin as [->|Hin].
  - destruct (tasks_frame config options fetch rest
                (task config options fetch post st) (relativePath post) Hnotin)
      as [_ [_ Hframe]].
    simpl. unfold tasks in *. rewrite Hframe, Hh.
    apply obj_get_set_same.
  - simpl. unfold tasks in *. rewrite (IH _ Hnd' Hin).
    do 2 f_equal. unfold mergedAt, historyIn. rewrite Hh.
    rewrite obj_get_set_other; [reflexivity|].
    intros E. apply Hnotin. rewrite E. apply in_map. exact Hin.
Qed.

Lemma snapshots_length (posts : list LoadedPost) (st : GenState RunState) :
  List.length (snapshots posts st)
  = if dryRun config then 0 else List.length posts.
Proof.
  clear healthy callback.
  revert st. induction posts as [|post rest IH]; intros st.
  - simpl. destruct (dryRun config); reflexivity.
  - simpl. rewrite length_app, IH. unfold snapshotOf.
    destruct (dryRun config); reflexivity.
Qed.

(** Without a dry run, the snapshot written after the [i]-th task is the
    sorted index of that moment. *)
Lemma snapshots_nth (posts : list LoadedPost) (st : GenState RunState)
      (i : nat) :
  dryRun config = false -> (i < List.length posts)%nat ->
  nth_error (snapshots posts st) i
  = Some (sortTagsMap
            (historicalTagsMap
               (tasks config options fetch (firstn (S i) posts) st))).
Proof.
  intros Hdry. revert st i.
  induction posts as [|post rest IH]; intros st i Hi; [simpl in Hi; lia|].
  simpl snapshots. unfold snapshotOf. rewrite Hdry.
  destruct i as [|i]; [reflexivity|].
  simpl in Hi. simpl app. simpl nth_error.
  rewrite IH by lia. reflexivity.
Qed.

End WithHost.

Section Run.
Context {host : Host}.
Variable config : TagSyncConfig.
Variable writeFails : nat -> option string.
Variable args : CliOptions.
Variable posts : list LoadedPost.
Variable historicalTags : TagsMap.
Variable fetch : string -> Z -> FetchOutcome.

Hypothesis healthy : dryRun config = true \/ forall n, writeFails n = None.
Hypothesis key : truthy (apiKey config) = true.

(** The variables of [generateTags] when the run calls it. *)
Definition started : GenState RunState :=
  {| results := JsMap.empty; merges := JsMap.empty;
     historicalTagsMap :=
       initialHistory (runOptions config writeFails historicalTags);
     sleeps := []; calls := 0; caller := initial historicalTags |}.

Definition generated : GenState RunState :=
  tasks config (runOptions config writeFails historicalTags) fetch
        (postsToProcess args posts historicalTags) started.

Lemma started_inStep : inStep started.
Proof. split; reflexivity. Qed.

Lemma generation_healthy :
  postsToProcess args posts historicalTags <> [] ->
  generation config writeFails args posts historicalTags fetch
  = (generated, None).
Proof.
  intros Hne. unfold generation, generated.
  destruct (postsToProcess args posts historicalTags) as [|q qs] eqn:E;
    [contradiction|].
  unfold Llm.generateTags. rewrite key. simpl negb. cbv iota.
  refine (proj1 (runTasks_healthy
                   config writeFails
                   (runOptions config writeFails historicalTags) fetch
                   eq_refl healthy 2 (q :: qs) started _ started_inStep)).
  lia.
Qed.

Lemma generated_state :
  inStep generated
  /\ fileWrites (caller generated)
     = snapshots config (runOptions config writeFails historicalTags) fetch
                 (postsToProcess args posts historicalTags) started.
Proof.
  destruct (runTasks_healthy
              config writeFails
              (runOptions config writeFails historicalTags) fetch
              eq_refl healthy 2 (postsToProcess args posts historicalTags)
              started ltac:(lia) started_inStep)
    as [_ [Hstep Hwrites]].
  split; [exact Hstep | exact Hwrites].
Qed.

(** The index the run ends with. *)
Definition finalIndex : TagsMap :=
  pruneAbsent config posts (historicalTagsMap generated).

(** The writes of a run that generates for at least one post. *)
Lemma runGenerate_healthy :
  postsToProcess args posts historicalTags <> [] ->
  let run := runGenerate config writeFails args posts historicalTags fetch in
  snd run
  = Finished (buildStatistics
                (List.length (postsToProcess args posts historicalTags))
                (merges generated) (results generated))
  /\ tagsMap (fst run) = finalIndex
  /\ fileWrites (fst run)
     = snapshots config (runOptions config writeFails historicalTags) fetch
                 (postsToProcess args posts historicalTags) started
       ++ if dryRun config then [] else [sortTagsMap finalIndex].
Proof.
  intros Hne. cbv zeta. rewrite runGenerate_unfold.
  assert (Hposts : posts <> []).
  { intros E. apply Hne. unfold postsToProcess. rewrite E.
    destruct (match full args with Some b => b | None => false end);
      reflexivity. }
  destruct posts as [|p0 rest] eqn:Eposts; [contradiction|].
  rewrite <- Eposts in *. clear Hposts.
  unfold afterGeneration. rewrite (generation_healthy Hne).
  simpl fst. simpl snd.
  destruct generated_state as [[Hchain Hindex] Hwrites].
  rewrite Hchain. cbv zeta.
  destruct (postsToProcess args posts historicalTags) as [|q qs] eqn:E;
    [contradiction|].
  rewrite <- E in *.
  unfold finalIndex. rewrite <- Hindex.
  destruct healthy as [Hdry|Hdisk].
  - rewrite Hdry. unfold writeTagsFile. rewrite Hdry. simpl.
    rewrite app_nil_r. repeat split. exact Hwrites.
  - destruct (dryRun config) eqn:Hdry.
    + unfold writeTagsFile. rewrite Hdry. simpl.
      rewrite app_nil_r. repeat split. exact Hwrites.
    + unfold scheduleWrite. simpl writeChain. rewrite Hchain.
      unfold writeJson. simpl writeCalls. rewrite Hdisk. simpl.
      rewrite Hwrites. repeat split.
Qed.

End Run.

End HealthyRun.

(** *** Runs with nothing to generate *)

Module IdleRun.
Import JsString StringFacts ContainerFacts.
Import Index IndexFacts.

(** What [buildStatistics] returns for a run that generated nothing. *)
Definition noStatistics : SyncStatistics :=
  {| totalPosts := 0; processedPosts := 0; skippedPosts := 0;
     llmCalls := 0; llmFailures := 0; totalTags := 0; totalNewTags := 0 |}.

Section WithHost.
Context {host : Host}.
Variable config : TagSyncConfig.
Variable writeFails : nat -> option string.
Variable args : CliOptions.
Variable posts : list LoadedPost.
Variable historicalTags : TagsMap.
Variable fetch : string -> Z -> Llm.FetchOutcome.

Lemma postsToProcess_nil :
  match full args with Some b => b | None => false end = false ->
  (forall post,
      In post posts -> JsObject.has (relativePath post) historicalTags = true) ->
  postsToProcess args posts historicalTags = [].
Proof.
  intros Hfull Hall. unfold postsToProcess. rewrite Hfull.
  apply StabilityFacts.filter_none. intros post Hin.
  rewrite (Hall post Hin). reflexivity.
Qed.

Lemma postsToProcess_incl (post : LoadedPost) :
  In post (postsToProcess args posts historicalTags) -> In post posts.
Proof.
  unfold postsToProcess.
  destruct (match full args with Some b => b | None => false end);
    [exact (fun H => H)|].
  intros H. apply filter_In in H. apply H.
Qed.

Lemma postsToProcess_missing (post : LoadedPost) :
  In post posts -> JsObject.has (relativePath post) historicalTags = false ->
  In post (postsToProcess args posts historicalTags).
Proof.
  intros Hin Hhas. unfold postsToProcess.
  destruct (match full args with Some b => b | None => false end);
    [exact Hin|].
  apply filter_In. split; [exact Hin|]. rewrite Hhas. reflexivity.
Qed.

Lemma runGenerate_idle :
  postsToProcess args posts historicalTags = [] -> posts <> [] ->
  dryRun config = true \/ writeFails 0 = None ->
  let pruned :=
    pruneAbsent config posts
                (JsObject.fromEntries (JsObject.entries historicalTags)) in
  runGenerate config writeFails args posts historicalTags fetch
  = ({| tagsMap := pruned;
        fileWrites := if dryRun config then [] else [sortTagsMap pruned];
        writeChain := None;
        writeCalls := if dryRun config then 0 else 1 |},
     Finished noStatistics).
Proof.
  intros Hnil Hposts Hdisk. cbv zeta. rewrite runGenerate_unfold.
  destruct posts as [|p0 rest] eqn:Eposts; [contradiction|].
  rewrite <- Eposts in *.
  unfold afterGeneration, generation. rewrite Hnil.
  simpl fst. simpl snd. cbv zeta. simpl writeChain. cbv iota.
  unfold writeTagsFile.
  destruct (dryRun config) eqn:Hdry; [reflexivity|].
  destruct Hdisk as [Hdisk|Hdisk]; [discriminate|].
  unfold writeJson. simpl writeCalls. rewrite Hdisk. reflexivity.
Qed.

Lemma pruneAbsent_get (m : TagsMap) (key : string) :
  JsObject.get key (pruneAbsent config posts m)
  = if filterApplied config || mem key (map relativePath posts)
    then JsObject.get key m
    else None.
Proof.
  rewrite pruneAbsent_filter.
  destruct (filterApplied config); [reflexivity|].
  simpl orb.
  apply (obj_get_filter (fun k => mem k (map relativePath posts))).
Qed.

End WithHost.
End IdleRun.

(** A dry run writes nothing to [tags.json], whatever the network and the
    disk do, neither after a post nor at the end; and with an API key it
    runs to its end. *)
Theorem dry_run_never_writes :
  forall (host : Host) (config : TagSyncConfig)
         (writeFails : nat -> option string) (args : Index.CliOptions)
         (posts : list LoadedPost) (historicalTags : TagsMap)
         (fetch : string -> Z -> Llm.FetchOutcome),
    dryRun config = true ->
    let run :=
      Index.runGenerate config writeFails args posts historicalTags fetch in
    Index.fileWrites (fst run) = []
    /\ Index.writeCalls (fst run) = 0
    /\ (JsString.truthy (apiKey config) = true ->
        match posts with
        | [] => snd run = Index.NoPosts
        | _ :: _ => exists stats, snd run = Index.Finished stats
        end).
Proof.
  intros host config writeFails args posts historicalTags fetch Hdry run.
  set (Q := fun s : Index.RunState =>
              Index.fileWrites s = [] /\ Index.writeCalls s = 0).
  assert (Hgen : Q (IndexFacts.afterGeneration config writeFails args posts
                      historicalTags fetch)).
  { apply IndexFacts.generation_keeps; [|split; reflexivity].
    intros post merged s HQ. unfold Index.onPostProcessed.
    rewrite Hdry. exact HQ. }
  assert (Hrun : Q (fst run)).
  { unfold run. rewrite IndexFacts.runGenerate_unfold.
    destruct posts as [|p0 rest]; [split; reflexivity|].
    destruct (snd (IndexFacts.generation _ _ _ _ _ _)); [exact Hgen|].
    destruct (Index.writeChain _); [exact Hgen|].
    cbv zeta. unfold Index.writeTagsFile. rewrite Hdry.
    destruct (IndexFacts.postsToProcess args (p0 :: rest) historicalTags);
      exact Hgen. }
  split; [apply Hrun|]. split; [apply Hrun|].
  intros Hkey.
  assert (Hfinished : posts <> [] -> exists stats, snd run = Index.Finished stats).
  { intros Hposts. unfold run.
    destruct (IndexFacts.postsToProcess args posts historicalTags) eqn:E.
    - rewrite (IdleRun.runGenerate_idle config writeFails args posts
                 historicalTags fetch E Hposts (or_introl Hdry)).
      eexists. reflexivity.
    - assert (Hne : IndexFacts.postsToProcess args posts historicalTags <> [])
        by (rewrite E; discriminate).
      destruct (HealthyRun.runGenerate_healthy config writeFails args posts
                  historicalTags fetch (or_introl Hdry) Hkey Hne) as [H _].
      eexists. exact H. }
  destruct posts as [|p0 rest]; [reflexivity|].
  apply Hfinished. discriminate.
Qed.

(** An instance: a dry run over one new post, on a disk that refuses
    every write. *)
Lemma dry_run_example :
  let run :=
    @Index.runGenerate ExampleHost.host
      {| apiKey := "sk-test"; model := "gpt-4o-mini"; language := "zh";
         dryRun := true; filter := ""; maxConcurrency := 1;
         sortTags := false; taxonomyRules := None |}
      (fun _ => Some "EROFS") RunExamples.incremental
      [GenerationExamples.post "a.md" ["Y"]] [] GenerationExamples.up in
  Index.fileWrites (fst run) = []
  /\ Index.writeCalls (fst run) = 0
  /\ JsObject.get "a.md" (Index.tagsMap (fst run)) = Some ["Y"; "Generated"].
Proof.
  cbv zeta.
  destruct (dry_run_never_writes ExampleHost.host
              {| apiKey := "sk-test"; model := "gpt-4o-mini"; language := "zh";
                 dryRun := true; filter := ""; maxConcurrency := 1;
                 sortTags := false; taxonomyRules := None |}
              (fun _ => Some "EROFS") RunExamples.incremental
              [GenerationExamples.post "a.md" ["Y"]] []
              GenerationExamples.up eq_refl) as [H1 [H2 _]].
  split; [exact H1|]. split; [exact H2 | reflexivity].
Defined.

(** Without an API key a run that has a post to generate for rejects
    before any request: nothing is written and the index is the one read at
    the start. *)
Theorem missing_api_key_stops_the_run :
  forall (host : Host) (config : TagSyncConfig)
         (writeFails : nat -> option string) (args : Index.CliOptions)
         (posts : list LoadedPost) (historicalTags : TagsMap)
         (fetch : string -> Z -> Llm.FetchOutcome) (post : LoadedPost),
    JsString.truthy (apiKey config) = false ->
    In post posts ->
    JsObject.has (relativePath post) historicalTags = false ->
    (exists message,
        Index.runGenerate config writeFails args posts historicalTags fetch
        = (IndexFacts.initial historicalTags, Index.Rejected message))
    /\ Llm.calls
         (fst (IndexFacts.generation config writeFails args posts
                                     historicalTags fetch)) = 0.
Proof.
  intros host config writeFails args posts historicalTags fetch post
         Hkey Hin Hhas.
  pose proof (IdleRun.postsToProcess_missing args posts historicalTags post
                Hin Hhas) as Hp.
  rewrite IndexFacts.runGenerate_unfold.
  unfold IndexFacts.afterGeneration, IndexFacts.generation.
  destruct posts as [|p0 rest] eqn:Eposts; [destruct Hin|].
  rewrite <- Eposts in *.
  destruct (IndexFacts.postsToProcess args posts historicalTags)
    as [|q qs]; [destruct Hp|].
  unfold Llm.generateTags. rewrite Hkey. simpl.
  split; [eexists|]; reflexivity.
Qed.

(** An instance: one new post and an empty key. *)
Lemma missing_api_key_example :
  (exists message,
      @Index.runGenerate ExampleHost.host
        {| apiKey := EmptyString; model := "gpt-4o-mini"; language := "zh";
           dryRun := false; filter := EmptyString; maxConcurrency := 1;
           sortTags := false; taxonomyRules := None |}
        RunExamples.healthyDisk RunExamples.incremental
        [GenerationExamples.post "a.md" ["Y"]] [("b.md", ["X"])]
        GenerationExamples.up
      = (IndexFacts.initial [("b.md", ["X"])], Index.Rejected message))
  /\ Llm.calls
       (fst (@IndexFacts.generation ExampleHost.host
               {| apiKey := EmptyString; model := "gpt-4o-mini";
                  language := "zh";
                  dryRun := false; filter := EmptyString; maxConcurrency := 1;
                  sortTags := false; taxonomyRules := None |}
               RunExamples.healthyDisk RunExamples.incremental
               [GenerationExamples.post "a.md" ["Y"]] [("b.md", ["X"])]
               GenerationExamples.up)) = 0.
Proof.
  apply (missing_api_key_stops_the_run ExampleHost.host _ _ _ _ _ _
           (GenerationExamples.post "a.md" ["Y"])).
  - reflexivity.
  - left. reflexivity.
  - reflexivity.
Defined.

(** When every post has its entry and a full run is not asked for, the
    run makes no request and does not look at the API key: it prunes the
    index read at the start, writes it once, sorted, unless the run is dry,
    and reports no post processed. *)
Theorem up_to_date_index_needs_no_generation :
  forall (host : Host) (config : TagSyncConfig)
         (writeFails : nat -> option string) (args : Index.CliOptions)
         (posts : list LoadedPost) (historicalTags : TagsMap)
         (fetch : string -> Z -> Llm.FetchOutcome),
    match Index.full args with Some b => b | None => false end = false ->
    posts <> [] ->
    (forall post,
        In post posts ->
        JsObject.has (relativePath post) historicalTags = true) ->
    dryRun config = true \/ writeFails 0 = None ->
    let pruned :=
      Index.pruneAbsent config posts
        (JsObject.fromEntries (JsObject.entries historicalTags)) in
    Index.runGenerate config writeFails args posts historicalTags fetch
    = ({| Index.tagsMap := pruned;
          Index.fileWrites :=
            if dryRun config then [] else [Index.sortTagsMap pruned];
          Index.writeChain := None;
          Index.writeCalls := if dryRun config then 0 else 1 |},
       Index.Finished IdleRun.noStatistics).
Proof.
  intros host config writeFails args posts historicalTags fetch
         Hfull Hposts Hall Hdisk.
  apply IdleRun.runGenerate_idle; try assumption.
  apply IdleRun.postsToProcess_nil; assumption.
Qed.

(** An instance: the index holds the post of the corpus and one that is
    gone; no key is configured and the service is down. *)
Lemma up_to_date_index_example :
  @Index.runGenerate ExampleHost.host
    {| apiKey := EmptyString; model := "gpt-4o-mini"; language := "zh";
       dryRun := false; filter := EmptyString; maxConcurrency := 1;
       sortTags := false; taxonomyRules := None |}
    RunExamples.healthyDisk RunExamples.incremental
    [GenerationExamples.post "b.md" ["Y"]]
    [("gone.md", ["Z"]); ("b.md", ["X"])] GenerationExamples.down
  = ({| Index.tagsMap := [("b.md", ["X"])];
        Index.fileWrites := [[("b.md", ["X"])]];
        Index.writeChain := None;
        Index.writeCalls := 1 |},
     Index.Finished IdleRun.noStatistics).
Proof.
  refine (eq_trans
            (up_to_date_index_needs_no_generation ExampleHost.host _ _ _ _ _ _
               _ _ _ _) _).
  - reflexivity.
  - discriminate.
  - intros post [<-|[]]. reflexivity.
  - right. reflexivity.
  - reflexivity.
Defined.

(** With [maxConcurrency] 1, where [pLimit] runs the tasks one after the
    other in the order of the posts, and on a disk that takes every write,
    a run that generates (not a dry one) writes [tags.json] once after
    each post and once at the end: the write after a post holds an entry
    for that post, for every post before it and for every entry of the
    index read at the start, and the last write is the sorted index the
    run ends with. *)
Theorem every_processed_post_is_persisted_at_once :
  forall (host : Host) (config : TagSyncConfig)
         (writeFails : nat -> option string) (args : Index.CliOptions)
         (posts : list LoadedPost) (historicalTags : TagsMap)
         (fetch : string -> Z -> Llm.FetchOutcome),
    maxConcurrency config = 1 ->
    (forall n, writeFails n = None) ->
    dryRun config = false ->
    JsString.truthy (apiKey config) = true ->
    IndexFacts.postsToProcess args posts historicalTags <> [] ->
    let run :=
      Index.runGenerate config writeFails args posts historicalTags fetch in
    let processed := IndexFacts.postsToProcess args posts historicalTags in
    List.length (Index.fileWrites (fst run)) = S (List.length processed)
    /\ (forall i post,
           nth_error processed i = Some post ->
           exists written,
             nth_error (Index.fileWrites (fst run)) i = Some written
             /\ (forall j earlier,
                    (j <= i)%nat -> nth_error processed j = Some earlier ->
                    JsObject.has (relativePath earlier) written = true)
             /\ (forall key,
                    JsObject.has key historicalTags = true ->
                    JsObject.has key written = true))
    /\ nth_error (Index.fileWrites (fst run)) (List.length processed)
       = Some (Index.sortTagsMap (Index.tagsMap (fst run))).
Proof.
  intros host config writeFails args posts historicalTags fetch
         _ Hdisk Hdry Hkey Hne run processed.
  destruct (HealthyRun.runGenerate_healthy config writeFails args posts
              historicalTags fetch (or_intror Hdisk) Hkey Hne)
    as [_ [Hindex Hwrites]].
  fold run in Hindex, Hwrites. fold processed in Hwrites.
  rewrite Hdry in Hwrites.
  set (options := IndexFacts.runOptions config writeFails historicalTags)
    in *.
  set (st0 := HealthyRun.started config writeFails historicalTags) in *.
  pose proof (HealthyRun.snapshots_length config options fetch processed st0)
    as Hlen.
  rewrite Hdry in Hlen.
  split; [rewrite Hwrites, length_app, Hlen; simpl; lia|].
  split.
  - intros i post Hi.
    assert (Hlt : (i < List.length processed)%nat).
    { apply nth_error_Some. rewrite Hi. discriminate. }
    exists (Index.sortTagsMap
              (Llm.historicalTagsMap
                 (QuietRun.tasks config options fetch
                                 (firstn (S i) processed) st0))).
    split.
    + rewrite Hwrites, nth_error_app1 by (rewrite Hlen; exact Hlt).
      apply HealthyRun.snapshots_nth; assumption.
    + split.
      * intros j earlier Hj Hearlier.
        rewrite HealthyRun.sortTagsMap_has, HealthyRun.tasks_index_has.
        apply orb_true_iff. left. apply StringFacts.mem_In.
        apply in_map. apply (nth_error_In _ j).
        rewrite nth_error_firstn.
        assert (E : (j <? S i)%nat = true) by (apply Nat.ltb_lt; lia).
        rewrite E. exact Hearlier.
      * intros key Hhas.
        rewrite HealthyRun.sortTagsMap_has, HealthyRun.tasks_index_has.
        apply orb_true_iff. right.
        change (Llm.historicalTagsMap st0)
          with (JsObject.fromEntries (JsObject.entries historicalTags)).
        rewrite HealthyRun.copy_has. exact Hhas.
  - rewrite Hwrites, nth_error_app2 by (rewrite Hlen; lia).
    rewrite Hlen, Nat.sub_diag, Hindex. reflexivity.
Qed.

(** An instance: two new posts beside an entry that is in the index. *)
Lemma persisted_at_once_example :
  map JsObject.keys
      (Index.fileWrites
         (fst (@Index.runGenerate ExampleHost.host (Examples.config false)
                 RunExamples.healthyDisk RunExamples.incremental
                 [GenerationExamples.post "b.md" ["Y"];
                  GenerationExamples.post "a.md" []]
                 [("c.md", ["X"])] GenerationExamples.up)))
  = [["b.md"; "c.md"]; ["a.md"; "b.md"; "c.md"]; ["a.md"; "b.md"]]
  /\ List.length
       (Index.fileWrites
          (fst (@Index.runGenerate ExampleHost.host (Examples.config false)
                  RunExamples.healthyDisk RunExamples.incremental
                  [GenerationExamples.post "b.md" ["Y"];
                   GenerationExamples.post "a.md" []]
                  [("c.md", ["X"])] GenerationExamples.up)))
     = 3.
Proof.
  split; [reflexivity|].
  refine (proj1 (every_processed_post_is_persisted_at_once ExampleHost.host
                   (Examples.config false) RunExamples.healthyDisk
                   RunExamples.incremental
                   [GenerationExamples.post "b.md" ["Y"];
                    GenerationExamples.post "a.md" []]
                   [("c.md", ["X"])] GenerationExamples.up _ _ _ _ _)).
  - reflexivity.
  - intros n. reflexivity.
  - reflexivity.
  - reflexivity.
  - discriminate.
Defined.

(** A run that finishes on a healthy disk (or dry) ends with an index in
    which every post it generated for has the tags of the merge of its
    first response, and every other key has the entry it had in the file,
    or none when it was pruned: entries of posts that were not processed
    are never rewritten. *)
Theorem finished_run_merges_new_and_keeps_old_entries :
  forall (host : Host) (config : TagSyncConfig)
         (writeFails : nat -> option string) (args : Index.CliOptions)
         (posts : list LoadedPost) (historicalTags : TagsMap)
         (fetch : string -> Z -> Llm.FetchOutcome),
    dryRun config = true \/ (forall n, writeFails n = None) ->
    JsString.truthy (apiKey config) = true ->
    posts <> [] ->
    NoDup (JsObject.keys historicalTags) ->
    let run :=
      Index.runGenerate config writeFails args posts historicalTags fetch in
    let processed := IndexFacts.postsToProcess args posts historicalTags in
    (exists stats, snd run = Index.Finished stats)
    /\ (forall key,
           ~ In key (map relativePath processed) ->
           JsObject.get key (Index.tagsMap (fst run))
           = if Index.filterApplied config
                || JsString.mem key (map relativePath posts)
             then JsObject.get key historicalTags
             else None)
    /\ (NoDup (map relativePath processed) ->
        forall post,
          In post processed ->
          JsObject.get (relativePath post) (Index.tagsMap (fst run))
          = Some
              (tags
                 (Taxonomy.mergeTags
                    (frontMatterTags post)
                    (resp_tags
                       (Llm.callChatCompletion
                          config (fetch (relativePath post) 0%Z)))
                    (Some (LlmFacts.historyIn historicalTags
                                              (relativePath post)))
                    config))).
Proof.
  intros host config writeFails args posts historicalTags fetch
         Hdisk Hkey Hposts Hnd run processed.
  set (options := IndexFacts.runOptions config writeFails historicalTags).
  set (st0 := HealthyRun.started config writeFails historicalTags).
  assert (Hrun :
            (exists stats, snd run = Index.Finished stats)
            /\ Index.tagsMap (fst run)
               = Index.pruneAbsent config posts
                   (Llm.historicalTagsMap
                      (QuietRun.tasks config options fetch processed st0))).
  { destruct processed as [|q qs] eqn:E.
    - unfold run.
      rewrite (IdleRun.runGenerate_idle config writeFails args posts
                 historicalTags fetch E Hposts).
      + split; [eexists; reflexivity | reflexivity].
      + destruct Hdisk as [Hd|Hd]; [left; exact Hd | right; apply Hd].
    - assert (Hne : IndexFacts.postsToProcess args posts historicalTags <> []).
      { fold processed. rewrite E. discriminate. }
      destruct (HealthyRun.runGenerate_healthy config writeFails args posts
                  historicalTags fetch Hdisk Hkey Hne) as [H1 [H2 _]].
      fold run in H1, H2. split; [eexists; exact H1|].
      rewrite H2. unfold HealthyRun.finalIndex, HealthyRun.generated.
      fold processed. rewrite E. reflexivity. }
  destruct Hrun as [Hfinished Hindex].
  split; [exact Hfinished|]. rewrite Hindex. split.
  - intros key Hkeyfree. rewrite IdleRun.pruneAbsent_get.
    destruct (QuietRun.tasks_frame config options fetch processed st0 key
                Hkeyfree) as [_ [_ Hframe]].
    rewrite Hframe.
    change (Llm.historicalTagsMap st0)
      with (JsObject.fromEntries (JsObject.entries historicalTags)).
    rewrite (HealthyRun.copy_get historicalTags key Hnd). reflexivity.
  - intros Hpaths post Hin. rewrite IdleRun.pruneAbsent_get.
    assert (Hmem : JsString.mem (relativePath post) (map relativePath posts)
                   = true).
    { apply StringFacts.mem_In. apply in_map.
      exact (IdleRun.postsToProcess_incl args posts historicalTags post Hin). }
    rewrite Hmem, orb_true_r.
    rewrite (HealthyRun.tasks_index_own config options fetch processed st0
               post Hpaths Hin).
    unfold QuietRun.mergedAt, LlmFacts.responseAt, LlmFacts.historyIn.
    change (Llm.historicalTagsMap st0)
      with (JsObject.fromEntries (JsObject.entries historicalTags)).
    rewrite (HealthyRun.copy_get historicalTags (relativePath post) Hnd).
    reflexivity.
Qed.

(** An instance: a new post, a post that has its entry, and an entry
    whose post is gone. *)
Lemma finished_run_example :
  let run :=
    @Index.runGenerate ExampleHost.host (Examples.config false)
      RunExamples.healthyDisk RunExamples.incremental
      [GenerationExamples.post "a.md" ["Y"];
       GenerationExamples.post "b.md" ["Y"]]
      [("b.md", ["X"]); ("gone.md", ["Z"])] GenerationExamples.up in
  JsObject.get "a.md" (Index.tagsMap (fst run)) = Some ["Y"; "Generated"]
  /\ JsObject.get "b.md" (Index.tagsMap (fst run)) = Some ["X"]
  /\ JsObject.get "gone.md" (Index.tagsMap (fst run)) = None.
Proof.
  cbv zeta.
  destruct (finished_run_merges_new_and_keeps_old_entries ExampleHost.host
              (Examples.config false) RunExamples.healthyDisk
              RunExamples.incremental
              [GenerationExamples.post "a.md" ["Y"];
               GenerationExamples.post "b.md" ["Y"]]
              [("b.md", ["X"]); ("gone.md", ["Z"])] GenerationExamples.up)
    as [_ [Hold Hnew]].
  - right. intros n. reflexivity.
  - reflexivity.
  - discriminate.
  - constructor; [intros [H|[]]; discriminate H|].
    constructor; [intros []|constructor].
  - split; [|split].
    + refine (eq_trans (Hnew _ (GenerationExamples.post "a.md" ["Y"]) _) _).
      * constructor; [intros []|constructor].
      * left. reflexivity.
      * reflexivity.
    + refine (eq_trans (Hold "b.md" _) _); [|reflexivity].
      intros [H|[]]. discriminate H.
    + refine (eq_trans (Hold "gone.md" _) _); [|reflexivity].
      intros [H|[]]. discriminate H.
Defined.

(* ================================================================== *)
(** ** [trim], [toPosix] and [ensureArray] *)

Module TrimFacts.
Import JsString StringFacts.

Lemma trimEnd_idempotent (l : list (ascii * bool)) :
  trimEndUnits (trimEndUnits l) = trimEndUnits l.
Proof.
  induction l as [|c r IH]; [reflexivity|].
  simpl. destruct (trimEndUnits r) as [|x r'] eqn:E.
  - destruct (isWhiteSpace c) eqn:Hc; [reflexivity|].
    simpl. rewrite Hc. reflexivity.
  - change (trimEndUnits (c :: x :: r'))
      with (match trimEndUnits (x :: r') with
            | [] => if isWhiteSpace c then [] else [c]
            | r'' => c :: r''
            end).
    rewrite IH. reflexivity.
Qed.

Lemma trimStart_idempotent (l : list (ascii * bool)) :
  trimStartUnits (trimStartUnits l) = trimStartUnits l.
Proof.
  induction l as [|c r IH]; [reflexivity|].
  simpl. destruct (isWhiteSpace c) eqn:Hc; [exact IH|].
  simpl. rewrite Hc. reflexivity.
Qed.

Lemma trim_commutes (l : list (ascii * bool)) :
  trimEndUnits (trimStartUnits l) = trimStartUnits (trimEndUnits l).
Proof.
  induction l as [|c r IH]; [reflexivity|].
  simpl. destruct (isWhiteSpace c) eqn:Hc.
  - rewrite IH. destruct (trimEndUnits r) as [|x r']; [reflexivity|].
    simpl. rewrite Hc. reflexivity.
  - simpl. destruct (trimEndUnits r) as [|x r']; rewrite ?Hc; simpl;
      rewrite ?Hc; reflexivity.
Qed.

Lemma trimChars_idempotent (l : list ascii) :
  trimChars (trimChars l) = trimChars l.
Proof.
  unfold trimChars at 1. rewrite trimmed_scan.
  rewrite trim_commutes, trimEnd_idempotent, trimStart_idempotent.
  reflexivity.
Qed.

Lemma trim_idempotent (s : string) : trim (trim s) = trim s.
Proof.
  unfold trim, onChars. rewrite list_ascii_of_string_of_list_ascii.
  rewrite trimChars_idempotent. reflexivity.
Qed.

(** Filtering the trimmed items that are truthy, twice. *)
Lemma clean_items (l : list string) :
  Forall (fun t => truthy t = true /\ trim t = t) l ->
  List.filter truthy (map trim l) = l.
Proof.
  induction 1 as [|t r [Ht Hfix] _ IH]; [reflexivity|].
  simpl. rewrite Hfix, Ht, IH. reflexivity.
Qed.

Lemma cleaned_items (l : list string) :
  Forall (fun t => truthy t = true /\ trim t = t)
         (List.filter truthy (map trim l)).
Proof.
  apply Forall_forall. intros t Ht. apply filter_In in Ht.
  destruct Ht as [Hin Ht]. split; [exact Ht|].
  apply in_map_iff in Hin. destruct Hin as [x [<- _]].
  apply trim_idempotent.
Qed.

(** [s.split(sep).join(other)] puts [other] for every [sep]. *)
Lemma split_join_chars (sep other : ascii) (l : list ascii) :
  list_ascii_of_string
    (String.concat (String other EmptyString)
                   (map string_of_list_ascii (splitChars sep l)))
  = map (fun c => if Ascii.eqb c sep then other else c) l.
Proof.
  induction l as [|c r IH]; [reflexivity|].
  simpl splitChars. simpl map at 2.
  destruct (Ascii.eqb c sep).
  - destruct (splitChars sep r) as [|w ws] eqn:E.
    + destruct r; simpl in E; [discriminate|].
      destruct (Ascii.eqb a sep); [discriminate|].
      destruct (splitChars sep r); discriminate.
    + simpl map. simpl map in IH.
      change (String.concat (String other EmptyString)
                (string_of_list_ascii [] :: string_of_list_ascii w
                   :: map string_of_list_ascii ws))
        with (String other
                (String.concat (String other EmptyString)
                   (string_of_list_ascii w :: map string_of_list_ascii ws))).
      rewrite <- IH. reflexivity.
  - destruct (splitChars sep r) as [|w ws] eqn:E.
    + destruct r; simpl in E; [discriminate|].
      destruct (Ascii.eqb a sep); [discriminate|].
      destruct (splitChars sep r); discriminate.
    + simpl map. simpl map in IH. rewrite <- IH.
      destruct ws as [|w' ws']; reflexivity.
Qed.

End TrimFacts.

(** [toPosix] puts a slash for every [path.sep] of a path and leaves the
    other code units as they are; applying it again changes nothing, and
    where [path.sep] is the slash it returns the path itself. *)
Theorem toPosix_replaces_every_separator :
  forall (host : Host) (filePath : string),
    list_ascii_of_string (Utils.toPosix filePath)
    = map (fun c => if Ascii.eqb c pathSep then "/"%char else c)
          (list_ascii_of_string filePath)
    /\ Utils.toPosix (Utils.toPosix filePath) = Utils.toPosix filePath
    /\ (pathSep = "/"%char -> Utils.toPosix filePath = filePath).
Proof.
  intros host filePath.
  assert (Hchars :
            forall p,
              list_ascii_of_string (Utils.toPosix p)
              = map (fun c => if Ascii.eqb c pathSep then "/"%char else c)
                    (list_ascii_of_string p)).
  { intros p. unfold Utils.toPosix, JsString.join, JsString.split.
    apply TrimFacts.split_join_chars. }
  split; [apply Hchars|]. split.
  - apply StringFacts.chars_inj. rewrite !Hchars, map_map.
    apply map_ext. intros c.
    destruct (Ascii.eqb c pathSep) eqn:E; [|rewrite E; reflexivity].
    destruct (Ascii.eqb "/"%char pathSep); reflexivity.
  - intros Hsep. apply StringFacts.chars_inj. rewrite Hchars, Hsep.
    rewrite <- (map_id (list_ascii_of_string filePath)) at 2.
    apply map_ext. intros c.
    destruct (Ascii.eqb c "/"%char) eqn:E; [|reflexivity].
    apply Ascii.eqb_eq in E. symmetry. exact E.
Qed.

(** Every tag [ensureArray] returns is trimmed and not empty; a string
    is read as the array of its comma-separated pieces; and what
    [ensureArray] returns, read again as an array, is returned as it
    is. *)
Theorem ensureArray_returns_clean_tags :
  forall (host : Host) (value : FrontMatterValue),
    Forall (fun tag => tag <> EmptyString /\ JsString.trim tag = tag)
           (Utils.ensureArray value)
    /\ Utils.ensureArray (FmArray (Utils.ensureArray value))
       = Utils.ensureArray value
    /\ (forall s,
           Utils.ensureArray (FmString s)
           = Utils.ensureArray (FmArray (JsString.split ","%char s))).
Proof.
  intros host value.
  assert (Hclean :
            Forall (fun t => JsString.truthy t = true /\ JsString.trim t = t)
                   (Utils.ensureArray value)).
  { destruct value as [|items|s|s]; unfold Utils.ensureArray.
    - constructor.
    - apply TrimFacts.cleaned_items.
    - apply TrimFacts.cleaned_items.
    - apply (TrimFacts.cleaned_items [s]). }
  split; [|split].
  - eapply Forall_impl; [|exact Hclean].
    intros t [Ht Hfix]. split; [|exact Hfix].
    apply StringFacts.truthy_true. exact Ht.
  - simpl. apply TrimFacts.clean_items. exact Hclean.
  - intros s. reflexivity.
Qed.

(* ================================================================== *)
(** ** The front-matter synchroniser: counts, writes and the next run *)

Module SyncFacts.
Import JsString StringFacts ContainerFacts UnionFacts.
Import Frontmatter FrontmatterFacts.

Section WithHost.
Context {host : Host}.

(** A permutation of a first-wins union is its own union. *)
Lemma permuted_union_fixed (norm : string -> string) (l m : list string) :
  (forall t, norm (norm t) = norm t) ->
  Permutation m (Spec.orderedUnionFrom norm [] l) ->
  Spec.orderedUnionFrom norm [] m = m.
Proof.
  intros Hidem Hp. apply (union_fixed norm).
  - pose proof (union_out_fixed norm Hidem l []) as Hall.
    rewrite Forall_forall in *. intros t Ht.
    apply Hall. exact (Permutation_in _ Hp Ht).
  - apply (Permutation_NoDup
             (l := map toLowerCase (Spec.orderedUnionFrom norm [] l))).
    + apply Permutation_map. apply Permutation_sym. exact Hp.
    + apply (union_out norm l []).
  - intros n _. reflexivity.
Qed.


Lemma dedupeTags_perm (tagList : list string) (sort : bool) :
  Permutation (dedupeTags tagList sort)
              (Spec.orderedUnionFrom trim [] tagList).
Proof.
  rewrite dedupeTags_union. destruct sort.
  - apply arraySort_perm.
  - apply Permutation_refl.
Qed.

Lemma dedupeTags_clean (tagList : list string) (sort : bool) :
  Forall (fun t => truthy t = true /\ trim t = t) (dedupeTags tagList sort).
Proof.
  pose proof (union_out_fixed trim TrimFacts.trim_idempotent tagList [])
    as Hall.
  rewrite Forall_forall in *. intros t Ht. apply Hall.
  exact (Permutation_in _ (dedupeTags_perm tagList sort) Ht).
Qed.

Lemma dedupeTags_idempotent (tagList : list string) (sort : bool) :
  dedupeTags (dedupeTags tagList sort) sort = dedupeTags tagList sort.
Proof.
  rewrite (dedupeTags_union (dedupeTags tagList sort)).
  rewrite (permuted_union_fixed trim tagList _ TrimFacts.trim_idempotent
             (dedupeTags_perm tagList sort)).
  destruct sort; [|reflexivity].
  apply StabilityFacts.arraySort_fixed.
  rewrite dedupeTags_union.
  apply (arraySort_sorted (localeCompare "zh-CN")).
  apply localeCompare_total.
Qed.

Section Sync.
Variable options : FrontmatterSyncOptions.
Variable postMap : JsMap.t LoadedPost.
Variable filterApplied : bool.
Variable workspaceRoot : string.
Variable fileExists : string -> bool.

(** What is written for the entries that are [updated]. *)
Definition writesOf (entries : list (string * list string))
  : list (string * list string) :=
  if dryRun options then []
  else
    map (fun e => (entryPath e, dedupeTags (snd e) (sortTags options)))
        (List.filter
           (fun e =>
              statusEqb
                (statusOf options postMap filterApplied workspaceRoot
                          fileExists e)
                IsUpdated)
           entries).

Lemma sync_fold_writes (entries : list (string * list string))
      (acc : FrontmatterSyncResult) :
  let result :=
    fold_left
      (syncEntry options postMap filterApplied workspaceRoot fileExists)
      entries acc in
  totalEntries result = totalEntries acc
  /\ written result = written acc ++ writesOf entries.
Proof.
  revert acc. induction entries as [|[rawPath tagList] r IH]; intros acc.
  - simpl. unfold writesOf. simpl. destruct (dryRun options);
      rewrite app_nil_r; split; reflexivity.
  - set (step := syncEntry options postMap filterApplied workspaceRoot
                           fileExists) in *.
    change (fold_left step ((rawPath, tagList) :: r) acc)
      with (fold_left step r (step acc (rawPath, tagList))).
    specialize (IH (step acc (rawPath, tagList))).
    cbv zeta in IH. destruct IH as [Ht Hw].
    cbv zeta. rewrite Ht, Hw. clear Ht Hw.
    unfold writesOf. simpl List.filter.
    unfold step, syncEntry, statusOf, entryPath. simpl fst. simpl snd.
    destruct (JsMap.get (Utils.toPosix rawPath) postMap) as [post|].
    + destruct (arraysEqual _ _); simpl;
        destruct (dryRun options); simpl;
          rewrite <- ?app_assoc; split; reflexivity.
    + destruct filterApplied; simpl;
        [destruct (dryRun options); split; reflexivity|].
      destruct (fileExists _); simpl;
        destruct (dryRun options); split; reflexivity.
Qed.

Lemma statuses_partition (entries : list (string * list string)) :
  (List.length
     (pathsOf options postMap filterApplied workspaceRoot fileExists
              IsUpdated entries)
   + List.length
       (pathsOf options postMap filterApplied workspaceRoot fileExists
                IsUnchanged entries)
   + List.length
       (pathsOf options postMap filterApplied workspaceRoot fileExists
                IsMissing entries)
   + List.length
       (pathsOf options postMap filterApplied workspaceRoot fileExists
                IsFilteredOut entries)
   = List.length entries)%nat.
Proof.
  unfold pathsOf. rewrite !length_map.
  induction entries as [|e r IH]; [reflexivity|].
  simpl List.filter.
  destruct (statusOf options postMap filterApplied workspaceRoot fileExists e);
    simpl; lia.
Qed.

End Sync.

Lemma sync_written (tagsMap : TagsMap) (posts : list LoadedPost)
      (workspaceRoot : string) (fileExists : string -> bool)
      (options : FrontmatterSyncOptions) :
  let result :=
    syncFrontmatterFromTags tagsMap posts workspaceRoot fileExists options in
  totalEntries result = List.length (JsObject.entries tagsMap)
  /\ written result
     = writesOf options (postMapOf posts) (filterActive options)
                workspaceRoot fileExists (JsObject.entries tagsMap).
Proof.
  cbv zeta. unfold syncFrontmatterFromTags.
  destruct (List.length (JsObject.entries tagsMap) =? 0)%nat eqn:E.
  - apply Nat.eqb_eq in E. rewrite E.
    apply length_zero_iff_nil in E. rewrite E.
    unfold writesOf. destruct (dryRun options); split; reflexivity.
  - pose proof
         (sync_fold_writes options (postMapOf posts) (filterActive options)
            workspaceRoot fileExists (JsObject.entries tagsMap)
            {| updated := []; unchanged := []; missing := [];
               filteredOut := [];
               totalEntries := List.length (JsObject.entries tagsMap);
               written := [] |}) as H.
    cbv zeta in H. exact H.
Qed.

End WithHost.

End SyncFacts.

(** Every entry of the index is counted once: the four lists of the
    result have as many paths together as the index has entries, and that
    number is [totalEntries]. *)
Theorem sync_counts_every_entry_once :
  forall (host : Host) (tagsMap : TagsMap) (posts : list LoadedPost)
         (workspaceRoot : string) (fileExists : string -> bool)
         (options : Frontmatter.FrontmatterSyncOptions),
    let result :=
      Frontmatter.syncFrontmatterFromTags tagsMap posts workspaceRoot
                                          fileExists options in
    Frontmatter.totalEntries result = List.length (JsObject.entries tagsMap)
    /\ (List.length (Frontmatter.updated result)
        + List.length (Frontmatter.unchanged result)
        + List.length (Frontmatter.missing result)
        + List.length (Frontmatter.filteredOut result)
        = Frontmatter.totalEntries result)%nat.
Proof.
  intros host tagsMap posts workspaceRoot fileExists options result.
  destruct (SyncFacts.sync_written tagsMap posts workspaceRoot fileExists
                                   options) as [Ht _].
  destruct (FrontmatterFacts.sync_lists tagsMap posts workspaceRoot
                                        fileExists options)
    as [Hu [Hn [Hm Hf]]].
  cbv zeta in Ht, Hu, Hn, Hm, Hf. unfold result.
  rewrite Ht, Hu, Hn, Hm, Hf. split; [reflexivity|].
  apply SyncFacts.statuses_partition.
Qed.

(** The synchroniser writes a file only for a post it reports as
    [updated], once, in the order of the report, with the index's tags
    after [dedupeTags]; under [dryRun] it writes none, and the report is
    the same. *)
Theorem sync_writes_exactly_the_updated_posts :
  forall (host : Host) (tagsMap : TagsMap) (posts : list LoadedPost)
         (workspaceRoot : string) (fileExists : string -> bool)
         (options : Frontmatter.FrontmatterSyncOptions),
    let result :=
      Frontmatter.syncFrontmatterFromTags tagsMap posts workspaceRoot
                                          fileExists options in
    let dry :=
      Frontmatter.syncFrontmatterFromTags
        tagsMap posts workspaceRoot fileExists
        {| Frontmatter.dryRun := true;
           Frontmatter.filter := Frontmatter.filter options;
           Frontmatter.includeDrafts := Frontmatter.includeDrafts options;
           Frontmatter.sortTags := Frontmatter.sortTags options |} in
    map fst (Frontmatter.written result)
    = (if Frontmatter.dryRun options then [] else Frontmatter.updated result)
    /\ Forall
         (fun w =>
            exists rawPath tagList,
              In (rawPath, tagList) (JsObject.entries tagsMap)
              /\ fst w = Utils.toPosix rawPath
              /\ snd w = Frontmatter.dedupeTags tagList
                           (Frontmatter.sortTags options))
         (Frontmatter.written result)
    /\ Frontmatter.written dry = []
    /\ Frontmatter.updated dry = Frontmatter.updated result
    /\ Frontmatter.unchanged dry = Frontmatter.unchanged result
    /\ Frontmatter.missing dry = Frontmatter.missing result
    /\ Frontmatter.filteredOut dry = Frontmatter.filteredOut result.
Proof.
  intros host tagsMap posts workspaceRoot fileExists options result dry.
  destruct (SyncFacts.sync_written tagsMap posts workspaceRoot fileExists
                                   options) as [_ Hw].
  destruct (FrontmatterFacts.sync_lists tagsMap posts workspaceRoot
                                        fileExists options)
    as [Hu [Hn [Hm Hf]]].
  cbv zeta in Hw, Hu, Hn, Hm, Hf. fold result in Hw, Hu, Hn, Hm, Hf.
  split; [|split].
  - rewrite Hw, Hu. unfold SyncFacts.writesOf, FrontmatterFacts.pathsOf.
    destruct (Frontmatter.dryRun options); [reflexivity|].
    rewrite map_map. reflexivity.
  - rewrite Hw. unfold SyncFacts.writesOf.
    destruct (Frontmatter.dryRun options); [constructor|].
    apply Forall_forall. intros w Hin.
    apply in_map_iff in Hin. destruct Hin as [[rawPath tagList] [<- Hin]].
    apply filter_In in Hin. destruct Hin as [Hin _].
    exists rawPath, tagList. repeat split. exact Hin.
  - set (dryOptions :=
           {| Frontmatter.dryRun := true;
              Frontmatter.filter := Frontmatter.filter options;
              Frontmatter.includeDrafts := Frontmatter.includeDrafts options;
              Frontmatter.sortTags := Frontmatter.sortTags options |}) in *.
    destruct (SyncFacts.sync_written tagsMap posts workspaceRoot fileExists
                                     dryOptions) as [_ Hw'].
    destruct (FrontmatterFacts.sync_lists tagsMap posts workspaceRoot
                                          fileExists dryOptions)
      as [Hu' [Hn' [Hm' Hf']]].
    cbv zeta in Hw', Hu', Hn', Hm', Hf'.
    fold dry in Hw', Hu', Hn', Hm', Hf'.
    rewrite Hw', Hu', Hn', Hm', Hf', Hu, Hn, Hm, Hf.
    repeat split.
Qed.

(** What the synchroniser writes it finds unchanged the next time:
    [dedupeTags] is idempotent, and a post whose tags are the array the
    synchroniser wrote for an entry compares equal to that entry. *)
Theorem applied_tags_are_unchanged_on_the_next_run :
  forall (host : Host) (tagList : list string) (sort : bool),
    let expected := Frontmatter.dedupeTags tagList sort in
    Frontmatter.dedupeTags expected sort = expected
    /\ Utils.ensureArray (FmArray expected) = expected
    /\ Frontmatter.arraysEqual
         expected
         (Frontmatter.dedupeTags (Utils.ensureArray (FmArray expected)) sort)
       = true.
Proof.
  intros host tagList sort expected.
  assert (H1 : Frontmatter.dedupeTags expected sort = expected)
    by apply SyncFacts.dedupeTags_idempotent.
  assert (H2 : Utils.ensureArray (FmArray expected) = expected).
  { simpl. apply TrimFacts.clean_items. apply SyncFacts.dedupeTags_clean. }
  split; [exact H1|]. split; [exact H2|].
  rewrite H2, H1. apply FrontmatterFacts.arraysEqual_eq. reflexivity.
Qed.

(* ================================================================== *)
(** ** [index.ts]: the command line *)

Module Cli.

Inductive CommandName : Type := Generate | Apply.

Definition COMMAND_ALIASES : JsMap.t CommandName :=
  JsMap.ofEntries
    [("generate", Generate); ("sync", Generate); ("frontmatter", Apply);
     ("apply", Apply); ("apply-frontmatter", Apply);
     ("tags-to-frontmatter", Apply)].

(** [s.startsWith(prefix)] and [s.slice(start)]. *)
Fixpoint startsWith (s prefix : string) {struct prefix} : bool :=
  match prefix, s with
  | EmptyString, _ => true
  | String a prefix', String b s' => Ascii.eqb b a && startsWith s' prefix'
  | String _ _, EmptyString => false
  end.

Definition slice (s : string) (start : nat) : string :=
  string_of_list_ascii (skipn start (list_ascii_of_string s)).

Definition extractCommand {host : Host} (argv : list string)
  : CommandName * list string :=
  match argv with
  | [] => (Generate, [])
  | first :: rest =>
      if startsWith first "--" then (Generate, argv)
      else
        let normalized := toLowerCase first in
        match JsMap.get normalized COMMAND_ALIASES with
        | None => (Generate, argv)
        | Some mapped => (mapped, rest)
        end
  end.

Record CliOptions : Type := {
    dryRun : option bool;
    includeDrafts : option bool;
    filter : option string;
    debug : option bool;
    full : option bool
}.

(** [rawValue ? rawValue !== 'false' : true]. *)
Definition flagValue (rawValue : option string) : bool :=
  match rawValue with
  | Some v => if JsString.truthy v then negb (v =? "false") else true
  | None => true
  end.

(** One turn of the [for (const arg of argv)] loop of [parseArgs]. *)
Definition parseArg (options : CliOptions) (arg : string) : CliOptions :=
  if negb (startsWith arg "--") then options
  else
    let pieces := JsString.split "="%char (slice arg 2) in
    let flag := hd EmptyString pieces in
    let rawValue := nth_error pieces 1 in
    if flag =? "dry-run" then
      {| dryRun := Some (flagValue rawValue);
         includeDrafts := includeDrafts options; filter := filter options;
         debug := debug options; full := full options |}
    else if flag =? "include-drafts" then
      {| dryRun := dryRun options;
         includeDrafts := Some (flagValue rawValue); filter := filter options;
         debug := debug options; full := full options |}
    else if flag =? "filter" then
      {| dryRun := dryRun options; includeDrafts := includeDrafts options;
         filter := Some (match rawValue with
                         | Some v => v
                         | None => EmptyString
                         end);
         debug := debug options; full := full options |}
    else if flag =? "debug" then
      {| dryRun := dryRun options; includeDrafts := includeDrafts options;
         filter := filter options;
         debug := Some (flagValue rawValue); full := full options |}
    else if (flag =? "full") || (flag =? "force-full") then
      {| dryRun := dryRun options; includeDrafts := includeDrafts options;
         filter := filter options;
         debug := debug options; full := Some (flagValue rawValue) |}
    else options.

Definition noOptions : CliOptions :=
  {| dryRun := None; includeDrafts := None; filter := None;
     debug := None; full := None |}.

Definition parseArgs (argv : list string) : CliOptions :=
  fold_left parseArg argv noOptions.

End Cli.

Module CliFacts.
Import JsString StringFacts.
Import Cli.

(** The later of two values of an option, when it is set. *)
Definition later {A} (a b : option A) : option A :=
  match b with
  | Some v => Some v
  | None => a
  end.

(** Options set one after the other. *)
Definition override (first second : CliOptions) : CliOptions :=
  {| dryRun := later (dryRun first) (dryRun second);
     includeDrafts := later (includeDrafts first) (includeDrafts second);
     filter := later (filter first) (filter second);
     debug := later (debug first) (debug second);
     full := later (full first) (full second) |}.

Lemma override_noOptions (options : CliOptions) :
  override options noOptions = options.
Proof. destruct options. reflexivity. Qed.

Lemma override_assoc (a b c : CliOptions) :
  override a (override b c) = override (override a b) c.
Proof.
  unfold override, later. simpl.
  destruct (dryRun c), (includeDrafts c), (filter c), (debug c), (full c);
    reflexivity.
Qed.

Lemma parseArg_override (options : CliOptions) (arg : string) :
  parseArg options arg = override options (parseArg noOptions arg).
Proof.
  unfold parseArg.
  destruct (negb (startsWith arg "--"));
    [symmetry; apply override_noOptions|].
  cbv zeta.
  repeat match goal with
         | |- context [if ?b then _ else _] =>
             destruct b; [destruct options; reflexivity|]
         end.
  symmetry. apply override_noOptions.
Qed.

Lemma fold_override (argv : list string) (options : CliOptions) :
  fold_left parseArg argv options = override options (parseArgs argv).
Proof.
  unfold parseArgs. revert options.
  induction argv as [|arg rest IH] using rev_ind; intros options.
  - simpl. symmetry. apply override_noOptions.
  - rewrite !fold_left_app. simpl.
    rewrite parseArg_override, IH.
    rewrite (parseArg_override (fold_left parseArg rest noOptions)).
    symmetry. apply override_assoc.
Qed.

Lemma splitChars_cons (sep : ascii) (l : list ascii) :
  exists w ws, splitChars sep l = w :: ws.
Proof.
  destruct l as [|c r]; [exists [], []; reflexivity|].
  simpl. destruct (Ascii.eqb c sep); [eexists; eexists; reflexivity|].
  destruct (splitChars sep r) as [|w ws]; eexists; eexists; reflexivity.
Qed.

(** Cutting after a first piece that holds no separator. *)
Lemma splitChars_app (sep : ascii) (w l : list ascii) :
  forallb (fun c => negb (Ascii.eqb c sep)) w = true ->
  splitChars sep (w ++ sep :: l) = w :: splitChars sep l.
Proof.
  induction w as [|c w IH]; intros Hw.
  - simpl. rewrite Ascii.eqb_refl. reflexivity.
  - simpl in Hw. apply andb_true_iff in Hw. destruct Hw as [Hc Hw].
    apply negb_true_iff in Hc. simpl. rewrite Hc, (IH Hw). reflexivity.
Qed.

Lemma chars_app (a b : string) :
  list_ascii_of_string (a ++ b)
  = (list_ascii_of_string a ++ list_ascii_of_string b)%list.
Proof.
  induction a as [|c a IH]; [reflexivity|].
  simpl. rewrite IH. reflexivity.
Qed.

(** The pieces of an argument [--name=value]. *)
Lemma pieces_of_argument (name value : string) :
  forallb (fun c => negb (Ascii.eqb c "="%char)) (list_ascii_of_string name)
  = true ->
  split "="%char (slice ("--" ++ name ++ "=" ++ value) 2)
  = name :: split "="%char value.
Proof.
  intros Hname. unfold split, slice.
  rewrite list_ascii_of_string_of_list_ascii.
  change (list_ascii_of_string ("--" ++ name ++ "=" ++ value))
    with ("-"%char :: "-"%char :: list_ascii_of_string (name ++ "=" ++ value)).
  simpl skipn. rewrite chars_app.
  change (list_ascii_of_string (String "=" value))
    with ("="%char :: list_ascii_of_string value).
  rewrite (splitChars_app _ _ _ Hname). simpl map.
  rewrite string_of_list_ascii_of_string. reflexivity.
Qed.

Lemma startsWith_dashes (s : string) :
  startsWith s "--" = true <-> exists r, s = String "-" (String "-" r).
Proof.
  split.
  - destruct s as [|c1 [|c2 r]]; cbn [startsWith]; try discriminate.
    + rewrite andb_false_r. discriminate.
    + intros H. apply andb_true_iff in H. destruct H as [H1 H2].
      apply andb_true_iff in H2. destruct H2 as [H2 _].
      apply Ascii.eqb_eq in H1, H2. subst c1 c2. exists r. reflexivity.
  - intros [r ->]. reflexivity.
Qed.

Lemma toLowerCase_dashes {host : Host} (s : string) :
  startsWith s "--" = true -> startsWith (toLowerCase s) "--" = true.
Proof.
  intros H. apply startsWith_dashes in H. destruct H as [r ->].
  rewrite (toLowerCase_delimiter "" (String "-" r) "-" eq_refl).
  rewrite (toLowerCase_delimiter "" r "-" eq_refl).
  rewrite (proj2 (toLowerCase_empty "") eq_refl). reflexivity.
Qed.

Lemma aliases_listed :
  COMMAND_ALIASES
  = [("generate", Generate); ("sync", Generate); ("frontmatter", Apply);
     ("apply", Apply); ("apply-frontmatter", Apply);
     ("tags-to-frontmatter", Apply)].
Proof. reflexivity. Qed.

(** No alias is a flag. *)
Lemma alias_is_no_flag (word : string) :
  startsWith word "--" = true -> JsMap.get word COMMAND_ALIASES = None.
Proof.
  intros H. apply startsWith_dashes in H. destruct H as [r ->].
  reflexivity.
Qed.

End CliFacts.

(** [parseArgs] reads the arguments from left to right and a later
    argument overrides an earlier one, option by option; arguments that do
    not start with two dashes are ignored. *)
Theorem parseArgs_lets_later_arguments_win :
  forall first second : list string,
    Cli.parseArgs (first ++ second)
    = CliFacts.override (Cli.parseArgs first) (Cli.parseArgs second)
    /\ Cli.parseArgs (List.filter (fun arg => Cli.startsWith arg "--") first)
       = Cli.parseArgs first.
Proof.
  intros first second. split.
  - unfold Cli.parseArgs at 1. rewrite fold_left_app.
    apply CliFacts.fold_override.
  - unfold Cli.parseArgs. generalize Cli.noOptions.
    induction first as [|arg rest IH]; intros options; [reflexivity|].
    cbn [List.filter fold_left].
    destruct (Cli.startsWith arg "--") eqn:E; cbn [fold_left].
    + apply IH.
    + rewrite IH. f_equal. unfold Cli.parseArg. rewrite E. reflexivity.
Qed.

(** The command word decides the command and nothing else: the options
    parsed from what [extractCommand] leaves are the options parsed from
    the whole command line; and the command is [apply] exactly when the
    first argument, in lower case, is one of its four names. *)
Theorem command_word_does_not_change_the_options :
  forall (host : Host) (argv : list string),
    Cli.parseArgs (snd (Cli.extractCommand argv)) = Cli.parseArgs argv
    /\ (fst (Cli.extractCommand argv) = Cli.Apply
        <-> exists first rest,
            argv = first :: rest
            /\ In (toLowerCase first)
                  ["frontmatter"; "apply"; "apply-frontmatter";
                   "tags-to-frontmatter"]).
Proof.
  intros host argv. destruct argv as [|first rest].
  - split; [reflexivity|]. split; [discriminate|].
    intros [f [r [H _]]]. discriminate.
  - unfold Cli.extractCommand.
    destruct (Cli.startsWith first "--") eqn:Hflag.
    + split; [reflexivity|]. split; [discriminate|].
      intros [f [r [H Hin]]]. injection H as <- <-.
      pose proof (CliFacts.alias_is_no_flag _
                    (CliFacts.toLowerCase_dashes _ Hflag)) as Hnone.
      simpl in Hin.
      destruct Hin as [E|[E|[E|[E|[]]]]]; rewrite <- E in Hnone;
        discriminate.
    + cbv zeta.
      assert (Hwords :
                forall word,
                  JsMap.get word Cli.COMMAND_ALIASES = Some Cli.Apply
                  <-> In word ["frontmatter"; "apply"; "apply-frontmatter";
                               "tags-to-frontmatter"]).
      { intros word. rewrite CliFacts.aliases_listed. cbn [JsMap.get].
        destruct (String.eqb_spec "generate" word) as [<-|H1];
          [split; [discriminate | intros H; repeat destruct H as [H|H];
                                  try discriminate H; destruct H]|].
        destruct (String.eqb_spec "sync" word) as [<-|H2];
          [split; [discriminate | intros H; repeat destruct H as [H|H];
                                  try discriminate H; destruct H]|].
        destruct (String.eqb_spec "frontmatter" word) as [<-|H3];
          [split; [intros _; left; reflexivity | reflexivity]|].
        destruct (String.eqb_spec "apply" word) as [<-|H4];
          [split; [intros _; right; left; reflexivity | reflexivity]|].
        destruct (String.eqb_spec "apply-frontmatter" word) as [<-|H5];
          [split; [intros _; right; right; left; reflexivity | reflexivity]|].
        destruct (String.eqb_spec "tags-to-frontmatter" word) as [<-|H6];
          [split; [intros _; right; right; right; left; reflexivity
                  | reflexivity]|].
        split; [discriminate|].
        intros [H|[H|[H|[H|[]]]]]; congruence. }
      destruct (JsMap.get (toLowerCase first) Cli.COMMAND_ALIASES)
        as [mapped|] eqn:Hget; simpl fst; simpl snd.
      * split.
        -- unfold Cli.parseArgs. cbn [fold_left].
           replace (Cli.parseArg Cli.noOptions first) with Cli.noOptions;
             [reflexivity|].
           unfold Cli.parseArg. rewrite Hflag. reflexivity.
        -- split.
           ++ intros ->. exists first, rest. split; [reflexivity|].
              apply Hwords. exact Hget.
           ++ intros [f [r [H Hin]]]. injection H as <- <-.
              apply Hwords in Hin. congruence.
      * split; [reflexivity|]. split; [discriminate|].
        intros [f [r [H Hin]]]. injection H as <- <-.
        apply Hwords in Hin. congruence.
Qed.

(** An argument [--name=value] is cut at every equals sign and only the
    piece after the first one is its value: a filter that holds an equals
    sign loses what follows it, and a switch is off only for the value
    [false] as it stands. *)
Theorem argument_values_end_at_the_next_equals_sign :
  forall value : string,
    let given := hd EmptyString (JsString.split "="%char value) in
    Cli.filter (Cli.parseArgs [("--filter=" ++ value)%string]) = Some given
    /\ Cli.dryRun (Cli.parseArgs [("--dry-run=" ++ value)%string])
       = Some (negb (given =? "false"))
    /\ Cli.full (Cli.parseArgs [("--full=" ++ value)%string])
       = Some (negb (given =? "false"))
    /\ Cli.full (Cli.parseArgs [("--force-full=" ++ value)%string])
       = Some (negb (given =? "false"))
    /\ Cli.dryRun (Cli.parseArgs ["--dry-run"]) = Some true
    /\ Cli.filter (Cli.parseArgs ["--filter"]) = Some EmptyString.
Proof.
  intros value given.
  assert (Hvalue :
            forall rest,
              nth_error (rest :: JsString.split "="%char value) 1
              = Some given).
  { intros rest. unfold given, JsString.split.
    destruct (CliFacts.splitChars_cons "="%char (list_ascii_of_string value))
      as [w [ws ->]].
    reflexivity. }
  assert (Hflag : forall v, Cli.flagValue (Some v) = negb (v =? "false")).
  { intros v. unfold Cli.flagValue, JsString.truthy.
    destruct (String.eqb_spec v EmptyString) as [->|]; reflexivity. }
  repeat split.
  - change ("--filter=" ++ value)%string
      with ("--" ++ "filter" ++ "=" ++ value)%string.
    unfold Cli.parseArgs, fold_left, Cli.parseArg.
    change (Cli.startsWith ("--" ++ "filter" ++ "=" ++ value) "--")
      with true.
    cbv zeta. simpl negb. cbv iota.
    rewrite (CliFacts.pieces_of_argument "filter" value eq_refl).
    rewrite Hvalue. reflexivity.
  - change ("--dry-run=" ++ value)%string
      with ("--" ++ "dry-run" ++ "=" ++ value)%string.
    unfold Cli.parseArgs, fold_left, Cli.parseArg.
    change (Cli.startsWith ("--" ++ "dry-run" ++ "=" ++ value) "--")
      with true.
    cbv zeta. simpl negb. cbv iota.
    rewrite (CliFacts.pieces_of_argument "dry-run" value eq_refl).
    rewrite Hvalue, <- Hflag. reflexivity.
  - change ("--full=" ++ value)%string
      with ("--" ++ "full" ++ "=" ++ value)%string.
    unfold Cli.parseArgs, fold_left, Cli.parseArg.
    change (Cli.startsWith ("--" ++ "full" ++ "=" ++ value) "--")
      with true.
    cbv zeta. simpl negb. cbv iota.
    rewrite (CliFacts.pieces_of_argument "full" value eq_refl).
    rewrite Hvalue, <- Hflag. reflexivity.
  - change ("--force-full=" ++ value)%string
      with ("--" ++ "force-full" ++ "=" ++ value)%string.
    unfold Cli.parseArgs, fold_left, Cli.parseArg.
    change (Cli.startsWith ("--" ++ "force-full" ++ "=" ++ value) "--")
      with true.
    cbv zeta. simpl negb. cbv iota.
    rewrite (CliFacts.pieces_of_argument "force-full" value eq_refl).
    rewrite Hvalue, <- Hflag. reflexivity.
Qed.

(* ================================================================== *)
(** ** [buildStatistics] *)

Module StatisticsFacts.
Import Index.

(** One turn of the [for] loop of [buildStatistics]. *)
Definition tally (postsCount : nat) (responses : JsMap.t LlmResponse)
           (acc : SyncStatistics) (e : string * MergeResult)
  : SyncStatistics :=
  let '(path, merge) := e in
  let response := JsMap.get path responses in
  {| totalPosts := postsCount;
     processedPosts := processedPosts acc + 1;
     skippedPosts := 0;
     llmCalls :=
       match response with Some _ => llmCalls acc + 1 | None => llmCalls acc end;
     llmFailures :=
       match response with
       | Some r =>
           match resp_error r with
           | Some _ => llmFailures acc + 1
           | None => llmFailures acc
           end
       | None => llmFailures acc
       end;
     totalTags := totalTags acc + List.length (tags merge);
     totalNewTags := totalNewTags acc + List.length (added merge) |}.

Definition answered (responses : JsMap.t LlmResponse)
           (mergeList : list (string * MergeResult))
  : list (string * MergeResult) :=
  List.filter (fun e => JsMap.has (fst e) responses) mergeList.

Lemma tally_fields (postsCount : nat) (responses : JsMap.t LlmResponse)
      (acc : SyncStatistics) (path : string) (merge : MergeResult) :
  let acc' := tally postsCount responses acc (path, merge) in
  processedPosts acc' = (processedPosts acc + 1)%nat
  /\ llmCalls acc'
     = (llmCalls acc + if JsMap.has path responses then 1 else 0)%nat
  /\ ((llmFailures acc <= llmCalls acc)%nat ->
      (llmFailures acc' <= llmCalls acc')%nat)
  /\ totalTags acc' = (totalTags acc + List.length (tags merge))%nat
  /\ totalNewTags acc' = (totalNewTags acc + List.length (added merge))%nat.
Proof.
  cbv zeta. unfold tally, JsMap.has.
  cbn [processedPosts llmCalls llmFailures totalTags totalNewTags].
  destruct (JsMap.get path responses) as [response|].
  - repeat split; try lia. destruct (resp_error response); lia.
  - repeat split; lia.
Qed.

Lemma sum_cons (n : nat) (l : list nat) :
  list_sum (n :: l) = (n + list_sum l)%nat.
Proof. reflexivity. Qed.

Lemma tally_fold (postsCount : nat) (responses : JsMap.t LlmResponse)
      (l : list (string * MergeResult)) (acc : SyncStatistics) :
  let sums := fold_left (tally postsCount responses) l acc in
  processedPosts sums = (processedPosts acc + List.length l)%nat
  /\ llmCalls sums
     = (llmCalls acc + List.length (answered responses l))%nat
  /\ ((llmFailures acc <= llmCalls acc)%nat ->
      (llmFailures sums <= llmCalls sums)%nat)
  /\ totalTags sums
     = (totalTags acc
        + list_sum (map (fun e => List.length (tags (snd e))) l))%nat
  /\ totalNewTags sums
     = (totalNewTags acc
        + list_sum (map (fun e => List.length (added (snd e))) l))%nat.
Proof.
  revert acc. induction l as [|[path merge] l IH]; intros acc.
  - simpl. repeat split; lia.
  - change (fold_left (tally postsCount responses) ((path, merge) :: l) acc)
      with (fold_left (tally postsCount responses) l
                      (tally postsCount responses acc (path, merge))).
    specialize (IH (tally postsCount responses acc (path, merge))).
    cbv zeta in IH. destruct IH as [H1 [H2 [H3 [H4 H5]]]].
    destruct (tally_fields postsCount responses acc path merge)
      as [F1 [F2 [F3 [F4 F5]]]].
    cbv zeta. unfold answered in *.
    cbn [List.filter map fst snd List.length].
    rewrite !sum_cons.
    split; [rewrite H1, F1; lia|]. split.
    { rewrite H2, F2.
      destruct (JsMap.has path responses); cbn [List.length]; lia. }
    split; [intros Hle; exact (H3 (F3 Hle))|].
    split; [rewrite H4, F4; lia | rewrite H5, F5; lia].
Qed.

Section WithHost.
Context {host : Host}.

(** The sums of [buildStatistics] over a list of merges. *)
Lemma statistics_fold (postsCount : nat) (responses : JsMap.t LlmResponse)
      (mergeList : list (string * MergeResult)) :
  let stats := buildStatistics postsCount mergeList responses in
  totalPosts stats = postsCount
  /\ processedPosts stats = List.length mergeList
  /\ skippedPosts stats = (postsCount - List.length mergeList)%nat
  /\ llmCalls stats = List.length (answered responses mergeList)
  /\ (llmFailures stats <= llmCalls stats)%nat
  /\ totalTags stats
     = list_sum (map (fun e => List.length (tags (snd e))) mergeList)
  /\ totalNewTags stats
     = list_sum (map (fun e => List.length (added (snd e))) mergeList).
Proof.
  cbv zeta. unfold buildStatistics. cbv zeta.
  fold (tally postsCount responses).
  destruct (tally_fold postsCount responses mergeList
              {| totalPosts := postsCount; processedPosts := 0;
                 skippedPosts := 0; llmCalls := 0; llmFailures := 0;
                 totalTags := 0; totalNewTags := 0 |})
    as [H1 [H2 [H3 [H4 H5]]]].
  cbv zeta in H1, H2, H3, H4, H5.
  cbn [totalPosts processedPosts skippedPosts llmCalls llmFailures totalTags
       totalNewTags] in *.
  split; [reflexivity|]. split; [exact H1|].
  split; [rewrite H1; reflexivity|]. split; [exact H2|].
  split; [apply H3; apply Nat.le_refl|].
  split; [exact H4 | exact H5].
Qed.

End WithHost.
End StatisticsFacts.

(** The statistics of a run count every merge once: [processedPosts] is
    the number of merges, [llmCalls] the number of merges that have a
    response, [llmFailures] never exceeds [llmCalls], which never exceeds
    [processedPosts], and processed and skipped posts add up to the total
    whenever there are no more merges than posts. *)
Theorem statistics_count_every_merge_once :
  forall (host : Host) (postsCount : nat) (mergeList : JsMap.t MergeResult)
         (responses : JsMap.t LlmResponse),
    let stats := Index.buildStatistics postsCount mergeList responses in
    Index.totalPosts stats = postsCount
    /\ Index.processedPosts stats = List.length mergeList
    /\ (Index.llmFailures stats <= Index.llmCalls stats)%nat
    /\ (Index.llmCalls stats <= Index.processedPosts stats)%nat
    /\ ((List.length mergeList <= postsCount)%nat ->
        (Index.processedPosts stats + Index.skippedPosts stats)%nat
        = Index.totalPosts stats).
Proof.
  intros host postsCount mergeList responses stats.
  destruct (StatisticsFacts.statistics_fold postsCount responses mergeList)
    as [H1 [H2 [H3 [H4 [H5 _]]]]].
  fold stats in H1, H2, H3, H4, H5.
  split; [exact H1|]. split; [exact H2|]. split; [exact H5|]. split.
  - rewrite H4, H2. apply filter_length_le.
  - intros Hle. rewrite H1, H2, H3. lia.
Qed.

(* ================================================================== *)
(** ** [writer.ts]: the diff against the file *)

Module Writer.

(** The members of [Object.prototype], which every object [JSON.parse] or
    [Object.fromEntries] makes inherits: for a function its [length],
    [None] for [__proto__], whose value, the prototype itself, has no
    [length]. *)
Definition objectPrototype : JsObject.t (option nat) :=
  [("constructor", Some 1); ("__defineGetter__", Some 2);
   ("__defineSetter__", Some 2); ("hasOwnProperty", Some 1);
   ("__lookupGetter__", Some 1); ("__lookupSetter__", Some 1);
   ("isPrototypeOf", Some 1); ("propertyIsEnumerable", Some 1);
   ("toString", Some 0); ("valueOf", Some 0); ("__proto__", None);
   ("toLocaleString", Some 0)].

Definition inherited (key : string) : bool :=
  JsObject.has key objectPrototype.

(** What [o[key]] evaluates to. *)
Inductive Member : Type :=
  | Own (tagList : list string)
  | Inherited (length : option nat)
  | Undefined.

(** [o[key]]: the own property, else the member of the prototype. *)
Definition member (key : string) (o : TagsMap) : Member :=
  match JsObject.get key o with
  | Some tagList => Own tagList
  | None =>
      match JsObject.get key objectPrototype with
      | Some length => Inherited length
      | None => Undefined
      end
  end.

(** [key in o]. *)
Definition hasProperty (key : string) (o : TagsMap) : bool :=
  JsObject.has key o || inherited key.

(** [arraysEqual(a, b)] of [writer.ts] where [b] is an array: an
    inherited member is truthy, passes the two tests for a missing
    argument and is compared by its [length] and its items, of which it
    has none.  The loop over two arrays is the one of the synchroniser's
    [arraysEqual]. *)
Definition arraysEqual (a : Member) (b : list string) : bool :=
  match a with
  | Undefined => false
  | Own a =>
      if negb (List.length a =? List.length b)%nat then false
      else Frontmatter.itemsEqual a b
  | Inherited (Some length) =>
      if negb (length =? List.length b)%nat then false
      else match b with [] => true | _ :: _ => false end
  | Inherited None => false
  end.

Record Diff : Type := {
    updatedPaths : list string;
    removedPaths : list string
}.

Definition buildDiff (existing next : TagsMap) : Diff :=
  let updatedPaths :=
    fold_left
      (fun updatedPaths entry =>
         let '(relativePath, tagList) := entry in
         let previous := member relativePath existing in
         if negb (arraysEqual previous tagList)
         then updatedPaths ++ [relativePath]
         else updatedPaths)
      (JsObject.entries next) [] in
  let removedPaths :=
    List.filter (fun key => negb (hasProperty key next))
                (JsObject.keys existing) in
  {| updatedPaths := updatedPaths; removedPaths := removedPaths |}.

(** [changedPaths] of [writeTagsFile]. *)
Definition changedPaths (existing next : TagsMap) : list string :=
  updatedPaths (buildDiff existing next)
  ++ removedPaths (buildDiff existing next).

End Writer.

Module WriterFacts.
Import JsString StringFacts ContainerFacts.
Import Writer.

(** For a key that names no member of the prototype, the lookup is the
    lookup among the own properties. *)
Lemma member_own (key : string) (o : TagsMap) :
  inherited key = false ->
  member key o
  = match JsObject.get key o with
    | Some tagList => Own tagList
    | None => Undefined
    end.
Proof.
  unfold inherited, JsObject.has, member. intros H.
  destruct (JsObject.get key o); [reflexivity|].
  destruct (JsObject.get key objectPrototype); [discriminate | reflexivity].
Qed.

Lemma hasProperty_own (key : string) (o : TagsMap) :
  inherited key = false -> hasProperty key o = JsObject.has key o.
Proof. unfold hasProperty. intros ->. apply orb_false_r. Qed.

Lemma arraysEqual_same (key : string) (o : TagsMap) (b : list string) :
  inherited key = false ->
  (arraysEqual (member key o) b = true <-> JsObject.get key o = Some b).
Proof.
  intros Hkey. rewrite (member_own key o Hkey).
  destruct (JsObject.get key o) as [a|]; simpl;
    [|split; intros H; discriminate H].
  change (Frontmatter.arraysEqual a b = true <-> Some a = Some b).
  rewrite FrontmatterFacts.arraysEqual_eq.
  split; [intros ->; reflexivity | intros H; injection H; trivial].
Qed.

(** The entries of [next] whose tags differ from the file's. *)
Definition differs (existing : TagsMap) (entry : string * list string) : bool :=
  negb (arraysEqual (member (fst entry) existing) (snd entry)).

Lemma updated_fold (existing : TagsMap) (entries : list (string * list string))
      (acc : list string) :
  fold_left
    (fun updatedPaths entry =>
       let '(relativePath, tagList) := entry in
       let previous := member relativePath existing in
       if negb (arraysEqual previous tagList)
       then updatedPaths ++ [relativePath]
       else updatedPaths)
    entries acc
  = acc ++ map fst (List.filter (differs existing) entries).
Proof.
  revert acc. induction entries as [|[path tagList] r IH]; intros acc.
  - simpl. rewrite app_nil_r. reflexivity.
  - cbn [fold_left List.filter]. rewrite IH.
    change (differs existing (path, tagList))
      with (negb (arraysEqual (member path existing) tagList)).
    destruct (negb (arraysEqual (member path existing) tagList));
      [|reflexivity].
    cbn [map fst]. rewrite <- app_assoc. reflexivity.
Qed.

Lemma updatedPaths_filter (existing next : TagsMap) :
  updatedPaths (buildDiff existing next)
  = map fst (List.filter (differs existing) next).
Proof. unfold buildDiff. simpl. apply updated_fold. Qed.

Lemma get_In {V} (o : JsObject.t V) (k : string) (v : V) :
  JsObject.get k o = Some v -> In (k, v) o.
Proof.
  induction o as [|[k' v'] r IH]; [discriminate|].
  simpl. destruct (String.eqb_spec k' k) as [->|].
  - intros H. injection H as ->. left. reflexivity.
  - intros H. right. exact (IH H).
Qed.

Lemma In_get {V} (o : JsObject.t V) (k : string) (v : V) :
  NoDup (JsObject.keys o) -> In (k, v) o -> JsObject.get k o = Some v.
Proof.
  induction o as [|[k' v'] r IH]; intros Hnd Hin; [destruct Hin|].
  inversion Hnd as [|? ? Hnotin Hnd']; subst.
  simpl. destruct Hin as [H|Hin].
  - injection H as -> ->. rewrite String.eqb_refl. reflexivity.
  - destruct (String.eqb_spec k' k) as [->|]; [|exact (IH Hnd' Hin)].
    exfalso. apply Hnotin. apply in_map_iff. exists (k, v).
    split; [reflexivity | exact Hin].
Qed.

Lemma In_keys {V} (o : JsObject.t V) (k : string) (v : V) :
  In (k, v) o -> In k (JsObject.keys o).
Proof.
  intros Hin. unfold JsObject.keys. apply in_map_iff.
  exists (k, v). split; [reflexivity | exact Hin].
Qed.

Lemma filter_nil {A} (f : A -> bool) (l : list A) :
  List.filter f l = [] <-> forall x, In x l -> f x = false.
Proof.
  split.
  - intros H x Hin. destruct (f x) eqn:E; [|reflexivity].
    assert (Hx : In x (List.filter f l))
      by (apply filter_In; split; assumption).
    rewrite H in Hx. destruct Hx.
  - apply StabilityFacts.filter_none.
Qed.

End WriterFacts.

(** When no key of the file or of the new index names a member of
    [Object.prototype] (no path of a markdown file does), the diff
    [writeTagsFile] reports is empty exactly when the file and the new
    index map every path to the same list of tags, item by item: the order
    of the keys plays no part, so an index that differs from the file only
    by the order of its paths is reported as unchanged. *)
Theorem diff_is_empty_for_the_same_mapping :
  forall existing next : TagsMap,
    NoDup (JsObject.keys next) ->
    (forall key,
        In key (JsObject.keys existing ++ JsObject.keys next) ->
        Writer.inherited key = false) ->
    (Writer.changedPaths existing next = []
     <-> forall key, JsObject.get key existing = JsObject.get key next).
Proof.
  intros existing next Hnd Hplain. unfold Writer.changedPaths.
  rewrite WriterFacts.updatedPaths_filter.
  unfold Writer.buildDiff. simpl Writer.removedPaths. split.
  - intros H. apply app_eq_nil in H. destruct H as [Hup Hrem].
    apply map_eq_nil in Hup.
    pose proof (proj1 (WriterFacts.filter_nil _ _) Hup) as Hup'.
    pose proof (proj1 (WriterFacts.filter_nil _ _) Hrem) as Hrem'.
    clear Hup Hrem. rename Hup' into Hup. rename Hrem' into Hrem.
    cbv beta in Hrem.
    intros key. destruct (JsObject.get key next) as [tagList|] eqn:Hnext.
    + pose proof (WriterFacts.get_In _ _ _ Hnext) as Hin.
      specialize (Hup (key, tagList) Hin).
      unfold WriterFacts.differs in Hup. simpl in Hup.
      apply negb_false_iff in Hup.
      apply WriterFacts.arraysEqual_same in Hup; [exact Hup|].
      apply Hplain, in_or_app. right.
      exact (WriterFacts.In_keys _ _ _ Hin).
    + destruct (JsObject.get key existing) as [tagList|] eqn:Hex;
        [|reflexivity].
      exfalso.
      assert (Hin : In key (JsObject.keys existing))
        by exact (WriterFacts.In_keys _ _ _ (WriterFacts.get_In _ _ _ Hex)).
      specialize (Hrem key Hin).
      rewrite WriterFacts.hasProperty_own in Hrem
        by (apply Hplain, in_or_app; left; exact Hin).
      unfold JsObject.has in Hrem.
      rewrite Hnext in Hrem. discriminate.
  - intros Hsame.
    assert (Hup : List.filter (WriterFacts.differs existing) next = []).
    { apply WriterFacts.filter_nil. intros [path tagList] Hin.
      unfold WriterFacts.differs. simpl.
      apply negb_false_iff. apply WriterFacts.arraysEqual_same.
      - apply Hplain, in_or_app. right.
        exact (WriterFacts.In_keys _ _ _ Hin).
      - rewrite Hsame. apply WriterFacts.In_get; assumption. }
    rewrite Hup. simpl.
    apply WriterFacts.filter_nil. intros key Hin.
    apply negb_false_iff.
    rewrite WriterFacts.hasProperty_own
      by (apply Hplain, in_or_app; left; exact Hin).
    assert (Hhas : JsObject.has key existing = true).
    { rewrite ContainerFacts.obj_has_keys. apply StringFacts.mem_In.
      exact Hin. }
    unfold JsObject.has in *. rewrite <- Hsame. exact Hhas.
Qed.

(** An instance: the same two entries in another order. *)
Lemma diff_ignores_key_order_example :
  Writer.changedPaths [("b.md", ["x"]); ("a.md", ["y"])]
                      [("a.md", ["y"]); ("b.md", ["x"])]
  = []
  /\ Writer.changedPaths [("a.md", ["x"; "y"])] [("a.md", ["y"; "x"])]
     = ["a.md"].
Proof.
  split; [|reflexivity].
  apply (diff_is_empty_for_the_same_mapping
           [("b.md", ["x"]); ("a.md", ["y"])]
           [("a.md", ["y"]); ("b.md", ["x"])]).
  - constructor; [intros [H|[]]; discriminate H|].
    constructor; [intros []|constructor].
  - intros key [<-|[<-|[<-|[<-|[]]]]]; reflexivity.
  - intros key. cbn [JsObject.get].
    destruct (String.eqb_spec "b.md" key) as [Eb|Hb];
      destruct (String.eqb_spec "a.md" key) as [Ea|Ha];
      try reflexivity.
    rewrite <- Eb in Ea. discriminate Ea.
Defined.

(** The two lists of a diff.  A path that names no member of
    [Object.prototype] is reported as updated exactly when the new index
    has an entry for it whose tags are not the file's.  A path is reported
    as removed exactly when the file has it, the new index does not, and
    it names no member of [Object.prototype]: [key in next] finds such a
    member in every index.  No path is in both lists. *)
Theorem diff_lists_updated_and_removed_paths :
  forall (existing next : TagsMap) (path : string),
    let diff := Writer.buildDiff existing next in
    (Writer.inherited path = false ->
     (In path (Writer.updatedPaths diff)
      <-> exists tagList,
          In (path, tagList) next
          /\ JsObject.get path existing <> Some tagList))
    /\ (In path (Writer.removedPaths diff)
        <-> In path (JsObject.keys existing)
            /\ JsObject.has path next = false
            /\ Writer.inherited path = false)
    /\ (In path (Writer.updatedPaths diff) ->
        In path (Writer.removedPaths diff) -> False).
Proof.
  intros existing next path diff.
  assert (Hup :
            In path (Writer.updatedPaths diff)
            <-> exists tagList,
                In (path, tagList) next
                /\ Writer.arraysEqual (Writer.member path existing) tagList
                   = false).
  { unfold diff. rewrite WriterFacts.updatedPaths_filter.
    rewrite in_map_iff. split.
    - intros [[p tagList] [Hp Hin]]. simpl in Hp. subst p.
      apply filter_In in Hin. destruct Hin as [Hin Hd].
      exists tagList. split; [exact Hin|].
      unfold WriterFacts.differs in Hd. simpl in Hd.
      apply negb_true_iff in Hd. exact Hd.
    - intros [tagList [Hin Hne]]. exists (path, tagList).
      split; [reflexivity|]. apply filter_In. split; [exact Hin|].
      unfold WriterFacts.differs. simpl. apply negb_true_iff. exact Hne. }
  assert (Hrem :
            In path (Writer.removedPaths diff)
            <-> In path (JsObject.keys existing)
                /\ JsObject.has path next = false
                /\ Writer.inherited path = false).
  { unfold diff, Writer.buildDiff. simpl Writer.removedPaths.
    rewrite filter_In, negb_true_iff. unfold Writer.hasProperty.
    rewrite orb_false_iff. reflexivity. }
  split; [|split; [exact Hrem|]].
  - intros Hplain. rewrite Hup. split.
    + intros [tagList [Hin Hne]]. exists tagList. split; [exact Hin|].
      intros E.
      apply (WriterFacts.arraysEqual_same path existing tagList Hplain) in E.
      congruence.
    + intros [tagList [Hin Hne]]. exists tagList. split; [exact Hin|].
      destruct (Writer.arraysEqual (Writer.member path existing) tagList)
        eqn:E; [|reflexivity].
      apply (WriterFacts.arraysEqual_same path existing tagList Hplain) in E.
      contradiction.
  - intros H1 H2. apply Hup in H1. apply Hrem in H2.
    destruct H1 as [tagList [Hin _]]. destruct H2 as [_ [Hhas _]].
    rewrite ContainerFacts.obj_has_keys in Hhas.
    assert (Hmem : JsString.mem path (JsObject.keys next) = true).
    { apply StringFacts.mem_In.
      exact (WriterFacts.In_keys _ _ _ Hin). }
    congruence.
Qed.

(* ================================================================== *)
(** ** [llm.ts]: reading the reply, and the proxy agents *)

Module ReplyFacts.
Import JsString StringFacts.
Import Llm.

Definition isOpen (c : ascii) : bool := Ascii.eqb c "["%char.
Definition isClose (c : ascii) : bool := Ascii.eqb c "]"%char.

Lemma fromFirstOpen_skip (pre rest : list ascii) :
  forallb (fun c => negb (isOpen c)) pre = true ->
  fromFirstOpen (pre ++ "["%char :: rest) = Some ("["%char :: rest).
Proof.
  induction pre as [|c pre IH]; intros H; [reflexivity|].
  simpl in H. apply andb_true_iff in H. destruct H as [Hc H].
  apply negb_true_iff in Hc. unfold isOpen in Hc.
  simpl. rewrite Hc. exact (IH H).
Qed.

Lemma throughLastClose_none (l : list ascii) :
  forallb (fun c => negb (isClose c)) l = true -> throughLastClose l = None.
Proof.
  induction l as [|c l IH]; intros H; [reflexivity|].
  simpl in H. apply andb_true_iff in H. destruct H as [Hc H].
  apply negb_true_iff in Hc. unfold isClose in Hc.
  simpl. rewrite (IH H), Hc. reflexivity.
Qed.

Lemma throughLastClose_last (body post : list ascii) :
  forallb (fun c => negb (isClose c)) post = true ->
  throughLastClose (body ++ "]"%char :: post) = Some (body ++ ["]"%char]).
Proof.
  intros Hpost. induction body as [|c body IH].
  - simpl. rewrite (throughLastClose_none post Hpost). reflexivity.
  - simpl. rewrite IH. reflexivity.
Qed.

Lemma fromFirstOpen_split (l rest : list ascii) :
  fromFirstOpen l = Some rest ->
  exists pre tail,
    l = pre ++ rest /\ rest = "["%char :: tail
    /\ forallb (fun c => negb (isOpen c)) pre = true.
Proof.
  revert rest. induction l as [|c l IH]; intros rest; [discriminate|].
  simpl. destruct (Ascii.eqb c "["%char) eqn:E.
  - intros H. injection H as <-. apply Ascii.eqb_eq in E. subst c.
    exists [], l. repeat split.
  - intros H. destruct (IH rest H) as [pre [tail [-> [Hr Hpre]]]].
    exists (c :: pre), tail. repeat split; [exact Hr|].
    simpl. unfold isOpen at 1. rewrite E. exact Hpre.
Qed.

Lemma throughLastClose_split (l found : list ascii) :
  throughLastClose l = Some found ->
  exists body post,
    l = found ++ post /\ found = body ++ ["]"%char]
    /\ forallb (fun c => negb (isClose c)) post = true.
Proof.
  revert found. induction l as [|c l IH]; intros found; [discriminate|].
  simpl. destruct (throughLastClose l) as [r'|] eqn:E.
  - intros H. injection H as <-.
    destruct (IH r' eq_refl) as [body [post [-> [-> Hpost]]]].
    exists (c :: body), post. repeat split. exact Hpost.
  - destruct (Ascii.eqb c "]"%char) eqn:Ec; [|discriminate].
    intros H. injection H as <-. apply Ascii.eqb_eq in Ec. subst c.
    exists [], l. repeat split.
    clear IH. induction l as [|d l IHl]; [reflexivity|].
    simpl in E. destruct (throughLastClose l) as [?|]; [discriminate|].
    destruct (Ascii.eqb d "]"%char) eqn:Ed; [discriminate|].
    simpl. unfold isClose at 1. rewrite Ed. apply IHl. reflexivity.
Qed.

Lemma string_app_chars (a b : list ascii) :
  string_of_list_ascii (a ++ b)
  = (string_of_list_ascii a ++ string_of_list_ascii b)%string.
Proof.
  induction a as [|c a IH]; [reflexivity|].
  simpl. rewrite IH. reflexivity.
Qed.

End ReplyFacts.

(** The reply of the model is read from its first opening bracket to its
    last closing one: text before and after the array is ignored, and a
    reply without such a pair yields no tags; every tag read is trimmed
    and not empty. *)
Theorem reply_is_read_between_the_outermost_brackets :
  forall (host : Host) (content : string),
    (forall found,
        Llm.matchArrayLiteral content = Some found <->
        exists before body after,
          content
          = (string_of_list_ascii before ++ found
             ++ string_of_list_ascii after)%string
          /\ found
             = ("[" ++ string_of_list_ascii body ++ "]")%string
          /\ forallb (fun c => negb (ReplyFacts.isOpen c)) before = true
          /\ forallb (fun c => negb (ReplyFacts.isClose c)) after = true)
    /\ (Llm.matchArrayLiteral content = None ->
        Llm.parseTagsFromContent content = [])
    /\ (forall found,
           Llm.matchArrayLiteral content = Some found ->
           Llm.parseTagsFromContent content = Llm.parseTagsFromContent found)
    /\ Forall (fun tag => tag <> EmptyString /\ JsString.trim tag = tag)
              (Llm.parseTagsFromContent content).
Proof.
  intros host content.
  assert (Hmatch :
            forall text found,
              Llm.matchArrayLiteral text = Some found <->
              exists before body after,
                text
                = (string_of_list_ascii before ++ found
                   ++ string_of_list_ascii after)%string
                /\ found
                   = ("[" ++ string_of_list_ascii body ++ "]")%string
                /\ forallb (fun c => negb (ReplyFacts.isOpen c)) before = true
                /\ forallb (fun c => negb (ReplyFacts.isClose c)) after = true).
  { intros text found. unfold Llm.matchArrayLiteral. split.
    - destruct (Llm.fromFirstOpen (list_ascii_of_string text)) as [rest|]
        eqn:Hopen; [|discriminate].
      destruct (Llm.throughLastClose rest) as [m|] eqn:Hclose;
        [|discriminate].
      intros H. injection H as <-.
      destruct (ReplyFacts.fromFirstOpen_split _ _ Hopen)
        as [before [tail [Htext [Hrest Hbefore]]]].
      destruct (ReplyFacts.throughLastClose_split _ _ Hclose)
        as [body [after [Hm [Hfound Hafter]]]].
      assert (Hbody : exists body', body = "["%char :: body').
      { destruct body as [|b body'].
        - exfalso. subst m. simpl in Hm. subst rest.
          injection Hm as Hc _. discriminate Hc.
        - exists body'. subst m rest. simpl in Hm.
          injection Hm as <- _. reflexivity. }
      destruct Hbody as [body' Hbody].
      exists before, body', after. repeat split; try assumption.
      + rewrite <- (string_of_list_ascii_of_string text), Htext, Hm.
        rewrite !ReplyFacts.string_app_chars. reflexivity.
      + rewrite Hfound, Hbody. simpl.
        rewrite ReplyFacts.string_app_chars. reflexivity.
    - intros [before [body [after [-> [-> [Hbefore Hafter]]]]]].
      assert (Hchars :
                list_ascii_of_string
                  (string_of_list_ascii before
                   ++ ("[" ++ string_of_list_ascii body ++ "]")
                   ++ string_of_list_ascii after)
                = (before ++ "["%char :: (body ++ "]"%char :: after))%list).
      { change ("[" ++ string_of_list_ascii body ++ "]")%string
          with (String "[" (string_of_list_ascii body ++ "]")).
        repeat (rewrite CliFacts.chars_app
                || rewrite list_ascii_of_string_of_list_ascii
                || cbn [list_ascii_of_string app]).
        rewrite <- ?app_assoc. reflexivity. }
      rewrite Hchars, (ReplyFacts.fromFirstOpen_skip _ _ Hbefore).
      change ("["%char :: (body ++ "]"%char :: after))
        with (("["%char :: body) ++ "]"%char :: after)%list.
      rewrite (ReplyFacts.throughLastClose_last _ _ Hafter). simpl.
      rewrite ReplyFacts.string_app_chars. reflexivity. }
  split; [apply Hmatch|]. split; [|split].
  - intros Hnone. unfold Llm.parseTagsFromContent. rewrite Hnone. reflexivity.
  - intros found Hfound. unfold Llm.parseTagsFromContent. rewrite Hfound.
    assert (Hself : Llm.matchArrayLiteral found = Some found).
    { apply Hmatch in Hfound.
      destruct Hfound as [before [body [after [_ [Hf _]]]]].
      apply Hmatch. exists [], body, []. repeat split; [|exact Hf].
      simpl. symmetry. apply ExampleHost.string_app_nil. }
    rewrite Hself. reflexivity.
  - unfold Llm.parseTagsFromContent.
    destruct (Llm.matchArrayLiteral content); [|constructor].
    destruct (jsonParseArray s); [|constructor].
    eapply Forall_impl; [|apply TrimFacts.cleaned_items].
    intros t [Ht Hfix]. split; [|exact Hfix].
    apply StringFacts.truthy_true. exact Ht.
Qed.

(** The proxy agents of [llm.ts]: the module's cache, by proxy URL. *)
Module Proxy.
Section WithAgent.
Variable Agent : Type.
(** [new ProxyAgent(url)]: the agent, or the message of the error the
    constructor throws. *)
Variable construct : string -> Agent + string.

Inductive Outcome : Type :=
  | Returned (dispatcher : option Agent)
  | Thrown (message : string).

Definition getDispatcher (proxyUrl : option string)
           (proxyAgents : JsMap.t Agent) : Outcome * JsMap.t Agent :=
  match proxyUrl with
  | None => (Returned None, proxyAgents)
  | Some url =>
      if negb (JsString.truthy url) then (Returned None, proxyAgents)
      else
        match JsMap.get url proxyAgents with
        | Some existing => (Returned (Some existing), proxyAgents)
        | None =>
            match construct url with
            | inr message =>
                (Thrown ("Failed to initialize proxy agent (" ++ url ++ "): "
                         ++ message),
                 proxyAgents)
            | inl agent =>
                (Returned (Some agent), JsMap.set url agent proxyAgents)
            end
        end
  end.

End WithAgent.
Arguments Returned {Agent}.
Arguments Thrown {Agent}.
End Proxy.

(** An agent is built at most once for a proxy URL: once [getDispatcher]
    has returned an agent for a URL, every later call for that URL returns
    the same agent from the cache, builds none and leaves the cache as it
    is; and a call whose construction fails leaves the cache as it was. *)
Theorem proxy_agent_is_built_once_per_url :
  forall (Agent : Type) (construct later : string -> Agent + string)
         (url : string) (cache cache' : JsMap.t Agent) (agent : Agent),
    Proxy.getDispatcher Agent construct (Some url) cache
    = (Proxy.Returned (Some agent), cache') ->
    Proxy.getDispatcher Agent later (Some url) cache'
    = (Proxy.Returned (Some agent), cache')
    /\ (forall other,
           other <> url -> JsMap.get other cache' = JsMap.get other cache)
    /\ (forall message cache'',
           Proxy.getDispatcher Agent later (Some url) cache
           = (Proxy.Thrown message, cache'') ->
           cache'' = cache).
Proof.
  intros Agent construct later url cache cache' agent.
  unfold Proxy.getDispatcher.
  destruct (negb (JsString.truthy url)) eqn:Hurl; [discriminate|].
  destruct (JsMap.get url cache) as [existing|] eqn:Hget.
  - intros H. injection H as <- <-. rewrite Hget.
    split; [reflexivity|]. split; [reflexivity|].
    intros message cache'' H. discriminate H.
  - destruct (construct url) as [built|message]; [|discriminate].
    intros H. injection H as <- <-.
    rewrite ContainerFacts.map_get_set_same.
    split; [reflexivity|]. split.
    + intros other Hne. apply ContainerFacts.map_get_set_other.
      intros E. apply Hne. symmetry. exact E.
    + intros message cache''.
      destruct (later url); intros H; [discriminate H|].
      injection H as _ <-. reflexivity.
Qed.

(** An instance: agents are numbers, the constructor numbers them by the
    length of the URL. *)
Lemma proxy_agent_example :
  Proxy.getDispatcher nat (fun _ => inr "unreachable") (Some "http://p:1")
                      [("http://p:1", 10)]
  = (Proxy.Returned (Some 10), [("http://p:1", 10)]).
Proof.
  refine (proj1 (proxy_agent_is_built_once_per_url nat
                   (fun url => inl (String.length url))
                   (fun _ => inr "unreachable")
                   "http://p:1" [] [("http://p:1", 10)] 10 _)).
  reflexivity.
Defined.

(* ================================================================== *)
(** ** [loader.ts] *)

Module Loader.

(** [data.draft], seen through the two tests [loadPosts] makes. *)
Inductive DraftValue : Type :=
  | DraftTrue            (* true *)
  | DraftTrueString      (* 'true' *)
  | DraftOther.          (* anything else, undefined too *)

(** The fields of [parsed.data] that [loadPosts] reads: [data_title] is
    [Some] when [typeof data.title === 'string']. *)
Record FrontMatterData : Type := {
    data_title : option string;
    data_draft : DraftValue;
    data_tags : FrontMatterValue
}.

Record GrayMatterFile : Type := {
    gm_data : FrontMatterData;
    gm_content : string
}.

(** What [fs.readFile] and [matter(raw)] come to for a file. *)
Inductive FileRead : Type :=
  | ReadFails (message : string)
  | ParseFails (message : string)
  | Parsed (parsed : GrayMatterFile).

(** A file [collectMarkdownFiles] lists, with what [path] computes for
    it: [path.relative(postRoot, filePath)],
    [path.relative(workspaceRoot, absolutePath)] and
    [path.basename(absolutePath, path.extname(absolutePath))]. *)
Record MarkdownFile : Type := {
    absolutePath : string;
    relativeToPostRoot : string;
    relativeToWorkspace : string;
    baseName : string;
    read : FileRead
}.

(** [s.includes(search)]. *)
Definition includes (s search : string) : bool :=
  ExampleHost.contains (list_ascii_of_string search)
                       (list_ascii_of_string s).

Definition isDraft (data : FrontMatterData) : bool :=
  match data_draft data with
  | DraftTrue | DraftTrueString => true
  | DraftOther => false
  end.

Section WithHost.
Context {host : Host}.

(** One turn of the [for (const absolutePath of filteredFiles)] loop. *)
Definition loadFile (includeDrafts : bool) (posts : list LoadedPost)
           (file : MarkdownFile) : list LoadedPost :=
  match read file with
  | ReadFails _ => posts
  | ParseFails _ => posts
  | Parsed parsed =>
      let relativePath := Utils.toPosix (relativeToWorkspace file) in
      let data := gm_data parsed in
      if negb includeDrafts && isDraft data then posts
      else
        let frontMatterTags := Utils.ensureArray (data_tags data) in
        posts
        ++ [{| relativePath := relativePath;
               title :=
                 match data_title data with
                 | Some t => if JsString.truthy t then t else baseName file
                 | None => baseName file
                 end;
               frontMatterTags := frontMatterTags;
               frontMatterTagsValue := data_tags data;
               content := gm_content parsed |}]
  end.

Definition loadPosts (filter : string) (includeDrafts : bool)
           (files : list MarkdownFile) : list LoadedPost :=
  let normalizedFilter := JsString.trim filter in
  let filteredFiles :=
    if JsString.truthy normalizedFilter
    then List.filter
           (fun file =>
              includes (Utils.toPosix (relativeToPostRoot file))
                       normalizedFilter)
           files
    else files in
  fold_left (loadFile includeDrafts) filteredFiles [].

End WithHost.
End Loader.

Module LoaderFacts.
Import JsString StringFacts.
Import Loader.

Section WithHost.
Context {host : Host}.

(** The files [loadPosts] makes a post of. *)
Definition inScope (filter : string) (file : MarkdownFile) : bool :=
  negb (truthy (trim filter))
  || includes (Utils.toPosix (relativeToPostRoot file)) (trim filter).

Definition loadable (includeDrafts : bool) (file : MarkdownFile) : bool :=
  match read file with
  | Parsed parsed => includeDrafts || negb (isDraft (gm_data parsed))
  | _ => false
  end.

Definition pathOf (file : MarkdownFile) : string :=
  Utils.toPosix (relativeToWorkspace file).

(** The tags of a post are what [ensureArray] makes of its field. *)
Definition tagsRead (post : LoadedPost) : Prop :=
  frontMatterTags post = Utils.ensureArray (frontMatterTagsValue post).

Lemma loadFile_step (includeDrafts : bool) (posts : list LoadedPost)
      (file : MarkdownFile) :
  map relativePath (loadFile includeDrafts posts file)
  = map relativePath posts
    ++ (if loadable includeDrafts file then [pathOf file] else [])
  /\ (Forall tagsRead posts ->
      Forall tagsRead (loadFile includeDrafts posts file)).
Proof.
  unfold loadFile, loadable.
  destruct (read file) as [message|message|parsed];
    try (rewrite app_nil_r; split; [reflexivity | exact (fun H => H)]).
  cbv zeta.
  destruct includeDrafts, (isDraft (gm_data parsed)); cbn [negb andb orb];
    try (rewrite app_nil_r; split; [reflexivity | exact (fun H => H)]);
    (split;
     [rewrite map_app; reflexivity
     |intros Hall; apply Forall_app; split; [exact Hall|];
      constructor; [reflexivity | constructor]]).
Qed.

Lemma loadFile_fold (includeDrafts : bool) (files : list MarkdownFile)
      (posts : list LoadedPost) :
  map relativePath (fold_left (loadFile includeDrafts) files posts)
  = map relativePath posts
    ++ map pathOf (List.filter (loadable includeDrafts) files)
  /\ (Forall tagsRead posts ->
      Forall tagsRead (fold_left (loadFile includeDrafts) files posts)).
Proof.
  revert posts. induction files as [|file files IH]; intros posts.
  - simpl. rewrite app_nil_r. split; [reflexivity | exact (fun H => H)].
  - cbn [fold_left List.filter].
    destruct (IH (loadFile includeDrafts posts file)) as [Hpaths Htags].
    destruct (loadFile_step includeDrafts posts file) as [Hpath Htag].
    split.
    + rewrite Hpaths, Hpath, <- app_assoc.
      destruct (loadable includeDrafts file); reflexivity.
    + intros Hall. exact (Htags (Htag Hall)).
Qed.

Lemma loadPosts_paths (filter : string) (includeDrafts : bool)
      (files : list MarkdownFile) :
  map relativePath (loadPosts filter includeDrafts files)
  = map pathOf
        (List.filter
           (fun file => inScope filter file && loadable includeDrafts file)
           files).
Proof.
  unfold loadPosts. cbv zeta.
  match goal with
  | |- context [fold_left _ ?fs []] =>
      destruct (loadFile_fold includeDrafts fs []) as [H _]
  end.
  rewrite H. cbn [map app]. f_equal. unfold inScope.
  destruct (truthy (trim filter)); cbn [negb orb].
  - apply IndexFacts.filter_comp.
  - reflexivity.
Qed.

End WithHost.
End LoaderFacts.

(** [loadPosts] returns one post for every file that is in the scope of
    the filter, can be read and parsed and is no draft (or drafts are
    included), in the order of the files and with the POSIX form of its
    path; every post's tags are what [ensureArray] makes of its [tags]
    field; a blank filter leaves every file in scope. *)
Theorem loadPosts_returns_the_loadable_files_in_order :
  forall (host : Host) (filter : string) (includeDrafts : bool)
         (files : list Loader.MarkdownFile),
    let posts := Loader.loadPosts filter includeDrafts files in
    map relativePath posts
    = map LoaderFacts.pathOf
          (List.filter
             (fun file =>
                LoaderFacts.inScope filter file
                && LoaderFacts.loadable includeDrafts file)
             files)
    /\ Forall (fun post =>
                 frontMatterTags post
                 = Utils.ensureArray (frontMatterTagsValue post)) posts
    /\ (List.length posts <= List.length files)%nat
    /\ (JsString.trim filter = EmptyString ->
        forall file, LoaderFacts.inScope filter file = true).
Proof.
  intros host filter includeDrafts files posts.
  pose proof (LoaderFacts.loadPosts_paths filter includeDrafts files) as Hpaths.
  fold posts in Hpaths.
  split; [exact Hpaths|]. split; [|split].
  - unfold posts, Loader.loadPosts. cbv zeta.
    match goal with
    | |- context [fold_left _ ?fs []] =>
        destruct (LoaderFacts.loadFile_fold includeDrafts fs []) as [_ H]
    end.
    apply H. constructor.
  - rewrite <- (length_map relativePath posts), Hpaths, length_map.
    apply filter_length_le.
  - intros Hblank file. unfold LoaderFacts.inScope. rewrite Hblank.
    reflexivity.
Qed.

(* ================================================================== *)
(** ** [runGenerate] on the posts [loadPosts] returns *)

Module Pipeline.
Import Index.

Section WithHost.
Context {host : Host}.

(** [runGenerate] from its first line: the posts are those [loadPosts]
    returns under the configured filter and draft setting. *)
Definition generate (config : TagSyncConfig) (includeDrafts : bool)
           (writeFails : nat -> option string) (args : CliOptions)
           (files : list Loader.MarkdownFile) (historicalTags : TagsMap)
           (fetch : string -> Z -> Llm.FetchOutcome)
  : RunState * RunOutcome :=
  runGenerate config writeFails args
              (Loader.loadPosts (filter config) includeDrafts files)
              historicalTags fetch.

(** The index a run that finishes ends with. *)
Lemma finished_index (config : TagSyncConfig)
      (writeFails : nat -> option string) (args : CliOptions)
      (posts : list LoadedPost) (historicalTags : TagsMap)
      (fetch : string -> Z -> Llm.FetchOutcome) :
  let run := runGenerate config writeFails args posts historicalTags fetch in
  match snd run with
  | Finished _ =>
      tagsMap (fst run)
      = pruneAbsent config posts
          (tagsMap (IndexFacts.afterGeneration config writeFails args posts
                                               historicalTags fetch))
  | _ => True
  end.
Proof.
  cbv zeta. rewrite IndexFacts.runGenerate_unfold.
  destruct posts as [|p0 rest]; [exact I|].
  destruct (snd (IndexFacts.generation _ _ _ _ _ _)); [exact I|].
  destruct (writeChain _); [exact I|].
  cbv zeta.
  match goal with
  | |- context [match snd ?f with Some _ => _ | None => _ end] =>
      set (final := f)
  end.
  assert (Hfinal :
            tagsMap (fst final)
            = pruneAbsent config (p0 :: rest)
                (tagsMap (IndexFacts.afterGeneration config writeFails args
                            (p0 :: rest) historicalTags fetch))).
  2: { destruct (snd final); [exact I | exact Hfinal]. }
  unfold final.
  destruct (IndexFacts.postsToProcess args (p0 :: rest) historicalTags).
  - exact (proj1 (IndexFacts.writeTagsFile_state config writeFails _ _)).
  - destruct (dryRun config).
    + exact (proj1 (IndexFacts.writeTagsFile_state config writeFails _ _)).
    + exact (proj1 (IndexFacts.scheduleWrite_state writeFails _)).
Qed.

End WithHost.
End Pipeline.

(** A post that [loadPosts] leaves out loses its entry: when no filter is
    active, a run that finishes has no entry for the path of a file that is
    a draft (with drafts excluded), or that could not be read or parsed,
    unless another file of the corpus has that path; the pruning does not
    tell such a file from one that was deleted. *)
Theorem excluded_drafts_are_pruned_like_deleted_posts :
  forall (host : Host) (config : TagSyncConfig) (includeDrafts : bool)
         (writeFails : nat -> option string) (args : Index.CliOptions)
         (files : list Loader.MarkdownFile) (historicalTags : TagsMap)
         (fetch : string -> Z -> Llm.FetchOutcome)
         (file : Loader.MarkdownFile),
    Index.filterApplied config = false ->
    In file files ->
    LoaderFacts.loadable includeDrafts file = false ->
    (forall other,
        In other files ->
        LoaderFacts.pathOf other = LoaderFacts.pathOf file ->
        LoaderFacts.loadable includeDrafts other = false) ->
    let run :=
      Pipeline.generate config includeDrafts writeFails args files
                        historicalTags fetch in
    match snd run with
    | Index.Finished _ =>
        JsObject.get (LoaderFacts.pathOf file) (Index.tagsMap (fst run)) = None
    | _ => True
    end.
Proof.
  intros host config includeDrafts writeFails args files historicalTags fetch
         file Hfilter Hin Hdraft Hothers run.
  pose proof (Pipeline.finished_index config writeFails args
                (Loader.loadPosts (filter config) includeDrafts files)
                historicalTags fetch) as Hindex.
  cbv zeta in Hindex. fold (Pipeline.generate config includeDrafts writeFails
                              args files historicalTags fetch) in Hindex.
  fold run in Hindex.
  destruct (snd run); try exact I.
  rewrite Hindex, IdleRun.pruneAbsent_get, Hfilter. cbn [orb].
  assert (Hmem :
            JsString.mem (LoaderFacts.pathOf file)
              (map relativePath
                   (Loader.loadPosts (filter config) includeDrafts files))
            = false).
  { destruct (JsString.mem _ _) eqn:E; [|reflexivity].
    apply StringFacts.mem_In in E.
    rewrite LoaderFacts.loadPosts_paths in E.
    apply in_map_iff in E. destruct E as [other [Hpath Hother]].
    apply filter_In in Hother. destruct Hother as [Hother Hkeep].
    apply andb_true_iff in Hkeep. destruct Hkeep as [_ Hload].
    rewrite (Hothers other Hother Hpath) in Hload. discriminate. }
  rewrite Hmem. reflexivity.
Qed.

Module PipelineExamples.

Definition published : Loader.MarkdownFile :=
  {| Loader.absolutePath := "/blog/source/_posts/a.md";
     Loader.relativeToPostRoot := "a.md";
     Loader.relativeToWorkspace := "source/_posts/a.md";
     Loader.baseName := "a";
     Loader.read :=
       Loader.Parsed
         {| Loader.gm_data :=
              {| Loader.data_title := Some "A";
                 Loader.data_draft := Loader.DraftOther;
                 Loader.data_tags := FmArray ["X"] |};
            Loader.gm_content := "body" |} |}.

Definition draft : Loader.MarkdownFile :=
  {| Loader.absolutePath := "/blog/source/_posts/d.md";
     Loader.relativeToPostRoot := "d.md";
     Loader.relativeToWorkspace := "source/_posts/d.md";
     Loader.baseName := "d";
     Loader.read :=
       Loader.Parsed
         {| Loader.gm_data :=
              {| Loader.data_title := None;
                 Loader.data_draft := Loader.DraftTrue;
                 Loader.data_tags := FmArray ["Y"] |};
            Loader.gm_content := "draft" |} |}.

(** An index that holds both. *)
Definition index : TagsMap :=
  [("source/_posts/a.md", ["X"]); ("source/_posts/d.md", ["Y"])].

End PipelineExamples.

(** An instance: a published post and a draft, both in the index; the
    run makes no request and the draft's entry is gone. *)
Lemma excluded_draft_example :
  let run :=
    @Pipeline.generate ExampleHost.host (Examples.config false) false
      RunExamples.healthyDisk RunExamples.incremental
      [PipelineExamples.published; PipelineExamples.draft]
      PipelineExamples.index GenerationExamples.down in
  JsObject.get "source/_posts/d.md" (Index.tagsMap (fst run)) = None
  /\ Index.fileWrites (fst run) = [[("source/_posts/a.md", ["X"])]].
Proof.
  cbv zeta. split; [|reflexivity].
  assert (H : forall other,
             In other [PipelineExamples.published; PipelineExamples.draft] ->
             @LoaderFacts.pathOf ExampleHost.host other
             = @LoaderFacts.pathOf ExampleHost.host PipelineExamples.draft ->
             LoaderFacts.loadable false other = false).
  { intros other [<-|[<-|[]]] Hpath; [|reflexivity].
    vm_compute in Hpath. discriminate Hpath. }
  exact (excluded_drafts_are_pruned_like_deleted_posts ExampleHost.host
           (Examples.config false) false RunExamples.healthyDisk
           RunExamples.incremental
           [PipelineExamples.published; PipelineExamples.draft]
           PipelineExamples.index GenerationExamples.down
           PipelineExamples.draft eq_refl (or_intror (or_introl eq_refl))
           eq_refl H).
Defined.

(* ================================================================== *)
(** ** What a merge keeps, and a task whose callback keeps failing *)

(** A merge loses no tag: every historical, own or proposed tag that is
    not empty after normalisation has its key among the tags of the
    merge. *)
Theorem merge_loses_no_tag :
  forall (host : Host) (own proposed : list string)
         (historical : option (list string)) (config : TagSyncConfig),
    Forall
      (fun input =>
         Taxonomy.normalizeTag input = EmptyString
         \/ exists tag,
             In tag (tags (Taxonomy.mergeTags own proposed historical config))
             /\ Spec.tagKey tag = Spec.tagKey input)
      (TaxonomyFacts.history historical ++ own ++ proposed).
Proof.
  intros host own proposed historical config.
  apply Forall_forall. intros input Hin.
  destruct (Taxonomy.normalizeTag input =? "") eqn:E;
    [left; apply String.eqb_eq; exact E | right].
  assert (Hkey : In (Spec.tagKey input)
                    (map Spec.tagKey
                         (Spec.orderedUnion
                            (TaxonomyFacts.history historical ++ own
                                                   ++ proposed)))).
  { apply TaxonomyFacts.union_keys. exists input.
    split; [exact Hin|]. split; [|reflexivity].
    unfold JsString.truthy. rewrite E. reflexivity. }
  apply in_map_iff in Hkey. destruct Hkey as [tag [Hk Htag]].
  exists tag. split; [|exact Hk].
  apply (Permutation_in tag
           (Permutation_sym
              (TaxonomyFacts.mergeTags_perm own proposed historical config))).
  exact Htag.
Qed.

Module FailingCallback.
Import JsString StringFacts ContainerFacts.
Import Llm LlmFacts.

(** The delays of the turns [attempt], [attempt + 1], ... of a loop. *)
Fixpoint schedule (attempt : Z) (turns : nat) : list Z :=
  match turns with
  | O => []
  | S turns' =>
      (if (0 <? attempt)%Z then [Z.min (2000 * attempt) 5000] else [])
      ++ schedule (attempt + 1) turns'
  end.

Lemma schedule_turn (attempt : Z) (turns : nat) :
  schedule attempt (S turns)
  = (if (0 <? attempt)%Z then [Z.min (2000 * attempt) 5000] else [])
    ++ schedule (attempt + 1) turns.
Proof. reflexivity. Qed.

(** The delays before the first, second, ... retry. *)
Definition retryDelays (retries : nat) : list Z :=
  map (fun k => Z.min (2000 * Z.of_nat k) 5000) (seq 1 retries).

Lemma schedule_from (start turns : nat) :
  (0 < start)%nat ->
  schedule (Z.of_nat start) turns
  = map (fun k => Z.min (2000 * Z.of_nat k) 5000) (seq start turns).
Proof.
  revert start. induction turns as [|turns IH]; intros start Hstart;
    [reflexivity|].
  rewrite schedule_turn.
  assert (E : (0 <? Z.of_nat start)%Z = true) by (apply Z.ltb_lt; lia).
  rewrite E. cbn [seq map app]. f_equal.
  replace (Z.of_nat start + 1)%Z with (Z.of_nat (S start)) by lia.
  apply IH. lia.
Qed.

Lemma schedule_retries (retries : nat) :
  schedule 0 (S retries) = retryDelays retries.
Proof.
  rewrite schedule_turn. change (0 <? 0)%Z with false. cbn [app].
  exact (schedule_from 1 retries Nat.lt_0_1).
Qed.

Section WithHost.
Context {host : Host} {St : Type}.
Variable config : TagSyncConfig.
Variable options : GenerateTagOptions St.
Variable fetch : string -> Z -> FetchOutcome.
Variable post : LoadedPost.
Variable message : string.

Hypothesis failing :
  forall merged s, snd (notify options post merged s) = Some message.

Lemma record_failing historyTags response proposed (st : GenState St) :
  snd (record config options post historyTags response proposed st)
  = Some message.
Proof.
  rewrite QuietRun.record_thrown. apply failing.
Qed.

Lemma backoff_state (attempt : Z) (st : GenState St) :
  calls (backoff attempt st) = calls st
  /\ sleeps (backoff attempt st)
     = sleeps st
       ++ (if (0 <? attempt)%Z then [Z.min (2000 * attempt) 5000] else []).
Proof.
  unfold backoff. destruct (0 <? attempt)%Z.
  - split; reflexivity.
  - rewrite app_nil_r. split; reflexivity.
Qed.

Lemma attemptLoop_failing historyTags turns attempt lastError
      (st : GenState St) :
  exists st',
    attemptLoop config options fetch post historyTags turns attempt
                lastError st
    = inr (st', match turns with O => lastError | S _ => Some message end)
    /\ calls st' = (calls st + turns)%nat
    /\ sleeps st' = sleeps st ++ schedule attempt turns.
Proof.
  revert attempt lastError st.
  induction turns as [|turns IH]; intros attempt lastError st.
  - exists st. cbn [attemptLoop schedule]. rewrite app_nil_r.
    split; [reflexivity|]. split; [lia | reflexivity].
  - rewrite attemptLoop_turn.
    pose proof (record_failing historyTags
                  (responseAt config fetch post attempt)
                  (resp_tags (responseAt config fetch post attempt))
                  (countCall (backoff attempt st))) as Hthrown.
    destruct (QuietRun.record_state config options post historyTags
                (responseAt config fetch post attempt)
                (resp_tags (responseAt config fetch post attempt))
                (countCall (backoff attempt st)))
      as [_ [_ [_ [Hs Hc]]]].
    destruct (record config options post historyTags _ _
                     (countCall (backoff attempt st)))
      as [st2 thrown].
    cbn [fst snd] in *. subst thrown.
    destruct (IH (attempt + 1)%Z (Some message) st2) as [st' [Hloop [Hc' Hs']]].
    destruct (backoff_state attempt st) as [Hbc Hbs].
    exists st'. split.
    + rewrite Hloop. destruct turns; reflexivity.
    + cbn [calls sleeps countCall] in Hs, Hc.
      split.
      * lia.
      * rewrite Hs', Hs, Hbs, schedule_turn, <- app_assoc. reflexivity.
Qed.

Lemma processPost_failing (retries : Z) (st : GenState St) :
  (0 <= retries)%Z ->
  let run := processPost config options fetch retries post st in
  let history := historyIn (historicalTagsMap st) (relativePath post) in
  snd run = Some message
  /\ calls (fst run) = (calls st + Z.to_nat (retries + 1))%nat
  /\ sleeps (fst run) = sleeps st ++ retryDelays (Z.to_nat retries)
  /\ JsMap.get (relativePath post) (results (fst run))
     = Some (failure message)
  /\ JsMap.get (relativePath post) (merges (fst run))
     = Some (Taxonomy.mergeTags (frontMatterTags post) [] (Some history)
                                config).
Proof.
  intros Hretries. cbv zeta. unfold processPost.
  fold (historyIn (historicalTagsMap st) (relativePath post)).
  set (history := historyIn (historicalTagsMap st) (relativePath post)).
  assert (Hturns : Z.to_nat (retries + 1) = S (Z.to_nat retries)) by lia.
  rewrite Hturns.
  destruct (attemptLoop_failing history (S (Z.to_nat retries)) 0 None st)
    as [st' [Hloop [Hc Hs]]].
  rewrite Hloop. cbv iota.
  pose proof (record_failing history (failure message) [] st') as Hthrown.
  destruct (QuietRun.record_state config options post history
              (failure message) [] st')
    as [Hr [Hm [_ [Hs2 Hc2]]]].
  destruct (record config options post history (failure message) [] st')
    as [st2 thrown].
  cbn [fst snd] in *. subst thrown.
  split; [reflexivity|].
  split; [rewrite Hc2, Hc; reflexivity|].
  split; [rewrite Hs2, Hs, schedule_retries; reflexivity|].
  split; [rewrite Hr; apply map_get_set_same|].
  rewrite Hm. apply map_get_set_same.
Qed.

End WithHost.
End FailingCallback.




(** A task whose completion callback throws every time goes round its
    loop [retries + 1] times, with a request in every turn and a sleep of
    [min(2000 * k, 5000)] milliseconds before the [k]-th retry, and then
    rejects with the callback's error; what it leaves for the post is a
    failure with that error and the merge without proposals, whatever the
    requests returned. *)
Theorem failing_callback_ends_in_the_fallback :
  forall (host : Host) (St : Type) (config : TagSyncConfig)
         (options : Llm.GenerateTagOptions St)
         (fetch : string -> Z -> Llm.FetchOutcome)
         (post : LoadedPost) (message : string) (retries : Z)
         (st : Llm.GenState St),
    (forall merged s, snd (Llm.notify options post merged s) = Some message) ->
    (0 <= retries)%Z ->
    let run := Llm.processPost config options fetch retries post st in
    let history :=
      LlmFacts.historyIn (Llm.historicalTagsMap st) (relativePath post) in
    snd run = Some message
    /\ Llm.calls (fst run) = (Llm.calls st + Z.to_nat (retries + 1))%nat
    /\ Llm.sleeps (fst run)
       = Llm.sleeps st
         ++ map (fun k => Z.min (2000 * Z.of_nat k) 5000)
                (seq 1 (Z.to_nat retries))
    /\ JsMap.get (relativePath post) (Llm.results (fst run))
       = Some (Llm.failure message)
    /\ JsMap.get (relativePath post) (Llm.merges (fst run))
       = Some (Taxonomy.mergeTags (frontMatterTags post) [] (Some history)
                                  config).
Proof.
  intros host St config options fetch post message retries st Hfailing Hr.
  exact (FailingCallback.processPost_failing config options fetch post
           message Hfailing retries st Hr).
Qed.

(** An instance: three retries against a service that answers, with a
    callback that fails with [EIO]. *)
Lemma failing_callback_example :
  let run :=
    @Llm.processPost ExampleHost.host unit (Examples.config false)
      (GenerationExamples.failing []) GenerationExamples.up 3
      (GenerationExamples.post "a.md" ["Y"])
      {| Llm.results := JsMap.empty; Llm.merges := JsMap.empty;
         Llm.historicalTagsMap := [("a.md", ["X"])];
         Llm.sleeps := []; Llm.calls := 0; Llm.caller := tt |} in
  snd run = Some "EIO"
  /\ Llm.calls (fst run) = 4
  /\ Llm.sleeps (fst run) = [2000; 4000; 5000]%Z
  /\ option_map tags (JsMap.get "a.md" (Llm.merges (fst run)))
     = Some ["X"; "Y"].
Proof.
  cbv zeta.
  destruct (failing_callback_ends_in_the_fallback ExampleHost.host unit
              (Examples.config false) (GenerationExamples.failing [])
              GenerationExamples.up (GenerationExamples.post "a.md" ["Y"])
              "EIO" 3
              {| Llm.results := JsMap.empty; Llm.merges := JsMap.empty;
                 Llm.historicalTagsMap := [("a.md", ["X"])];
                 Llm.sleeps := []; Llm.calls := 0; Llm.caller := tt |})
    as [H1 [H2 [H3 [_ H5]]]].
  - intros merged s. reflexivity.
  - apply Z.leb_le. reflexivity.
  - split; [exact H1|]. split; [exact H2|]. split; [exact H3|].
    exact (f_equal (option_map tags) H5).
Defined.

(* ================================================================== *)
(** ** Running again on the file a run has written *)

Module RerunFacts.
Import JsString StringFacts ContainerFacts.
Import Llm LlmFacts QuietRun.
Import Index IndexFacts.

(** An index as the paths of markdown files make it: no two entries with
    one key, no key that is an array index. *)
Definition pathKeyed {V} (o : JsObject.t V) : Prop :=
  NoDup (JsObject.keys o)
  /\ forall k, In k (JsObject.keys o) -> JsObject.arrayIndex k = None.

Lemma replace_keys {V} (k : string) (v : V) (o : JsObject.t V) :
  JsObject.keys (JsObject.replace k v o) = JsObject.keys o.
Proof.
  induction o as [|[k' v'] r IH]; [reflexivity|].
  simpl. destruct (String.eqb_spec k' k) as [->|]; [reflexivity|].
  simpl. f_equal. exact IH.
Qed.

Lemma set_pathKeyed {V} (k : string) (v : V) (o : JsObject.t V) :
  JsObject.arrayIndex k = None -> pathKeyed o ->
  pathKeyed (JsObject.set k v o).
Proof.
  intros Hk [Hnd Hplain]. unfold JsObject.set.
  destruct (JsObject.has k o) eqn:Hhas.
  - unfold pathKeyed. rewrite replace_keys. split; assumption.
  - rewrite Hk. unfold pathKeyed, JsObject.keys in *. rewrite map_app.
    split.
    + apply NoDup_app; [exact Hnd | constructor; [intros [] | constructor]|].
      intros x Hx [<-|[]].
      rewrite obj_has_keys in Hhas.
      pose proof (proj2 (mem_In k (JsObject.keys o)) Hx) as Hmem.
      congruence.
    + intros x Hx. apply in_app_or in Hx.
      destruct Hx as [Hx|[<-|[]]]; [exact (Hplain x Hx) | exact Hk].
Qed.

Lemma filter_pathKeyed {V} (f : string * V -> bool) (o : JsObject.t V) :
  pathKeyed o -> pathKeyed (List.filter f o).
Proof.
  intros [Hnd Hplain]. unfold pathKeyed, JsObject.keys in *. split.
  - clear Hplain. induction o as [|e r IH]; [constructor|].
    inversion Hnd as [|? ? Hnotin Hnd']; subst.
    simpl. destruct (f e); [|exact (IH Hnd')].
    simpl. constructor; [|exact (IH Hnd')].
    intros Hin. apply Hnotin. apply in_map_iff in Hin.
    destruct Hin as [x [Hx Hin]]. apply filter_In in Hin.
    apply in_map_iff. exists x. split; [exact Hx | apply Hin].
  - intros k Hk. apply Hplain. apply in_map_iff in Hk.
    destruct Hk as [x [Hx Hin]]. apply filter_In in Hin.
    apply in_map_iff. exists x. split; [exact Hx | apply Hin].
Qed.

Lemma perm_pathKeyed {V} (o o' : JsObject.t V) :
  Permutation o o' -> pathKeyed o -> pathKeyed o'.
Proof.
  intros Hp [Hnd Hplain].
  pose proof (Permutation_map fst Hp) as Hkeys.
  unfold pathKeyed, JsObject.keys in *. split.
  - exact (Permutation_NoDup Hkeys Hnd).
  - intros k Hk. apply Hplain.
    exact (Permutation_in k (Permutation_sym Hkeys) Hk).
Qed.

(** The spread copy of such an index is the index. *)
Lemma copy_pathKeyed {V} (o : JsObject.t V) :
  pathKeyed o -> JsObject.fromEntries (JsObject.entries o) = o.
Proof.
  intros [Hnd Hplain]. unfold JsObject.fromEntries, JsObject.entries.
  rewrite SortFacts.fromEntries_plain; try assumption; [reflexivity|].
  intros k _. reflexivity.
Qed.

Section WithHost.
Context {host : Host}.

(** [sortTagsMap] on such an index is the sort of its entries. *)
Lemma sortTagsMap_pathKeyed (m : TagsMap) :
  pathKeyed m ->
  sortTagsMap m
  = arraySort (fun a b => localeCompare "en-US" (fst a) (fst b)) m.
Proof.
  intros Hm. unfold sortTagsMap.
  apply copy_pathKeyed.
  apply (perm_pathKeyed m); [|exact Hm].
  apply Permutation_sym. apply arraySort_perm.
Qed.

Lemma sortTagsMap_fixed (m : TagsMap) :
  pathKeyed m -> sortTagsMap (sortTagsMap m) = sortTagsMap m.
Proof.
  intros Hm.
  assert (Hsorted : pathKeyed (sortTagsMap m)).
  { rewrite (sortTagsMap_pathKeyed m Hm).
    apply (perm_pathKeyed m); [|exact Hm].
    apply Permutation_sym. apply arraySort_perm. }
  rewrite (sortTagsMap_pathKeyed _ Hsorted).
  apply StabilityFacts.arraySort_fixed.
  rewrite (sortTagsMap_pathKeyed m Hm).
  apply (arraySort_sorted
           (fun a b : string * list string =>
              localeCompare "en-US" (fst a) (fst b))).
  intros a b. apply localeCompare_total.
Qed.

Section Run.
Variable config : TagSyncConfig.
Variable options : GenerateTagOptions RunState.
Variable fetch : string -> Z -> FetchOutcome.

Lemma tasks_pathKeyed (posts : list LoadedPost) (st : GenState RunState) :
  (forall post,
      In post posts -> JsObject.arrayIndex (relativePath post) = None) ->
  pathKeyed (historicalTagsMap st) ->
  pathKeyed (historicalTagsMap (tasks config options fetch posts st)).
Proof.
  revert st. induction posts as [|post rest IH]; intros st Hplain Hst;
    [exact Hst|].
  simpl. apply IH.
  - intros p Hp. apply Hplain. right. exact Hp.
  - destruct (task_state config options fetch post st) as [_ [_ [Hh _]]].
    rewrite Hh. apply set_pathKeyed; [|exact Hst].
    apply Hplain. left. reflexivity.
Qed.

End Run.

Lemma pruneAbsent_pathKeyed (config : TagSyncConfig)
      (posts : list LoadedPost) (m : TagsMap) :
  pathKeyed m -> pathKeyed (pruneAbsent config posts m).
Proof.
  intros Hm. rewrite pruneAbsent_filter.
  destruct (filterApplied config); [exact Hm|].
  apply filter_pathKeyed. exact Hm.
Qed.

(** Pruning again, or pruning what was only put in another order, prunes
    nothing. *)
Lemma pruneAbsent_again (config : TagSyncConfig) (posts : list LoadedPost)
      (m m' : TagsMap) :
  Permutation m' (pruneAbsent config posts m) ->
  pruneAbsent config posts m' = m'.
Proof.
  intros Hp. rewrite pruneAbsent_filter in *.
  destruct (filterApplied config); [reflexivity|].
  apply forallb_filter_id. apply forallb_forall. intros e He.
  pose proof (Permutation_in e Hp He) as Hin.
  apply filter_In in Hin. apply Hin.
Qed.

End WithHost.
End RerunFacts.

(** Running again changes nothing: after a run that finishes on a healthy
    disk, a further incremental run over the same posts, started from the
    file the first run left, makes no request and writes that file again,
    entry by entry and in the same order, whatever the service would
    answer.  The keys are paths of markdown files: none is an array
    index. *)
Theorem second_run_writes_the_same_file :
  forall (host : Host) (config : TagSyncConfig)
         (writeFails : nat -> option string) (args again : Index.CliOptions)
         (posts : list LoadedPost) (historicalTags : TagsMap)
         (fetch later : string -> Z -> Llm.FetchOutcome),
    (forall n, writeFails n = None) ->
    dryRun config = false ->
    JsString.truthy (apiKey config) = true ->
    posts <> [] ->
    RerunFacts.pathKeyed historicalTags ->
    (forall post,
        In post posts -> JsObject.arrayIndex (relativePath post) = None) ->
    match Index.full again with Some b => b | None => false end = false ->
    let first :=
      Index.runGenerate config writeFails args posts historicalTags fetch in
    let file := Index.sortTagsMap (Index.tagsMap (fst first)) in
    last (Index.fileWrites (fst first)) [] = file
    /\ Index.runGenerate config writeFails again posts file later
       = ({| Index.tagsMap := file;
             Index.fileWrites := [file];
             Index.writeChain := None;
             Index.writeCalls := 1 |},
          Index.Finished IdleRun.noStatistics).
Proof.
  intros host config writeFails args again posts historicalTags fetch later
         Hdisk Hdry Hkey Hposts Hhist Hpaths Hagain first file.
  set (options := IndexFacts.runOptions config writeFails historicalTags).
  set (st0 := HealthyRun.started config writeFails historicalTags).
  set (processed := IndexFacts.postsToProcess args posts historicalTags).
  set (index := Llm.historicalTagsMap
                  (QuietRun.tasks config options fetch processed st0)).
  assert (Hstart : Llm.historicalTagsMap st0 = historicalTags).
  { change (Llm.historicalTagsMap st0)
      with (JsObject.fromEntries (JsObject.entries historicalTags)).
    apply RerunFacts.copy_pathKeyed. exact Hhist. }
  (* The first run: its index and its writes. *)
  assert (Hfirst :
            Index.tagsMap (fst first) = Index.pruneAbsent config posts index
            /\ last (Index.fileWrites (fst first)) [] = file).
  { destruct processed as [|q qs] eqn:E.
    - unfold file, first.
      rewrite (IdleRun.runGenerate_idle config writeFails args posts
                 historicalTags fetch E Hposts (or_intror (Hdisk 0))).
      cbn [fst Index.tagsMap Index.fileWrites]. rewrite Hdry.
      split; reflexivity.
    - assert (Hne : IndexFacts.postsToProcess args posts historicalTags <> []).
      { fold processed. rewrite E. discriminate. }
      destruct (HealthyRun.runGenerate_healthy config writeFails args posts
                  historicalTags fetch (or_intror Hdisk) Hkey Hne)
        as [_ [H2 H3]].
      fold first in H2, H3. unfold file. rewrite H3, H2, Hdry.
      split.
      + unfold HealthyRun.finalIndex, HealthyRun.generated.
        fold processed. rewrite E. reflexivity.
      + apply last_last. }
  destruct Hfirst as [Hindex Hlast].
  split; [exact Hlast|].
  (* The index of the first run is keyed by paths and holds every post. *)
  assert (Hkeyed : RerunFacts.pathKeyed index).
  { apply RerunFacts.tasks_pathKeyed.
    - intros post Hin. apply Hpaths.
      exact (IdleRun.postsToProcess_incl args posts historicalTags post Hin).
    - rewrite Hstart. exact Hhist. }
  assert (Hpruned : RerunFacts.pathKeyed (Index.tagsMap (fst first))).
  { rewrite Hindex. apply RerunFacts.pruneAbsent_pathKeyed. exact Hkeyed. }
  assert (Hfile : file
                  = arraySort
                      (fun a b => localeCompare "en-US" (fst a) (fst b))
                      (Index.tagsMap (fst first))).
  { apply RerunFacts.sortTagsMap_pathKeyed. exact Hpruned. }
  assert (Hperm : Permutation file (Index.tagsMap (fst first))).
  { rewrite Hfile. apply ContainerFacts.arraySort_perm. }
  assert (Hfilekeyed : RerunFacts.pathKeyed file).
  { apply (RerunFacts.perm_pathKeyed (Index.tagsMap (fst first)));
      [apply Permutation_sym; exact Hperm | exact Hpruned]. }
  assert (Hall : forall post,
             In post posts -> JsObject.has (relativePath post) file = true).
  { intros post Hin. unfold file.
    rewrite HealthyRun.sortTagsMap_has, Hindex.
    unfold JsObject.has. rewrite IdleRun.pruneAbsent_get.
    assert (Hmem : JsString.mem (relativePath post) (map relativePath posts)
                   = true)
      by (apply StringFacts.mem_In, in_map; exact Hin).
    rewrite Hmem, orb_true_r.
    fold (JsObject.has (relativePath post) index). unfold index.
    rewrite HealthyRun.tasks_index_has, Hstart.
    destruct (JsObject.has (relativePath post) historicalTags) eqn:Hhas;
      [apply orb_true_r|].
    rewrite orb_false_r. apply StringFacts.mem_In, in_map.
    exact (IdleRun.postsToProcess_missing args posts historicalTags post
             Hin Hhas). }
  (* The second run. *)
  rewrite (IdleRun.runGenerate_idle config writeFails again posts file later
             (IdleRun.postsToProcess_nil again posts file Hagain Hall)
             Hposts (or_intror (Hdisk 0))).
  rewrite Hdry, (RerunFacts.copy_pathKeyed file Hfilekeyed).
  assert (Hsame : Index.pruneAbsent config posts file = file).
  { apply (RerunFacts.pruneAbsent_again config posts index).
    rewrite <- Hindex. exact Hperm. }
  rewrite Hsame.
  assert (Hsorted : Index.sortTagsMap file = file).
  { unfold file. apply RerunFacts.sortTagsMap_fixed. exact Hpruned. }
  rewrite Hsorted. reflexivity.
Qed.

(** An instance: a new post beside an entry that is in the file, then a
    second run against a service that is down. *)
Lemma second_run_example :
  let first :=
    @Index.runGenerate ExampleHost.host (Examples.config false)
      RunExamples.healthyDisk RunExamples.incremental
      [GenerationExamples.post "b.md" ["Y"];
       GenerationExamples.post "a.md" []]
      [("b.md", ["X"])] GenerationExamples.up in
  let file := [("a.md", ["Generated"]); ("b.md", ["X"])] in
  last (Index.fileWrites (fst first)) [] = file
  /\ @Index.runGenerate ExampleHost.host (Examples.config false)
       RunExamples.healthyDisk RunExamples.incremental
       [GenerationExamples.post "b.md" ["Y"];
        GenerationExamples.post "a.md" []]
       file GenerationExamples.down
     = ({| Index.tagsMap := file;
           Index.fileWrites := [file];
           Index.writeChain := None;
           Index.writeCalls := 1 |},
        Index.Finished IdleRun.noStatistics).
Proof.
  cbv zeta.
  apply (second_run_writes_the_same_file ExampleHost.host
           (Examples.config false) RunExamples.healthyDisk
           RunExamples.incremental RunExamples.incremental
           [GenerationExamples.post "b.md" ["Y"];
            GenerationExamples.post "a.md" []]
           [("b.md", ["X"])] GenerationExamples.up GenerationExamples.down).
  - intros n. reflexivity.
  - reflexivity.
  - reflexivity.
  - discriminate.
  - split.
    + constructor; [intros Hin; destruct Hin | constructor].
    + intros k Hk. destruct Hk as [Hk|Hk]; [|destruct Hk].
      rewrite <- Hk. reflexivity.
  - intros post Hin.
    destruct Hin as [Hin|[Hin|Hin]]; [| |destruct Hin];
      rewrite <- Hin; reflexivity.
  - reflexivity.
Defined.
